(** * Propheseer Python SDK: transport, pagination and realtime client

    A shallow embedding of the request pipeline ([_base_client.py],
    [_response.py], [_exceptions.py]), the pagination cursor
    ([_pagination.py], [resources/markets.py]), the market types and the
    [get] operation ([types/markets.py], [resources/markets.py]), the
    addresses the clients build, and the synchronous realtime client
    ([_websocket.py]), with the properties of each component.

    Conventions of the embedding.
    - Python [int] is [Z]; delays (Python [float]) are exact rationals [Q].
    - Python [str] is [string]; the character classes of the regular
      expressions and [str.lower] are modelled on ASCII, every other byte is
      left alone: where [str.lower], [re] or [int] go by the Unicode tables
      the model follows the code on ASCII texts only, and the properties
      that depend on it are stated for such texts.  [urllib.parse.quote]
      works on the bytes of the text.
    - A decoded JSON document is a [json] tree; a Python [dict] is the list of
      its items in insertion order.
    - Python [None] is [JNull] inside JSON data and [None] of an [option]
      for typed optional values.
    - Code that can raise returns a [result].
    - Recursive functions are followed without the recursion limit of the
      interpreter; [_transform_keys_within] puts it back for the key
      normalizer.
    - In the request loop the backoff is the exact number for every attempt
      and a delay is slept whatever its size: that the float of the code
      overflows past attempt 1024, and that [time.sleep] refuses a delay
      beyond the range of the clock (some 9.2e9 seconds, reached near
      attempt 35), is left out.  In the reconnect procedure the overflow of
      the delay is followed ([delay_overflows]).
    - What lies outside the program is a parameter: the answers of the
      network, the numbers [random.random()] returns, the pages of the list
      operation, the listeners of the application, its calls while the
      realtime client waits, and the outcome of each connection attempt.
      Effects are recorded in the state: network calls, waits, events,
      frames written.
    - The realtime client is followed one step at a time; the interleaving
      of its threads and the timeout of [connect] are not part of the
      model. *)

From Stdlib Require Import ZArith QArith Qminmax Qpower Lqa List String Ascii Bool Lia.
From Stdlib Require Import DecimalString DecimalZ.
From stdpp Require Import base strings list gmap.

Open Scope Z_scope.

(** ** Python values *)

Module Py.

Local Unset Elimination Schemes.

Inductive json : Type :=
| JNull
| JBool (b : bool)
| JInt (n : Z)
| JFloat (q : Q)
| JStr (s : string)
| JList (items : list json)
| JDict (items : list (string * json)).

Local Set Elimination Schemes.

(** Induction on documents, with the hypothesis for every element of a
    sequence and every value of an object. *)

Section JsonInduction.
Variable P : json -> Prop.
Hypothesis Hnull : P JNull.
Hypothesis Hbool : forall b, P (JBool b).
Hypothesis Hint : forall n, P (JInt n).
Hypothesis Hfloat : forall q, P (JFloat q).
Hypothesis Hstr : forall s, P (JStr s).
Hypothesis Hlist : forall items, List.Forall P items -> P (JList items).
Hypothesis Hdict :
  forall items, List.Forall (fun kv => P (snd kv)) items -> P (JDict items).

Fixpoint json_induction (obj : json) : P obj :=
  match obj with
  | JNull => Hnull
  | JBool b => Hbool b
  | JInt n => Hint n
  | JFloat q => Hfloat q
  | JStr s => Hstr s
  | JList items =>
      Hlist items
        ((fix all (l : list json) : List.Forall P l :=
            match l with
            | [] => @List.Forall_nil _ P
            | v :: l' => @List.Forall_cons _ P v l' (json_induction v) (all l')
            end) items)
  | JDict items =>
      Hdict items
        ((fix all (l : list (string * json)) : List.Forall (fun kv => P (snd kv)) l :=
            match l with
            | [] => @List.Forall_nil _ (fun kv => P (snd kv))
            | kv :: l' =>
                @List.Forall_cons _ (fun kv => P (snd kv)) kv l'
                  (json_induction (snd kv)) (all l')
            end) items)
  end.

End JsonInduction.

(** Python truth value of a decoded JSON value: [None], [False], zero, the
    empty string and the empty containers are false. *)
Definition truthy (v : json) : bool :=
  match v with
  | JNull => false
  | JBool b => b
  | JInt n => negb (n =? 0)
  | JFloat q => negb (Qeq_bool q 0)
  | JStr s => negb (String.eqb s "")
  | JList l => match l with [] => false | _ => true end
  | JDict d => match d with [] => false | _ => true end
  end.

(** [a or b] *)
Definition py_or (a b : json) : json := if truthy a then a else b.

(** [d.get(k)]: the value stored under [k], [None] when there is none. *)
Fixpoint dict_lookup {A : Type} (d : list (string * A)) (k : string) : option A :=
  match d with
  | [] => None
  | (k', v) :: d' => if String.eqb k' k then Some v else dict_lookup d' k
  end.

Definition dict_get (d : list (string * json)) (k : string) : json :=
  match dict_lookup d k with Some v => v | None => JNull end.

(** [d[k] = v]: an existing key keeps its position and takes the new value,
    a new key goes to the end. *)
Fixpoint dict_set {A : Type} (d : list (string * A)) (k : string) (v : A)
  : list (string * A) :=
  match d with
  | [] => [(k, v)]
  | (k', v') :: d' =>
      if String.eqb k' k then (k', v) :: d' else (k', v') :: dict_set d' k v
  end.

(** [{k: v for k, v in items}] *)
Definition dict_of_items {A : Type} (items : list (string * A)) : list (string * A) :=
  fold_left (fun d kv => dict_set d (fst kv) (snd kv)) items [].

(** A text of ASCII characters.  Where a built-in goes by the Unicode tables
    ([str.lower], the digits and spaces of [re] and [int]), the model follows
    it on such texts only. *)
Definition is_ascii_char (c : ascii) : bool := (N_of_ascii c <? 128)%N.

Definition is_ascii (s : string) : bool :=
  forallb is_ascii_char (list_ascii_of_string s).

(** Exceptions that are not SDK errors. *)
Inductive builtin_exn : Type :=
| ValueError
| TypeError
| AttributeError
| JSONDecodeError.

End Py.
Export Py.

(** ** Key-casing normalizer ([_base_client.py], lines 34-57) *)

Module KeyCasing.

(** The classes [[A-Z]], [[a-z]] and [\d] of the regular expressions, and
    [str.lower], on ASCII characters.  On other characters [\d] and
    [str.lower] go by the Unicode tables; the model leaves every byte outside
    ASCII as it is and in no class, so it follows the code on keys of ASCII
    characters ([is_ascii]) only. *)
Definition is_upper (c : ascii) : bool :=
  let n := N_of_ascii c in (65 <=? n)%N && (n <=? 90)%N.
Definition is_lower (c : ascii) : bool :=
  let n := N_of_ascii c in (97 <=? n)%N && (n <=? 122)%N.
Definition is_digit (c : ascii) : bool :=
  let n := N_of_ascii c in (48 <=? n)%N && (n <=? 57)%N.

Definition underscore : ascii := "_"%char.

(** [str.lower] on one ASCII character. *)
Definition to_lower (c : ascii) : ascii :=
  if is_upper c then ascii_of_N (N_of_ascii c + 32) else c.

Definition lower (s : list ascii) : list ascii := map to_lower s.

(** The longest prefix of upper-case letters, and what follows it. *)
Fixpoint span_upper (s : list ascii) : list ascii * list ascii :=
  match s with
  | c :: tl =>
      if is_upper c then let (run, rest) := span_upper tl in (c :: run, rest)
      else ([], s)
  | [] => ([], [])
  end.

(** A match of [([A-Z]+)([A-Z][a-z])] at the start of [s]: the groups and the
    remaining text. The greedy [[A-Z]+] first takes the whole run of capitals
    and gives back exactly one, which is the only way for [[A-Z][a-z]] to
    match; so there is a match iff the run has at least two capitals and a
    lower-case letter follows it. *)
Definition match_camel_1 (s : list ascii)
  : option (list ascii * list ascii * list ascii) :=
  let (run, rest) := span_upper s in
  match rest with
  | c :: rest' =>
      if is_lower c && (2 <=? length run)%nat
      then Some (removelast run, [List.last run underscore; c], rest')
      else None
  | [] => None
  end.

(** [_CAMEL_RE_1.sub(r"\1_\2", s)]: scan from the left; at a match emit
    [\1_\2] and resume after it, otherwise copy one character.  [fuel] bounds
    the number of scan steps. *)
Fixpoint sub_camel_1 (fuel : nat) (s : list ascii) : list ascii :=
  match fuel with
  | O => s
  | S fuel' =>
      match s with
      | [] => []
      | c :: tl =>
          match match_camel_1 s with
          | Some (g1, g2, rest) => g1 ++ underscore :: g2 ++ sub_camel_1 fuel' rest
          | None => c :: sub_camel_1 fuel' tl
          end
      end
  end.

(** [re.sub(r"\1_\2", s)] for a pattern [(P1)(P2)] of two one-character
    classes. *)
Fixpoint sub_pair (p1 p2 : ascii -> bool) (s : list ascii) : list ascii :=
  match s with
  | c1 :: tl =>
      match tl with
      | c2 :: rest =>
          if p1 c1 && p2 c2 then c1 :: underscore :: c2 :: sub_pair p1 p2 rest
          else c1 :: sub_pair p1 p2 tl
      | [] => [c1]
      end
  | [] => []
  end.

(** [_CAMEL_RE_1], [_CAMEL_RE_2], [_DIGIT_BOUNDARY_RE] *)
Definition _CAMEL_RE_1_sub (s : list ascii) : list ascii := sub_camel_1 (length s) s.
Definition _CAMEL_RE_2_sub : list ascii -> list ascii :=
  sub_pair (fun c => is_lower c || is_digit c) is_upper.
Definition _DIGIT_BOUNDARY_RE_sub : list ascii -> list ascii :=
  sub_pair is_lower is_digit.

Definition camel_to_snake_chars (name : list ascii) : list ascii :=
  let s := _CAMEL_RE_1_sub name in
  let s := _CAMEL_RE_2_sub s in
  let s := _DIGIT_BOUNDARY_RE_sub s in
  lower s.

(** [_camel_to_snake], for a key of ASCII characters. *)
Definition _camel_to_snake (name : string) : string :=
  string_of_list_ascii (camel_to_snake_chars (list_ascii_of_string name)).

(** [_transform_keys].  The recursion of the model has no bound: the
    [RecursionError] of the interpreter on a document nested deeper than its
    recursion limit allows is not modelled. *)
Fixpoint _transform_keys (obj : json) : json :=
  match obj with
  | JDict items =>
      JDict (dict_of_items
               ((fix over (l : list (string * json)) : list (string * json) :=
                   match l with
                   | [] => []
                   | (k, v) :: l' => (_camel_to_snake k, _transform_keys v) :: over l'
                   end) items))
  | JList items => JList (map _transform_keys items)
  | _ => obj
  end.

(** [_transform_keys] under the recursion limit of the interpreter.  [calls]
    is the number of nested calls of the function that the limit leaves room
    for at the place of the call; [None] is [RecursionError]. *)
Fixpoint _transform_keys_within (calls : nat) (obj : json) {struct obj} : option json :=
  match calls with
  | O => None
  | S calls' =>
      match obj with
      | JDict items =>
          option_map (fun l => JDict (dict_of_items l))
            ((fix over (l : list (string * json)) : option (list (string * json)) :=
                match l with
                | [] => Some []
                | (k, v) :: l' =>
                    match _transform_keys_within calls' v with
                    | Some v' => option_map (cons (_camel_to_snake k, v')) (over l')
                    | None => None
                    end
                end) items)
      | JList items =>
          option_map JList
            ((fix over (l : list json) : option (list json) :=
                match l with
                | [] => Some []
                | v :: l' =>
                    match _transform_keys_within calls' v with
                    | Some v' => option_map (cons v') (over l')
                    | None => None
                    end
                end) items)
      | _ => Some obj
      end
  end.

(** The nested calls of [_transform_keys] that a document needs: one for the
    document and, below it, as many as its deepest element or value. *)
Fixpoint depth (obj : json) : nat :=
  match obj with
  | JDict items =>
      S ((fix over (l : list (string * json)) : nat :=
            match l with
            | [] => O
            | (_, v) :: l' => Nat.max (depth v) (over l')
            end) items)
  | JList items =>
      S ((fix over (l : list json) : nat :=
            match l with
            | [] => O
            | v :: l' => Nat.max (depth v) (over l')
            end) items)
  | _ => 1%nat
  end.

(** A sequence nested [n] times around a value. *)
Fixpoint nested (n : nat) (v : json) : json :=
  match n with
  | O => v
  | S n' => JList [nested n' v]
  end.

(** The first character is of class [q]. *)
Definition head_in (q : ascii -> bool) (s : list ascii) : bool :=
  match s with
  | c :: _ => q c
  | [] => false
  end.

(** Some character of class [p] is immediately followed by one of class [q]. *)
Fixpoint has_adj (p q : ascii -> bool) (s : list ascii) : bool :=
  match s with
  | c1 :: tl =>
      match tl with
      | c2 :: _ => (p c1 && q c2) || has_adj p q tl
      | [] => false
      end
  | [] => false
  end.

Definition has_upper (key : string) : bool :=
  existsb is_upper (list_ascii_of_string key).
Definition lower_then_digit (key : string) : bool :=
  has_adj is_lower is_digit (list_ascii_of_string key).
Definition upper_then_digit (key : string) : bool :=
  has_adj is_upper is_digit (list_ascii_of_string key).

(** A lower-case letter next to an upper-case one, in either order. *)
Definition case_transition (key : string) : bool :=
  has_adj is_lower is_upper (list_ascii_of_string key)
  || has_adj is_upper is_lower (list_ascii_of_string key).

(** Every key of the document, at any depth, satisfies [ok]. *)
Fixpoint all_keys (ok : string -> bool) (obj : json) : bool :=
  match obj with
  | JDict items =>
      (fix over (l : list (string * json)) : bool :=
         match l with
         | [] => true
         | (k, v) :: l' => ok k && all_keys ok v && over l'
         end) items
  | JList items =>
      (fix over (l : list json) : bool :=
         match l with
         | [] => true
         | v :: l' => all_keys ok v && over l'
         end) items
  | _ => true
  end.

(** The text without its underscores. *)
Definition without_underscores (s : list ascii) : list ascii :=
  List.filter (fun c => negb (Ascii.eqb c underscore)) s.

(** The second list is the first with underscores put between some of its
    characters. *)
Inductive separated : list ascii -> list ascii -> Prop :=
| separated_nil : separated [] []
| separated_keep (c : ascii) (s s' : list ascii) :
    separated s s' -> separated (c :: s) (c :: s')
| separated_split (c : ascii) (s s' : list ascii) :
    separated s s' -> s <> [] -> separated (c :: s) (c :: underscore :: s').

End KeyCasing.

(** ** Error taxonomy ([_exceptions.py]) and the status mapper
       ([_base_client.py], lines 63-112) *)

Module Errors.

(** [httpx.Headers]: the header lines of a response in order, names in lower
    case as httpx keeps them. *)
Definition Headers : Type := list (string * string).

(** [headers.get(name)]: the values of all lines called [name], joined with
    a comma and a space; [None] when there is no such line. *)
Fixpoint Headers_get (h : Headers) (name : string) : option string :=
  match h with
  | [] => None
  | (k, v) :: h' =>
      if String.eqb k name then
        match Headers_get h' name with
        | Some more => Some (v ++ ", " ++ more)%string
        | None => Some v
        end
      else Headers_get h' name
  end.

(** [dict(headers.items())]: one entry per header name, in order of first
    appearance; a repeated name has its values joined. *)
Fixpoint Headers_add (d : list (string * string)) (k v : string)
  : list (string * string) :=
  match d with
  | [] => [(k, v)]
  | (k', v') :: d' =>
      if String.eqb k' k then (k', (v' ++ ", " ++ v)%string) :: d'
      else (k', v') :: Headers_add d' k v
  end.

Definition Headers_items (h : Headers) : list (string * string) :=
  fold_left (fun d kv => Headers_add d (fst kv) (snd kv)) h [].

(** The exception of the HTTP library behind an [APIConnectionError]. *)
Inductive transport_exn : Type :=
| TimeoutException
| HTTPError (text : string).

(** The attributes every [PropheseerError] has. *)
Record base : Type := mk_base {
  message : json;
  status : option Z;
  code : json;
  headers : option (list (string * string))
}.

(** One constructor per exception class, with the attributes the class adds. *)
Inductive error : Type :=
| Generic (b : base)
| Authentication (b : base)
| InsufficientCredits (b : base) (balance_cents required_cents : json)
| PermissionDenied (b : base) (required_plan : json)
| NotFound (b : base)
| RateLimit (b : base) (retry_after : json)
| InternalServer (b : base)
| Connection (b : base) (cause : option transport_exn).

Definition base_of (e : error) : base :=
  match e with
  | Generic b | Authentication b | InsufficientCredits b _ _
  | PermissionDenied b _ | NotFound b | RateLimit b _ | InternalServer b
  | Connection b _ => b
  end.

(** The [__init__] of each class. *)
Definition PropheseerError (msg : json) (st : option Z) (cd : json)
    (hd : option (list (string * string))) : error :=
  Generic (mk_base msg st cd hd).

Definition AuthenticationError (msg : json) (hd : option (list (string * string))) : error :=
  Authentication (mk_base msg (Some 401) (JStr "UNAUTHORIZED") hd).

Definition InsufficientCreditsError (msg : json) (balance required : json)
    (hd : option (list (string * string))) : error :=
  InsufficientCredits (mk_base msg (Some 402) (JStr "INSUFFICIENT_CREDITS") hd)
                      balance required.

Definition PermissionDeniedError (msg : json) (cd : json) (required_plan : json)
    (hd : option (list (string * string))) : error :=
  PermissionDenied (mk_base msg (Some 403) (py_or cd (JStr "FORBIDDEN")) hd)
                   required_plan.

Definition NotFoundError (msg : json) (hd : option (list (string * string))) : error :=
  NotFound (mk_base msg (Some 404) (JStr "NOT_FOUND") hd).

Definition RateLimitError (msg : json) (retry_after : json)
    (hd : option (list (string * string))) : error :=
  RateLimit (mk_base msg (Some 429) (JStr "RATE_LIMITED") hd) retry_after.

Definition InternalServerError (msg : json) (st : option Z)
    (hd : option (list (string * string))) : error :=
  InternalServer
    (mk_base msg
       (Some (match st with
              | Some n => if n =? 0 then 500 else n
              | None => 500
              end))
       (JStr "INTERNAL_ERROR") hd).

Definition APIConnectionError (msg : json) (cause : option transport_exn) : error :=
  Connection (mk_base msg None JNull None) cause.

(** [str(n)] for an [int]. *)
Definition str_of_int (n : Z) : string := NilZero.string_of_int (Z.to_int n).

(** The number of decimal digits of [n], and the test of
    [sys.int_max_str_digits]: the conversion of an [int] of more than 4300
    digits to a text, or back, raises [ValueError]. *)
Definition int_max_str_digits : nat := 4300.

Definition int_digits (n : Z) : nat := String.length (str_of_int (Z.abs n)).

Definition str_refused (n : Z) : bool := (int_max_str_digits <? int_digits n)%nat.

Definition _is_retryable (status_code : Z) : bool :=
  (status_code =? 429) || (500 <=? status_code).

Definition _map_status_to_error (status_code : Z) (body : list (string * json))
    (hdrs : Headers) : error :=
  let message :=
    py_or (dict_get body "error")
      (py_or (dict_get body "message")
         (JStr ("API error: " ++ str_of_int status_code))) in
  let header_dict := Some (Headers_items hdrs) in
  if status_code =? 401 then AuthenticationError message header_dict
  else if status_code =? 402 then
    InsufficientCreditsError message (dict_get body "balanceCents")
      (dict_get body "requiredCents") header_dict
  else if status_code =? 403 then
    PermissionDeniedError message (dict_get body "code")
      (dict_get body "requiredPlan") header_dict
  else if status_code =? 404 then NotFoundError message header_dict
  else if status_code =? 429 then
    RateLimitError message (dict_get body "retryAfter") header_dict
  else if 500 <=? status_code then
    InternalServerError message (Some status_code) header_dict
  else PropheseerError message (Some status_code) (dict_get body "code") header_dict.

End Errors.

(** What a call can raise: an SDK error or a built-in exception. *)
Inductive exn : Type :=
| SDK (e : Errors.error)
| Builtin (b : builtin_exn).

Inductive result (A : Type) : Type :=
| Return (a : A)
| Raise (e : exn).
Arguments Return {A} a.
Arguments Raise {A} e.

(** ** Rate-limit header parser ([_response.py]) *)

Module RateLimitHeaders.
Import Errors.

(** [int(s)] for a text of ASCII characters, in base 10: the white space
    around the number (space, tab, line feed, vertical tab, form feed,
    carriage return) is dropped, a sign may lead, single underscores may
    separate digits, and a number written with more than 4300 digits is
    refused.  [None] is [ValueError].  On a text with a character outside
    ASCII the built-in goes by the Unicode tables of spaces and digits, which
    the model does not hold: it follows the code on ASCII texts only. *)
Definition is_space (c : ascii) : bool :=
  let n := N_of_ascii c in
  (n =? 32)%N || ((9 <=? n)%N && (n <=? 13)%N).

Fixpoint lstrip (s : list ascii) : list ascii :=
  match s with
  | c :: tl => if is_space c then lstrip tl else s
  | [] => []
  end.

Definition strip (s : list ascii) : list ascii := rev (lstrip (rev (lstrip s))).

Definition digit_value (c : ascii) : Z := Z.of_N (N_of_ascii c) - 48.

Fixpoint digits (acc : Z) (after_digit : bool) (s : list ascii) : option Z :=
  match s with
  | [] => if after_digit then Some acc else None
  | c :: tl =>
      if KeyCasing.is_digit c then digits (10 * acc + digit_value c) true tl
      else if Ascii.eqb c "_" && after_digit then
        match tl with
        | [] => None
        | _ => digits acc false tl
        end
      else None
  end.

(** The digits of a text, counted as [int] counts them against its limit:
    leading zeros count, the sign, the underscores and the white space do
    not. *)
Definition digit_count (s : list ascii) : nat :=
  length (List.filter KeyCasing.is_digit s).

Definition py_int (s : string) : option Z :=
  let text := strip (list_ascii_of_string s) in
  if (int_max_str_digits <? digit_count text)%nat then None
  else
    match text with
    | c :: tl =>
        if Ascii.eqb c "-" then option_map Z.opp (digits 0 false tl)
        else if Ascii.eqb c "+" then digits 0 false tl
        else digits 0 false (c :: tl)
    | [] => None
    end.

Record RateLimitInfo : Type := mk_info {
  plan : string;
  billing_type : string;
  limit_day : option Z;
  remaining_day : option Z;
  limit_minute : option Z;
  remaining_minute : option Z;
  credit_balance_cents : option Z;
  credit_balance : option string;
  request_cost_cents : option Z;
  request_cost : option string
}.

(** [int(v)] of a header that is there; a header that is not there leaves the
    attribute [None]. *)
Definition int_field (v : option string) : result (option Z) :=
  match v with
  | None => Return None
  | Some text =>
      match py_int text with
      | Some n => Return (Some n)
      | None => Raise (Builtin ValueError)
      end
  end.

Definition parse_rate_limit_headers (h : Headers) : result (option RateLimitInfo) :=
  match Headers_get h "x-ratelimit-plan" with
  | None => Return None
  | Some plan =>
      if String.eqb plan "" then Return None
      else
        let billing_type :=
          match Headers_get h "x-billing-type" with
          | Some b => b
          | None => "subscription"%string
          end in
        if String.eqb billing_type "credits" then
          match int_field (Headers_get h "x-credit-balance-cents") with
          | Raise e => Raise e
          | Return balance_cents =>
              match int_field (Headers_get h "x-request-cost-cents") with
              | Raise e => Raise e
              | Return cost_cents =>
                  Return (Some (mk_info plan billing_type None None None None
                                  balance_cents (Headers_get h "x-credit-balance")
                                  cost_cents (Headers_get h "x-request-cost")))
              end
          end
        else
          match int_field (Headers_get h "x-ratelimit-limit-day") with
          | Raise e => Raise e
          | Return limit_day =>
          match int_field (Headers_get h "x-ratelimit-remaining-day") with
          | Raise e => Raise e
          | Return remaining_day =>
          match int_field (Headers_get h "x-ratelimit-limit-minute") with
          | Raise e => Raise e
          | Return limit_minute =>
          match int_field (Headers_get h "x-ratelimit-remaining-minute") with
          | Raise e => Raise e
          | Return remaining_minute =>
              Return (Some (mk_info plan billing_type limit_day remaining_day
                              limit_minute remaining_minute None None None None))
          end end end end
  end.

(** The headers the parser reads with [int]. *)
Definition numeric_headers : list string :=
  ["x-credit-balance-cents"; "x-request-cost-cents"; "x-ratelimit-limit-day";
   "x-ratelimit-remaining-day"; "x-ratelimit-limit-minute";
   "x-ratelimit-remaining-minute"]%string.

(** Those of them it reads in the billing mode of the headers. *)
Definition active_numeric_headers (h : Headers) : list string :=
  let billing_type :=
    match Headers_get h "x-billing-type" with
    | Some b => b
    | None => "subscription"%string
    end in
  if String.eqb billing_type "credits"
  then ["x-credit-balance-cents"; "x-request-cost-cents"]%string
  else ["x-ratelimit-limit-day"; "x-ratelimit-remaining-day";
        "x-ratelimit-limit-minute"; "x-ratelimit-remaining-minute"]%string.

(** Every numeric header of the billing mode that is there is a text of
    ASCII characters. *)
Definition ascii_numeric_headers (h : Headers) : bool :=
  forallb (fun name =>
             match Headers_get h name with
             | Some text => is_ascii text
             | None => true
             end) (active_numeric_headers h).

End RateLimitHeaders.

(** ** Retry delay and the request pipeline ([_base_client.py]) *)

Module Transport.
Import Errors RateLimitHeaders.

Section Pipeline.

(** The built-in [float(s)] on a string ([None] is [ValueError]). *)
Variable float_of_str : string -> option Q.

(** [float(v)] *)
Definition py_float (v : json) : result Q :=
  match v with
  | JInt n => Return (inject_Z n)
  | JFloat q => Return q
  | JBool b => Return (if b then 1%Q else 0%Q)
  | JStr s =>
      match float_of_str s with
      | Some q => Return q
      | None => Raise (Builtin ValueError)
      end
  | JNull | JList _ | JDict _ => Raise (Builtin TypeError)
  end.

(** [0.5 * (2 ** (attempt - 1))], as an exact number. *)
Definition base_delay (attempt : Z) : Q := ((1 # 2) * Qpower 2 (attempt - 1))%Q.

(** [_get_retry_delay]; [r] is the value [random.random()] returns when it is
    called, a number in [[0, 1)]. *)
Definition _get_retry_delay (r : Q) (attempt : Z) (last_error : option error)
  : result Q :=
  match last_error with
  | Some (RateLimit _ retry_after) =>
      if truthy retry_after then py_float retry_after
      else Return (base_delay attempt + r * base_delay attempt * (1 # 2))%Q
  | _ => Return (base_delay attempt + r * base_delay attempt * (1 # 2))%Q
  end.

(** [isinstance(last_error, RateLimitError) and last_error.retry_after], the
    test of [_get_retry_delay], as a truth value. *)
Definition carries_retry_after (last_error : option error) : bool :=
  match last_error with
  | Some (RateLimit _ retry_after) => truthy retry_after
  | _ => false
  end.

(** An HTTP response as the pipeline reads it: [json_body] is [None] when
    [response.json()] raises. *)
Record Response : Type := mk_response {
  status_code : Z;
  json_body : option json;
  resp_headers : Headers
}.

(** [response.is_success] *)
Definition is_success (r : Response) : bool :=
  (200 <=? status_code r) && (status_code r <=? 299).

(** What [self._client.request] does on one call. *)
Inductive net_result : Type :=
| Responded (r : Response)
| Failed (e : transport_exn).

(** One call of [self._client.request], by its arguments; the path and the
    query stand for the URL [_build_url] makes of them. *)
Record Call : Type := mk_call {
  call_method : string;
  call_path : string;
  call_query : option (list (string * json));
  call_headers : list (string * string);
  call_json : option json
}.

(** The effects of a request: the network calls made and the delays slept,
    oldest first. *)
Record World : Type := mk_world {
  calls : list Call;
  sleeps : list Q
}.

Record Client : Type := mk_client {
  api_key : option string;
  base_url : string;
  timeout_text : string;   (* [str(self.timeout)] *)
  max_retries : Z
}.

(** [a or b] on optional strings. *)
Definition str_or (a b : option string) : option string :=
  match a with
  | Some s => if String.eqb s "" then b else a
  | None => b
  end.

Definition str_truthy (a : option string) : bool :=
  match a with
  | Some s => negb (String.eqb s "")
  | None => false
  end.

(** [BaseSyncClient.__init__]; [env_key] is
    [os.environ.get("PROPHESEER_API_KEY")], [url] the base address after its
    default and [rstrip], [timeout] the text of the timeout after its
    default. *)
Definition BaseSyncClient (key env_key : option string) (url timeout : string)
    (retries : option Z) : Client :=
  mk_client (str_or key env_key) url timeout
            (match retries with Some n => n | None => 2 end).

(** The network: what the [n]-th call (from 0) of this request returns. *)
Variable net : nat -> net_result.
(** The random numbers: what [random.random()] returns at a given attempt. *)
Variable rand : Z -> Q.

Definition request_headers (c : Client) (auth : bool) : list (string * string) :=
  [("Content-Type", "application/json"); ("User-Agent", "propheseer-python/1.0.0")]
  ++ (if auth && str_truthy (api_key c)
      then [("Authorization", ("Bearer " ++ default "" (api_key c))%string)]
      else []).

Definition Success : Type := json * option RateLimitInfo * Response.

(** The body of [for attempt in range(self.max_retries + 1)], from [attempt]
    on, with [n] iterations left; after the last one comes
    [raise last_error or PropheseerError(...)].  A delay is an exact number:
    [time.sleep] refuses a negative one; that it also refuses one beyond the
    range of the clock of the platform (some 9.2e9 seconds), and that the
    backoff overflows as a float past attempt 1024, is not modelled. *)
Fixpoint attempts (c : Client) (call : Call) (n : nat) (attempt : Z)
    (last_error : option error) (w : World) : result Success * World :=
  match n with
  | O =>
      (Raise (SDK (match last_error with
                   | Some e => e
                   | None => PropheseerError (JStr "Request failed after retries")
                               None JNull None
                   end)), w)
  | S n' =>
      let slept :=
        if 0 <? attempt then
          match _get_retry_delay (rand attempt) attempt last_error with
          | Raise e => Raise e
          | Return delay =>
              if Qle_bool 0 delay
              then Return (mk_world (calls w) (sleeps w ++ [delay]))
              else Raise (Builtin ValueError)   (* [time.sleep] of a negative *)
          end
        else Return w in
      match slept with
      | Raise e => (Raise e, w)
      | Return w1 =>
          let w2 := mk_world (calls w1 ++ [call]) (sleeps w1) in
          match net (length (calls w1)) with
          | Responded response =>
              if is_success response then
                match json_body response with
                | None => (Raise (Builtin JSONDecodeError), w2)
                | Some data =>
                    match parse_rate_limit_headers (resp_headers response) with
                    | Raise e => (Raise e, w2)
                    | Return rate_limit => (Return (data, rate_limit, response), w2)
                    end
                end
              else
                let error_body :=
                  match json_body response with
                  | Some b => b
                  | None => JDict []
                  end in
                match error_body with
                | JDict body =>
                    let error := _map_status_to_error (status_code response) body
                                   (resp_headers response) in
                    if _is_retryable (status_code response) && (attempt <? max_retries c)
                    then attempts c call n' (attempt + 1) (Some error) w2
                    else (Raise (SDK error), w2)
                | _ => (Raise (Builtin AttributeError), w2)   (* [body.get] *)
                end
          | Failed TimeoutException =>
              let timeout_error :=
                APIConnectionError
                  (JStr ("Request timed out after " ++ timeout_text c ++ "s"))
                  (Some TimeoutException) in
              if attempt <? max_retries c
              then attempts c call n' (attempt + 1) (Some timeout_error) w2
              else (Raise (SDK timeout_error), w2)
          | Failed (HTTPError text) =>
              let conn_error :=
                APIConnectionError (JStr ("Connection error: " ++ text))
                  (Some (HTTPError text)) in
              if attempt <? max_retries c
              then attempts c call n' (attempt + 1) (Some conn_error) w2
              else (Raise (SDK conn_error), w2)
          end
      end
  end.

(** [BaseSyncClient._request] *)
Definition _request (c : Client) (method path : string)
    (query : option (list (string * json))) (body : option json) (auth : bool)
    (w : World) : result Success * World :=
  if auth && negb (str_truthy (api_key c)) then
    (Raise (SDK (AuthenticationError
                   (JStr ("API key is required. Pass it to the constructor "
                          ++ "or set the PROPHESEER_API_KEY environment variable."))
                   None)), w)
  else
    attempts c (mk_call method path query (request_headers c auth) body)
             (Z.to_nat (max_retries c + 1)) 0 None w.

End Pipeline.

(** A network for the examples: the first call is answered 429 with
    [retryAfter = 30], the next ones 200 with an empty object. *)
Definition rate_limited_once (n : nat) : net_result :=
  match n with
  | O => Responded (mk_response 429 (Some (JDict [("retryAfter"%string, JInt 30)])) [])
  | S _ => Responded (mk_response 200 (Some (JDict [])) [])
  end.

End Transport.

(** ** Pagination cursor ([_pagination.py]) and the auto-pagination driver
       ([resources/markets.py], [SyncMarkets.list_auto_paginate]) *)

Module Pagination.

Record PaginationMeta : Type := mk_meta {
  total : Z;
  limit : Z;
  offset : Z
}.

(** [PaginationMeta] and [SyncPage], with the attributes the cursor reads. *)
Record SyncPage (T : Type) : Type := mk_page {
  data : list T;
  meta : PaginationMeta
}.
Arguments mk_page {T} data meta.
Arguments data {T} s.
Arguments meta {T} s.

Definition has_more {T : Type} (page : SyncPage T) : bool :=
  offset (meta page) + limit (meta page) <? total (meta page).

Definition next_offset {T : Type} (page : SyncPage T) : option Z :=
  if negb (has_more page) then None
  else Some (offset (meta page) + limit (meta page)).

Section Driver.

Variable T : Type.

(** [self.list(..., limit=page_limit, offset=offset)] with the filters of the
    call: the page the server returns for a page size and an offset. *)
Variable list_op : Z -> Z -> SyncPage T.

(** What the generator does, in order: a request for a page, or an item handed
    to the consumer. *)
Inductive event : Type :=
| Request (page_limit offset : Z)
| Yield (item : T).

(** Whether the generator has returned, or is still running when the bound on
    the number of pages is reached. *)
Inductive outcome : Type :=
| Finished
| Running.

(** [max_items and yielded >= max_items] *)
Definition cap_reached (max_items : option Z) (yielded : Z) : bool :=
  match max_items with
  | Some m => negb (m =? 0) && (m <=? yielded)
  | None => false
  end.

(** [for item in page.data: yield item; yielded += 1; if ...: return]:
    the items yielded, the new count, and whether the generator returned. *)
Fixpoint yield_items (max_items : option Z) (items : list T) (yielded : Z)
  : list event * Z * bool :=
  match items with
  | [] => ([], yielded, false)
  | item :: rest =>
      if cap_reached max_items (yielded + 1)
      then ([Yield item], yielded + 1, true)
      else
        let '(evs, y, stop) := yield_items max_items rest (yielded + 1) in
        (Yield item :: evs, y, stop)
  end.

(** The [while True] loop, for at most [fuel] pages. *)
Fixpoint paginate (fuel : nat) (page_limit : Z) (max_items : option Z)
    (offset yielded : Z) : list event * outcome :=
  match fuel with
  | O => ([], Running)
  | S fuel' =>
      let page := list_op page_limit offset in
      let '(evs, yielded', stop) := yield_items max_items (data page) yielded in
      if stop then (Request page_limit offset :: evs, Finished)
      else if negb (has_more page) || (length (data page) =? 0)%nat
      then (Request page_limit offset :: evs, Finished)
      else
        match next_offset page with
        | Some offset' =>
            let (more, out) := paginate fuel' page_limit max_items offset' yielded' in
            (Request page_limit offset :: evs ++ more, out)
        | None =>   (* not reached: [has_more] holds here *)
            (Request page_limit offset :: evs, Finished)
        end
  end.

(** [limit or 50] *)
Definition page_size (limit : option Z) : Z :=
  match limit with
  | Some n => if n =? 0 then 50 else n
  | None => 50
  end.

Definition list_auto_paginate (fuel : nat) (limit max_items : option Z)
  : list event * outcome :=
  paginate fuel (page_size limit) max_items 0 0.

(** The items of a trace and its requests. *)
Definition yielded_items (tr : list event) : list T :=
  flat_map (fun e => match e with Yield x => [x] | Request _ _ => [] end) tr.

Definition requests (tr : list event) : list Z :=
  flat_map (fun e => match e with Request _ o => [o] | Yield _ => [] end) tr.

(** The pages the driver visits when nothing stops it: from [offset], each
    page gives the offset of the next. *)
Fixpoint visited (n : nat) (page_limit offset : Z) : list (SyncPage T) :=
  match n with
  | O => []
  | S n' =>
      let page := list_op page_limit offset in
      page :: visited n' page_limit
                (Pagination.offset (meta page) + limit (meta page))
  end.

(** A page after which the driver returns. *)
Definition last_page (page : SyncPage T) : bool :=
  negb (has_more page) || (length (data page) =? 0)%nat.

(** The offsets of the requests for those pages. *)
Fixpoint visited_offsets (n : nat) (page_limit offset : Z) : list Z :=
  match n with
  | O => []
  | S n' =>
      let page := list_op page_limit offset in
      offset :: visited_offsets n' page_limit
                  (Pagination.offset (meta page) + limit (meta page))
  end.

(** Every request of the trace is made while fewer than [m] items have been
    yielded, [y] of them before the trace starts. *)
Fixpoint requests_below_cap (m y : Z) (tr : list event) : bool :=
  match tr with
  | [] => true
  | Request _ _ :: tr' => (y <? m) && requests_below_cap m y tr'
  | Yield _ :: tr' => requests_below_cap m (y + 1) tr'
  end.

End Driver.

Arguments Request {T} page_limit offset.
Arguments Yield {T} item.
Arguments yield_items {T} max_items items yielded.
Arguments paginate {T} list_op fuel page_limit max_items offset yielded.
Arguments list_auto_paginate {T} list_op fuel limit max_items.
Arguments yielded_items {T} tr.
Arguments requests {T} tr.
Arguments visited {T} list_op n page_limit offset.
Arguments visited_offsets {T} list_op n page_limit offset.
Arguments last_page {T} page.
Arguments requests_below_cap {T} m y tr.

(** The servers of [tests/resources/test_markets.py], items by their id: two
    pages of one item with [total = 2], and a page of two items out of ten
    that is returned for every offset. *)
Definition two_pages (page_limit offset : Z) : SyncPage string :=
  if offset =? 0 then mk_page ["pm_123"%string] (mk_meta 2 1 0)
  else mk_page ["pm_456"%string] (mk_meta 2 1 1).

Definition one_page_of_two (page_limit offset : Z) : SyncPage string :=
  mk_page ["pm_123"; "pm_456"]%string (mk_meta 10 2 0).

End Pagination.

(** ** Realtime client ([_websocket.py], [_EventEmitter] and
       [PropheseerWebSocket]) *)

Module WebSocket.

(** A frame the client writes to the connection. *)
Inductive frame : Type :=
| Subscribe (markets : list string)
| Unsubscribe (markets : list string)
| ListSubscriptions
| Ping.

(** An argument passed to the listeners of an event. *)
Inductive arg : Type :=
| Message (m : json)
| Failure (text : string)     (* an exception object *)
| Number (n : Z)
| Text (s : string).

(** How a call of a listener ends: it returns, or it raises an [Exception]. *)
Inductive completion : Type :=
| Returns
| Raises (text : string).

(** [self._ws]: [None], or a connection object that is open or closed. *)
Inductive socket : Type :=
| NoSocket
| Socket (open : bool).

(** What the application does to the client while the client waits. *)
Inductive user_call : Type :=
| CallSubscribe (market_ids : list string)
| CallUnsubscribe (market_ids : list string)
| CallClose.

(** How an attempt to open the connection ends. *)
Inductive connect_result : Type :=
| Connected
| Refused (text : string).

(** What the receive loop gets from [self._ws.recv(timeout=1.0)] followed by
    [json.loads]. *)
Inductive inbound : Type :=
| RecvTimeout
| Received (message : json)
| Broken (text : string).     (* the connection fails or the text is not JSON *)

Section Client.

(** The state of the application the listeners work on. *)
Variable App : Type.

(** A listener: called with the arguments of the event, it changes the
    application state and returns or raises. *)
Definition listener : Type := list arg -> App -> App * completion.

Record state : Type := mk_state {
  _listeners : gmap string (list listener);
  _reconnect_enabled : bool;
  _max_reconnect_attempts : Z;
  _ws : socket;
  _closed : bool;
  _reconnect_attempts : Z;
  _subscribed_markets : gset string;
  app : App;
  (* what can be observed from outside, oldest first *)
  logged : list string;                 (* [logger.exception], by event name *)
  emitted : list (string * list arg);   (* the calls of [_emit] *)
  slept : list Q;                       (* [time.sleep] *)
  sent : list frame                     (* frames written to an open connection *)
}.

Definition with_app (a : App) (l : list string) (st : state) : state :=
  mk_state (_listeners st) (_reconnect_enabled st) (_max_reconnect_attempts st)
    (_ws st) (_closed st) (_reconnect_attempts st) (_subscribed_markets st)
    a l (emitted st) (slept st) (sent st).

Definition with_emitted (e : list (string * list arg)) (st : state) : state :=
  mk_state (_listeners st) (_reconnect_enabled st) (_max_reconnect_attempts st)
    (_ws st) (_closed st) (_reconnect_attempts st) (_subscribed_markets st)
    (app st) (logged st) e (slept st) (sent st).

Definition with_slept (s : list Q) (st : state) : state :=
  mk_state (_listeners st) (_reconnect_enabled st) (_max_reconnect_attempts st)
    (_ws st) (_closed st) (_reconnect_attempts st) (_subscribed_markets st)
    (app st) (logged st) (emitted st) s (sent st).

Definition with_sent (f : list frame) (st : state) : state :=
  mk_state (_listeners st) (_reconnect_enabled st) (_max_reconnect_attempts st)
    (_ws st) (_closed st) (_reconnect_attempts st) (_subscribed_markets st)
    (app st) (logged st) (emitted st) (slept st) f.

Definition with_connection (ws : socket) (closed : bool) (attempts : Z)
    (st : state) : state :=
  mk_state (_listeners st) (_reconnect_enabled st) (_max_reconnect_attempts st)
    ws closed attempts (_subscribed_markets st)
    (app st) (logged st) (emitted st) (slept st) (sent st).

Definition with_subscribed (m : gset string) (st : state) : state :=
  mk_state (_listeners st) (_reconnect_enabled st) (_max_reconnect_attempts st)
    (_ws st) (_closed st) (_reconnect_attempts st) m
    (app st) (logged st) (emitted st) (slept st) (sent st).

(** One turn of the loop of [_emit]: call the listener; an exception is
    logged under the name of the event and goes no further. *)
Definition call_listener (event : string) (args : list arg)
    (acc : App * list string) (callback : listener) : App * list string :=
  match callback args (fst acc) with
  | (a, Returns) => (a, snd acc)
  | (a, Raises _) => (a, snd acc ++ [event])
  end.

(** [_EventEmitter._emit] *)
Definition _emit (event : string) (args : list arg) (st : state) : state :=
  let r := fold_left (call_listener event args)
             (default [] (_listeners st !! event)) (app st, logged st) in
  with_emitted (emitted st ++ [(event, args)]) (with_app (fst r) (snd r) st).

(** The application state after the listeners [cbs] have been called in
    turn, and how many of these calls raise. *)
Definition run_all (args : list arg) (cbs : list listener) (a : App) : App :=
  fold_left (fun a cb => fst (cb args a)) cbs a.

Fixpoint raising (args : list arg) (cbs : list listener) (a : App) : nat :=
  match cbs with
  | [] => 0
  | cb :: cbs' =>
      ((match snd (cb args a) with Raises _ => 1 | Returns => 0 end)
       + raising args cbs' (fst (cb args a)))%nat
  end.

(** [_EventEmitter.on] *)
Definition on (event : string) (callback : listener) (st : state) : state :=
  mk_state (<[event := default [] (_listeners st !! event) ++ [callback]]> (_listeners st))
    (_reconnect_enabled st) (_max_reconnect_attempts st)
    (_ws st) (_closed st) (_reconnect_attempts st) (_subscribed_markets st)
    (app st) (logged st) (emitted st) (slept st) (sent st).

Definition known_types : list string :=
  ["connected"; "market_update"; "market_snapshot"; "subscribed";
   "unsubscribed"; "error"]%string.

(** [msg_type in (...)] *)
Definition known_type (msg_type : json) : option string :=
  match msg_type with
  | JStr s => if existsb (String.eqb s) known_types then Some s else None
  | _ => None
  end.

(** [_handle_message]; [message.get] raises when the message is not an
    object. *)
Definition _handle_message (message : json) (st : state) : state * completion :=
  match message with
  | JDict d =>
      let msg_type := default (JStr "") (dict_lookup d "type") in
      match known_type msg_type with
      | Some event => (_emit event [Message message] st, Returns)
      | None => (st, Returns)
      end
  | _ => (st, Raises "AttributeError")
  end.

(** Whether the receive loop has left its [while], or waits for a frame. *)
Inductive loop_status : Type :=
| Waiting
| Exited.

(** The loop [while not self._closed: ...] of [connect], over the frames
    that arrive. *)
Fixpoint receive_loop (input : list inbound) (st : state) : state * loop_status :=
  if _closed st then (st, Exited)
  else
    match input with
    | [] => (st, Waiting)
    | RecvTimeout :: rest => receive_loop rest st
    | Received message :: rest =>
        match _handle_message message st with
        | (st', Returns) => receive_loop rest st'
        | (st', Raises text) =>
            if _closed st' then (st', Exited)
            else (_emit "error" [Failure text] st', Exited)
        end
    | Broken text :: rest => (_emit "error" [Failure text] st, Exited)
    end.

(** Frames that are objects, and timeouts. *)
Definition harmless (x : inbound) : bool :=
  match x with
  | RecvTimeout => true
  | Received (JDict _) => true
  | _ => false
  end.

(** [_send]: written when there is an open connection, dropped otherwise. *)
Definition _send (f : frame) (st : state) : state :=
  match _ws st with
  | Socket true => with_sent (sent st ++ [f]) st
  | _ => st
  end.

Definition subscribe (market_ids : list string) (st : state) : state :=
  _send (Subscribe market_ids)
    (with_subscribed (_subscribed_markets st ∪ list_to_set market_ids) st).

Definition unsubscribe (market_ids : list string) (st : state) : state :=
  _send (Unsubscribe market_ids)
    (with_subscribed (_subscribed_markets st ∖ list_to_set market_ids) st).

Definition close (st : state) : state :=
  with_connection NoSocket true (_reconnect_attempts st) st.

Definition user (c : user_call) (st : state) : state :=
  match c with
  | CallSubscribe ids => subscribe ids st
  | CallUnsubscribe ids => unsubscribe ids st
  | CallClose => close st
  end.

(** What happens around the client: the calls of the application during the
    wait of reconnect attempt [n], and how the connection attempt that
    follows ends. *)
Variable during_wait : Z -> list user_call.
Variable connection : Z -> connect_result.

(** [min(1.0 * (2 ** (attempts - 1)), 30.0)], when the power can be made a
    float. *)
Definition reconnect_delay (attempts : Z) : Q :=
  Qmin (1 * Qpower 2 (attempts - 1)) 30.

(** [1.0 * (2 ** (attempts - 1))] raises [OverflowError] when the power, an
    [int], is too large for a float, from [2 ** 1024] on; and when the
    exponent is negative and itself too large for a float, the power being
    then computed on floats. *)
Definition delay_overflows (attempts : Z) : bool :=
  if attempts <? 1 then attempts - 1 <=? - (2 ^ 1024 - 2 ^ 970)
  else 1025 <=? attempts.

(** [time.sleep(delay)] in the reconnect procedure: the wait is recorded and
    the application acts meanwhile. *)
Definition sleep (n : Z) (delay : Q) (st : state) : state :=
  fold_left (fun s c => user c s) (during_wait n) (with_slept (slept st ++ [delay]) st).

(** [connect] when the connection is opened: the thread stores the
    connection, resets the counter and wakes the caller. *)
Definition connect_ok (st : state) : state :=
  with_connection (Socket true) false 0 st.

(** The socket after [self._ws.close()] in the [finally] of the thread. *)
Definition closed_socket (ws : socket) : socket :=
  match ws with
  | NoSocket => NoSocket
  | Socket _ => Socket false
  end.

(** [connect] when the connection is refused, up to the [disconnect] event:
    the thread emits [error], wakes the caller, closes what socket there is
    and emits [disconnect]. *)
Definition connect_refused (text : string) (st : state) : state :=
  let st := with_connection (_ws st) false (_reconnect_attempts st) st in
  let st := _emit "error" [Failure text] st in
  let st := with_connection (closed_socket (_ws st)) (_closed st)
              (_reconnect_attempts st) st in
  _emit "disconnect" [Number 1000; Text ""] st.

(** [if self._subscribed_markets: self.subscribe(list(self._subscribed_markets))] *)
Definition replay (st : state) : state :=
  if decide (_subscribed_markets st = ∅) then st
  else subscribe (elements (_subscribed_markets st)) st.

(** [_attempt_reconnect].  After a refused connection the thread of that
    attempt calls [_attempt_reconnect] again while the caller of [connect]
    runs [replay] on a closed socket; the two do not interfere, the replay
    is put first.  [fuel] bounds the number of attempts in a row.  Where the
    text of the final error or the delay cannot be computed the exception
    ([ValueError], [OverflowError]) leaves the procedure and ends the thread
    that runs it: the client stays as it is at that point. *)
Fixpoint _attempt_reconnect (fuel : nat) (st : state) : state :=
  match fuel with
  | O => st
  | S fuel' =>
      if _max_reconnect_attempts st <=? _reconnect_attempts st then
        if Errors.str_refused (_max_reconnect_attempts st) then st
        else
          _emit "error"
            [Failure ("Failed to reconnect after "
                      ++ Errors.str_of_int (_max_reconnect_attempts st)
                      ++ " attempts")] st
      else
        let n := _reconnect_attempts st + 1 in
        let st := with_connection (_ws st) (_closed st) n st in
        if delay_overflows n then st
        else
        let delay := reconnect_delay n in
        let st := _emit "reconnect" [Number n] st in
        let st := sleep n delay st in
        if _closed st then st
        else
          match connection n with
          | Connected => replay (connect_ok st)
          | Refused text =>
              let st := replay (connect_refused text st) in
              if negb (_closed st) && _reconnect_enabled st
              then _attempt_reconnect fuel' st
              else st
          end
  end.

(** The subscription set after calls of the application. *)
Definition apply_calls (calls : list user_call) (markets : gset string) : gset string :=
  fold_left (fun s c =>
               match c with
               | CallSubscribe ids => s ∪ list_to_set ids
               | CallUnsubscribe ids => s ∖ list_to_set ids
               | CallClose => s
               end) calls markets.

Definition is_close (c : user_call) : bool :=
  match c with CallClose => true | _ => false end.

(** The attempt numbers carried by the [reconnect] events emitted so far. *)
Definition reconnect_numbers (st : state) : list Z :=
  flat_map (fun e =>
              if String.eqb (fst e) "reconnect"
              then match snd e with [Number n] => [n] | _ => [] end
              else [])
           (emitted st).

(** The frames a replay of the set [markets] writes to an open connection. *)
Definition replayed (markets : gset string) : list frame :=
  if decide (markets = ∅) then [] else [Subscribe (elements markets)].

(** The numbers of [j] attempts in a row from number [n], and the
    subscription set after the waits of these attempts. *)
Fixpoint attempt_numbers (n : Z) (j : nat) : list Z :=
  match j with
  | O => []
  | S j' => n :: attempt_numbers (n + 1) j'
  end.

Fixpoint markets_after (n : Z) (j : nat) (markets : gset string) : gset string :=
  match j with
  | O => markets
  | S j' => markets_after (n + 1) j' (apply_calls (during_wait n) markets)
  end.

(** Enough fuel for every attempt the counter allows. *)
Definition attempts_left (st : state) : nat :=
  S (Z.to_nat (_max_reconnect_attempts st - _reconnect_attempts st)).

End Client.

Arguments mk_state {App}.
Arguments _listeners {App} s.
Arguments _reconnect_enabled {App} s.
Arguments _max_reconnect_attempts {App} s.
Arguments _ws {App} s.
Arguments _closed {App} s.
Arguments _reconnect_attempts {App} s.
Arguments _subscribed_markets {App} s.
Arguments app {App} s.
Arguments logged {App} s.
Arguments emitted {App} s.
Arguments slept {App} s.
Arguments sent {App} s.
Arguments run_all {App} args cbs a.
Arguments raising {App} args cbs a.
Arguments _emit {App} event args st.
Arguments on {App} event callback st.
Arguments _handle_message {App} message st.
Arguments receive_loop {App} input st.
Arguments _send {App} f st.
Arguments subscribe {App} market_ids st.
Arguments unsubscribe {App} market_ids st.
Arguments close {App} st.
Arguments user {App} c st.
Arguments sleep {App} during_wait n delay st.
Arguments connect_ok {App} st.
Arguments connect_refused {App} text st.
Arguments replay {App} st.
Arguments _attempt_reconnect {App} during_wait connection fuel st.
Arguments attempts_left {App} st.
Arguments reconnect_numbers {App} st.

(** A client for the examples: the application state is a counter; on
    [market_update] a listener that raises is registered before one that
    counts. *)
Definition failing_listener : listener Z := fun _ a => (a, Raises "boom").
Definition counting_listener : listener Z := fun _ a => (a + 1, Returns).

Definition fresh_client (max_attempts : Z) (markets : gset string) : state Z :=
  mk_state ∅ true max_attempts NoSocket false 0 markets 0 [] [] [] [].

(** A client that has just lost its connection. *)
Definition lost_client (max_attempts : Z) (markets : gset string) : state Z :=
  mk_state ∅ true max_attempts (Socket false) false 0 markets 0 [] [] [] [].

(** A scenario: during the first wait the application subscribes to [pm_2]
    and unsubscribes from [pm_1]; the first connection attempt is refused,
    the second succeeds. *)
Definition calls_first_wait (n : Z) : list user_call :=
  if n =? 1 then [CallSubscribe ["pm_2"%string]; CallUnsubscribe ["pm_1"%string]]
  else [].

Definition second_connects (n : Z) : connect_result :=
  if n =? 1 then Refused "connection refused" else Connected.

Definition demo_client : state Z :=
  on "market_update" counting_listener
    (on "market_update" failing_listener
       (with_connection Z (Socket true) false 0 (fresh_client 5 ∅))).

End WebSocket.

(** ** Retries of the request loop: the delays and the failures it retries
       ([_base_client.py], [BaseSyncClient._request]) *)

Module Retrying.
Import Errors Transport.

(** The delay [_get_retry_delay] computes when the last error carries no
    retry-after, with the random number drawn at that attempt. *)
Definition backoff (rand : Z -> Q) (attempt : Z) : Q :=
  (base_delay attempt + rand attempt * base_delay attempt * (1 # 2))%Q.

(** The delays before the attempts [1], ..., [k]. *)
Definition backoffs (rand : Z -> Q) (k : nat) : list Q :=
  map (fun i => backoff rand (Z.of_nat i)) (seq 1 k).

(** The delays slept at [k] attempts from [attempt] on: none at attempt 0. *)
Fixpoint waits (rand : Z -> Q) (attempt : Z) (k : nat) : list Q :=
  match k with
  | O => []
  | S k' =>
      (if 0 <? attempt then [backoff rand attempt] else [])
      ++ waits rand (attempt + 1) k'
  end.

(** The time slept in all. *)
Definition total (delays : list Q) : Q := fold_right Qplus 0%Q delays.

(** What the network does on a call that the loop answers with a retry and
    the backoff delay: the transport fails, or the server answers 500 or
    above with a body that is an object or is not JSON. *)
Definition transient (x : net_result) : bool :=
  match x with
  | Failed _ => true
  | Responded r =>
      (500 <=? status_code r)
      && match json_body r with
         | None | Some (JDict _) => true
         | Some _ => false
         end
  end.

(** The error the loop keeps for such a call. *)
Definition failure_error (c : Client) (x : net_result) : error :=
  match x with
  | Failed TimeoutException =>
      APIConnectionError
        (JStr ("Request timed out after " ++ timeout_text c ++ "s"))
        (Some TimeoutException)
  | Failed (HTTPError text) =>
      APIConnectionError (JStr ("Connection error: " ++ text))
        (Some (HTTPError text))
  | Responded r =>
      _map_status_to_error (status_code r)
        (match json_body r with Some (JDict body) => body | _ => [] end)
        (resp_headers r)
  end.

(** The class of an error. *)
Inductive kind : Type :=
| KGeneric | KAuthentication | KInsufficientCredits | KPermissionDenied
| KNotFound | KRateLimit | KInternalServer | KConnection.

Definition kind_of (e : error) : kind :=
  match e with
  | Generic _ => KGeneric
  | Authentication _ => KAuthentication
  | InsufficientCredits _ _ _ => KInsufficientCredits
  | PermissionDenied _ _ => KPermissionDenied
  | NotFound _ => KNotFound
  | RateLimit _ _ => KRateLimit
  | InternalServer _ => KInternalServer
  | Connection _ _ => KConnection
  end.

End Retrying.

(** ** Addresses: [str.rstrip("/")], [urllib.parse.quote(s, safe="")] and
       [_build_url] ([_base_client.py], lines 289-305) *)

Module Url.
Import Transport.

Definition DEFAULT_BASE_URL : string := "https://api.propheseer.com".
Definition DEFAULT_WS_BASE_URL : string := "wss://api.propheseer.com".

(** [s.rstrip("/")] *)
Fixpoint rstrip_slash_chars (s : list ascii) : list ascii :=
  match s with
  | [] => []
  | c :: tl =>
      match rstrip_slash_chars tl with
      | [] => if Ascii.eqb c "/" then [] else [c]
      | tl' => c :: tl'
      end
  end.

Definition rstrip_slash (s : string) : string :=
  string_of_list_ascii (rstrip_slash_chars (list_ascii_of_string s)).

(** [(base_url or default).rstrip("/")] *)
Definition resolve_base_url (base_url : option string) (dflt : string) : string :=
  rstrip_slash (match str_or base_url None with Some s => s | None => dflt end).

(** The address kept by [BaseSyncClient.__init__]. *)
Definition http_base_url (base_url : option string) : string :=
  resolve_base_url base_url DEFAULT_BASE_URL.

(** [s[n:]] *)
Definition slice_from (n : nat) (s : string) : string :=
  string_of_list_ascii (skipn n (list_ascii_of_string s)).

(** The address kept by [PropheseerWebSocket.__init__]: an [http] or [https]
    scheme becomes [ws] or [wss]. *)
Definition ws_base_url (base_url : option string) : string :=
  let base := resolve_base_url base_url DEFAULT_WS_BASE_URL in
  if String.prefix "http://" base then ("ws://" ++ slice_from 7 base)%string
  else if String.prefix "https://" base then ("wss://" ++ slice_from 8 base)%string
  else base.

(** [quote(s, safe="")] on the bytes of the text: letters, digits and
    [_ . - ~] are kept, every other byte is written [%XX] in upper-case
    hexadecimal. *)
Definition always_safe (c : ascii) : bool :=
  KeyCasing.is_upper c || KeyCasing.is_lower c || KeyCasing.is_digit c
  || Ascii.eqb c "_" || Ascii.eqb c "." || Ascii.eqb c "-" || Ascii.eqb c "~".

Definition hex_digit (n : N) : ascii :=
  nth (N.to_nat n) (list_ascii_of_string "0123456789ABCDEF") "0"%char.

Definition quoter (c : ascii) : list ascii :=
  if always_safe c then [c]
  else ["%"%char; hex_digit (N_of_ascii c / 16); hex_digit (N_of_ascii c mod 16)].

Definition quote_chars (s : list ascii) : list ascii := flat_map quoter s.

Definition quote (s : string) : string :=
  string_of_list_ascii (quote_chars (list_ascii_of_string s)).

(** The bytes [quote] writes with a percent sign are read back by
    [unquote_chars]; it is the inverse used to show that [quote] loses
    nothing. *)
Definition hex_value (c : ascii) : N :=
  let n := N_of_ascii c in
  if (65 <=? n)%N then (n - 55)%N else (n - 48)%N.

Fixpoint unquote_chars (s : list ascii) : list ascii :=
  match s with
  | [] => []
  | c :: tl =>
      if Ascii.eqb c "%" then
        match tl with
        | h :: l :: rest =>
            ascii_of_N (16 * hex_value h + hex_value l) :: unquote_chars rest
        | _ => c :: tl
        end
      else c :: unquote_chars tl
  end.

(** A character that delimits the parts of an address. *)
Definition delimiter (c : ascii) : bool :=
  existsb (Ascii.eqb c) (list_ascii_of_string "/?#&=+ :@").

Section BuildUrl.

(** The built-in [str] on the values the model does not print itself:
    numbers with a fraction and containers. *)
Variable repr_other : json -> string.

(** [str(v)] *)
Definition py_str (v : json) : string :=
  match v with
  | JStr s => s
  | JInt n => Errors.str_of_int n
  | JBool true => "True"
  | JBool false => "False"
  | JNull => "None"
  | _ => repr_other v
  end.

Definition is_none (v : json) : bool :=
  match v with JNull => true | _ => false end.

(** [{k: str(v) for k, v in query.items() if v is not None}] *)
Definition query_params (query : list (string * json)) : list (string * string) :=
  dict_of_items
    (map (fun kv => (fst kv, py_str (snd kv)))
       (List.filter (fun kv => negb (is_none (snd kv))) query)).

(** ["&".join(f"{k}={v}" for k, v in params.items())] *)
Definition query_string (params : list (string * string)) : string :=
  String.concat "&" (map (fun kv => (fst kv ++ "=" ++ snd kv)%string) params).

Definition _build_url (c : Client) (path : string)
    (query : option (list (string * json))) : string :=
  let url := (base_url c ++ path)%string in
  match query with
  | Some ((_ :: _) as q) =>
      match query_params q with
      | [] => url
      | params => (url ++ "?" ++ query_string params)%string
      end
  | _ => url
  end.

End BuildUrl.

End Url.

(** ** Market types ([types/markets.py]) *)

Module Types.
Import KeyCasing.

(** [d.get(k, default)] *)
Definition get_or (d : list (string * json)) (k : string) (dflt : json) : json :=
  match dict_lookup d k with Some v => v | None => dflt end.

(** A JSON object, the only value with a [get]. *)
Definition is_object (v : json) : bool :=
  match v with JDict _ => true | _ => false end.

(** [for x in v]: the elements of a list, the keys of an object, the
    characters of a string; other values cannot be iterated. *)
Definition iterate (v : json) : result (list json) :=
  match v with
  | JList l => Return l
  | JDict d => Return (map (fun kv => JStr (fst kv)) d)
  | JStr s => Return (map (fun c => JStr (String c "")) (list_ascii_of_string s))
  | _ => Raise (Builtin TypeError)
  end.

(** [[f(x) for x in l]] when [f] can raise. *)
Fixpoint map_result {A B : Type} (f : A -> result B) (l : list A) : result (list B) :=
  match l with
  | [] => Return []
  | x :: l' =>
      match f x with
      | Raise e => Raise e
      | Return y =>
          match map_result f l' with
          | Raise e => Raise e
          | Return ys => Return (y :: ys)
          end
      end
  end.

(** The dataclasses keep what the payload holds: every attribute is a JSON
    value. *)
Record Outcome : Type := mk_outcome {
  name : json;
  probability : json;
  volume_24h : json
}.

Record Market : Type := mk_market {
  id : json;
  source : json;
  source_id : json;
  question : json;
  description : json;
  category : json;
  status : json;
  outcomes : list Outcome;
  resolution_date : json;
  created_at : json;
  updated_at : json;
  url : json;
  image_url : json;
  tags : json
}.

(** [Outcome.from_dict]; [transformed.get] raises when the payload is not an
    object. *)
Definition Outcome_of (t : list (string * json)) : Outcome :=
  mk_outcome (get_or t "name" (JStr "")) (get_or t "probability" (JFloat 0))
             (dict_get t "volume_24h").

Definition Outcome_from_dict (data : json) : result Outcome :=
  match _transform_keys data with
  | JDict t => Return (Outcome_of t)
  | _ => Raise (Builtin AttributeError)
  end.

(** [Market.from_dict] *)
Definition Market_of (t : list (string * json)) (outs : list Outcome) : Market :=
  mk_market (get_or t "id" (JStr "")) (get_or t "source" (JStr ""))
    (get_or t "source_id" (JStr "")) (get_or t "question" (JStr ""))
    (dict_get t "description") (get_or t "category" (JStr "other"))
    (get_or t "status" (JStr "open")) outs
    (dict_get t "resolution_date") (get_or t "created_at" (JStr ""))
    (get_or t "updated_at" (JStr "")) (get_or t "url" (JStr ""))
    (dict_get t "image_url") (get_or t "tags" (JList [])).

Definition Market_from_dict (data : json) : result Market :=
  match _transform_keys data with
  | JDict t =>
      match iterate (get_or t "outcomes" (JList [])) with
      | Raise e => Raise e
      | Return outcomes_raw =>
          match map_result Outcome_from_dict outcomes_raw with
          | Raise e => Raise e
          | Return outs => Return (Market_of t outs)
          end
      end
  | _ => Raise (Builtin AttributeError)
  end.

(** The value stored last under [k] in a list of items. *)
Definition last_value {A : Type} (items : list (string * A)) (k : string) : option A :=
  dict_lookup (rev items) k.

End Types.

(** ** Markets resource ([resources/markets.py], [SyncMarkets.get]) *)

Module Markets.
Import Errors RateLimitHeaders Transport Url Types.

Section Resource.

Variable float_of_str : string -> option Q.
Variable net : nat -> net_result.
Variable rand : Z -> Q.

(** [f"/v1/markets/{quote(market_id, safe='')}"] *)
Definition market_path (market_id : string) : string :=
  ("/v1/markets/" ++ quote market_id)%string.

(** [SyncMarkets.get]: the market, the snapshot and the response. *)
Definition get (c : Client) (market_id : string) (w : World)
  : result (Market * option RateLimitInfo * Response) * World :=
  match _request float_of_str net rand c "GET" (market_path market_id)
          None None true w with
  | (Raise e, w') => (Raise e, w')
  | (Return (raw, rate_limit, response), w') =>
      match raw with
      | JDict d =>
          match Market_from_dict (get_or d "data" (JDict [])) with
          | Raise e => (Raise e, w')
          | Return market => (Return (market, rate_limit, response), w')
          end
      | _ => (Raise (Builtin AttributeError), w')   (* [raw.get] *)
      end
  end.

End Resource.

End Markets.

(** ** The thread of the realtime client ([_websocket.py],
       [PropheseerWebSocket.__init__] and [connect]) *)

Module WebSocketThread.
Import Transport Url WebSocket.

(** What [__init__] keeps for [connect]. *)
Record endpoint : Type := mk_endpoint {
  _api_key : string;
  _base_url : string
}.

(** [PropheseerWebSocket.__init__]; [env_key] is
    [os.environ.get("PROPHESEER_API_KEY")], [a] the state of the
    application. *)
Definition PropheseerWebSocket {App : Type} (a : App)
    (api_key env_key base_url : option string) (reconnect : bool)
    (max_reconnect_attempts : Z) : result (endpoint * state App) :=
  match str_or api_key env_key with
  | Some key =>
      if String.eqb key "" then Raise (Builtin ValueError)
      else
        Return (mk_endpoint key (ws_base_url base_url),
                mk_state ∅ reconnect max_reconnect_attempts NoSocket false 0 ∅
                  a [] [] [] [])
  | None => Raise (Builtin ValueError)
  end.

(** The address [connect] opens. *)
Definition connect_url (e : endpoint) : string :=
  (_base_url e ++ "/ws?api_key=" ++ quote (_api_key e))%string.

Section Thread.

Variable App : Type.
Variable during_wait : Z -> list user_call.
Variable connection : Z -> connect_result.

(** What the handling of a frame leaves as it is: everything but the
    application state, the log and the record of emissions. *)
Definition same_connection (st1 st2 : state App) : Prop :=
  _listeners st1 = _listeners st2 /\
  _reconnect_enabled st1 = _reconnect_enabled st2 /\
  _max_reconnect_attempts st1 = _max_reconnect_attempts st2 /\
  _ws st1 = _ws st2 /\
  _closed st1 = _closed st2 /\
  _reconnect_attempts st1 = _reconnect_attempts st2 /\
  _subscribed_markets st1 = _subscribed_markets st2 /\
  slept st1 = slept st2 /\
  sent st1 = sent st2.

(** The [finally] of the thread: the socket is closed, [disconnect] is
    emitted, and the reconnect procedure starts unless the client is closed
    or reconnection is off. *)
Definition thread_end (fuel : nat) (st : state App) : state App :=
  let st := with_connection App (closed_socket (_ws st)) (_closed st)
              (_reconnect_attempts st) st in
  let st := _emit "disconnect" [Number 1000; Text ""] st in
  if negb (_closed st) && _reconnect_enabled st
  then _attempt_reconnect during_wait connection fuel st
  else st.

(** The thread of [connect] once the connection is open, over the frames
    that arrive: it stays in its loop, or leaves it and ends. *)
Definition run (input : list inbound) (fuel : nat) (st : state App) : state App :=
  match receive_loop input (connect_ok st) with
  | (st', Waiting) => st'
  | (st', Exited) => thread_end fuel st'
  end.

End Thread.

Arguments same_connection {App} st1 st2.
Arguments thread_end {App} during_wait connection fuel st.
Arguments run {App} during_wait connection input fuel st.

End WebSocketThread.

(** * Properties *)


(** ** Pagination cursor *)

Section CursorFacts.
Import Pagination.

Lemma has_more_spec (T : Type) (page : SyncPage T) :
  has_more page = true <->
  offset (meta page) + limit (meta page) < total (meta page).
Proof. unfold has_more. apply Z.ltb_lt. Qed.

Lemma next_offset_has_more (T : Type) (page : SyncPage T) :
  has_more page = true ->
  next_offset page = Some (offset (meta page) + limit (meta page)).
Proof. unfold next_offset. intros ->. reflexivity. Qed.

(** C8. For every metadata triple, [has_more] is true exactly when
    [offset + limit < total]; [next_offset] is absent exactly when [has_more]
    is false, and is [offset + limit] otherwise. *)
Theorem pagination_cursor_contract (T : Type) (page : SyncPage T) :
  (has_more page = true <->
   offset (meta page) + limit (meta page) < total (meta page)) /\
  (next_offset page = None <-> has_more page = false) /\
  next_offset page =
    (if has_more page then Some (offset (meta page) + limit (meta page))
     else None).
Proof.
  split; [apply has_more_spec|].
  unfold next_offset.
  destruct (has_more page); simpl; repeat split; congruence.
Qed.

End CursorFacts.

(** ** Retry policy *)

Section RetryFacts.
Import Errors Transport.

Variable float_of_str : string -> option Q.

Lemma is_retryable_spec (c : Z) :
  _is_retryable c = true <-> c = 429 \/ 500 <= c.
Proof.
  unfold _is_retryable. rewrite orb_true_iff, Z.eqb_eq, Z.leb_le. reflexivity.
Qed.

Lemma base_delay_pos (a : Z) : (0 < base_delay a)%Q.
Proof.
  unfold base_delay.
  assert (H : (0 < Qpower 2 (a - 1))%Q) by (apply Qpower_0_lt; reflexivity).
  nra.
Qed.

Lemma retry_delay_verbatim (r : Q) (a : Z) (b : base) (n : Z) :
  n <> 0 ->
  _get_retry_delay float_of_str r a (Some (RateLimit b (JInt n)))
  = Return (inject_Z n).
Proof.
  intros Hn. simpl. apply Z.eqb_neq in Hn. rewrite Hn. reflexivity.
Qed.

Lemma retry_delay_backoff (r : Q) (a : Z) (last_error : option error) :
  carries_retry_after last_error = false ->
  _get_retry_delay float_of_str r a last_error
  = Return (base_delay a + r * base_delay a * (1 # 2))%Q.
Proof.
  unfold carries_retry_after, _get_retry_delay.
  destruct last_error as [[]|]; try reflexivity.
  intros ->. reflexivity.
Qed.

Lemma jitter_range (r : Q) (a : Z) :
  (0 <= r)%Q -> (r < 1)%Q ->
  (0 <= r * base_delay a * (1 # 2))%Q /\
  (r * base_delay a * (1 # 2) < (1 # 4) * Qpower 2 (a - 1))%Q.
Proof.
  intros H0 H1. pose proof (base_delay_pos a) as Hb.
  unfold base_delay in *.
  set (p := Qpower 2 (a - 1)) in *.
  split; nra.
Qed.

End RetryFacts.

Section RetryPolicy.
Import Errors Transport.

(** C1 (as amended). A status code is retried exactly when it is 429 or at
    least 500.  For an attempt [a] and a last error [e], with [r] in [[0, 1)]
    the random number drawn: when [e] is a rate-limit error whose
    [retry_after] is a non-zero integer the delay is that integer; when [e]
    carries no retry-after the code takes up (no error, another kind of error,
    or a [retry_after] that is absent or zero) the delay is
    [0.5 * 2^(a-1)] plus the jitter [r * 0.5 * 2^(a-1) * 0.5], which lies in
    [[0, 0.25 * 2^(a-1))]. *)
Theorem retry_policy (float_of_str : string -> option Q)
    (c : Z) (r : Q) (a : Z) (last_error : option error) :
  (0 <= r)%Q -> (r < 1)%Q ->
  (_is_retryable c = true <-> c = 429 \/ 500 <= c) /\
  (forall b n, last_error = Some (RateLimit b (JInt n)) -> n <> 0 ->
     _get_retry_delay float_of_str r a last_error = Return (inject_Z n)) /\
  (carries_retry_after last_error = false ->
     exists jitter : Q,
       _get_retry_delay float_of_str r a last_error
       = Return ((1 # 2) * Qpower 2 (a - 1) + jitter)%Q /\
       (jitter == r * ((1 # 4) * Qpower 2 (a - 1)))%Q /\
       (0 <= jitter)%Q /\ (jitter < (1 # 4) * Qpower 2 (a - 1))%Q).
Proof.
  intros H0 H1. split; [apply is_retryable_spec|]. split.
  - intros b n -> Hn. apply retry_delay_verbatim; assumption.
  - intros Hc. exists (r * base_delay a * (1 # 2))%Q. split.
    + apply retry_delay_backoff; assumption.
    + split; [unfold base_delay; ring|]. apply jitter_range; assumption.
Qed.

Lemma retry_policy_witness :
  (0 <= 1 # 2)%Q /\ (1 # 2 < 1)%Q /\
  (_is_retryable 503 = true <-> 503 = 429 \/ 500 <= 503) /\
  (forall b n, Some (RateLimitError (JStr "slow down") (JInt 30) None)
               = Some (RateLimit b (JInt n)) -> n <> 0 ->
     _get_retry_delay (fun _ => None) (1 # 2) 2
       (Some (RateLimitError (JStr "slow down") (JInt 30) None))
     = Return (inject_Z n)) /\
  (carries_retry_after (Some (RateLimitError (JStr "slow down") (JInt 30) None)) = false ->
     exists jitter : Q,
       _get_retry_delay (fun _ => None) (1 # 2) 2
         (Some (RateLimitError (JStr "slow down") (JInt 30) None))
       = Return ((1 # 2) * Qpower 2 (2 - 1) + jitter)%Q /\
       (jitter == (1 # 2) * ((1 # 4) * Qpower 2 (2 - 1)))%Q /\
       (0 <= jitter)%Q /\ (jitter < (1 # 4) * Qpower 2 (2 - 1))%Q).
Proof.
  assert (Ha : (0 <= 1 # 2)%Q) by (vm_compute; discriminate).
  assert (Hb : (1 # 2 < 1)%Q) by reflexivity.
  split; [exact Ha|]. split; [exact Hb|].
  exact (retry_policy (fun _ => None) 503 (1 # 2) 2
           (Some (RateLimitError (JStr "slow down") (JInt 30) None)) Ha Hb).
Defined.

(** A rate-limit error whose [retry_after] is 0 carries a retry-after, yet the
    delay is not 0: the first retry waits the half second of the backoff. *)
Lemma retry_after_zero_not_verbatim :
  exists delay : Q,
    _get_retry_delay (fun _ => None) 0 1
      (Some (RateLimitError (JStr "slow down") (JInt 0) None))
    = Return delay /\
    ~ (delay == inject_Z 0)%Q.
Proof.
  eexists. split; [reflexivity|]. vm_compute. discriminate.
Qed.

Example retry_after_30 :
  _get_retry_delay (fun _ => None) (1 # 3) 1
    (Some (_map_status_to_error 429 [("retryAfter"%string, JInt 30)] []))
  = Return (inject_Z 30).
Proof. reflexivity. Qed.

Example backoff_steps :
  (base_delay 1 == 1 # 2)%Q /\ (base_delay 2 == 1)%Q /\ (base_delay 3 == 2)%Q.
Proof. repeat split; reflexivity. Qed.

End RetryPolicy.

(** ** Missing credential *)

Section Credential.
Import Errors Transport.

Lemma request_without_key (float_of_str : string -> option Q)
    (net : nat -> net_result) (rand : Z -> Q) (c : Client)
    (method path : string) (query : option (list (string * json)))
    (body : option json) (w : World) :
  str_truthy (api_key c) = false ->
  exists msg,
    _request float_of_str net rand c method path query body true w
    = (Raise (SDK (AuthenticationError msg None)), w).
Proof.
  intros H. unfold _request. rewrite H. simpl. eexists. reflexivity.
Qed.

(** C3. On a client built with no explicit key and no key in the environment,
    a request with [auth = true] raises an [AuthenticationError] and leaves
    the world as it was: no network call is made and nothing is slept, so the
    retry loop is not entered. *)
Theorem missing_credential_fails_locally (float_of_str : string -> option Q)
    (net : nat -> net_result) (rand : Z -> Q)
    (url timeout : string) (retries : option Z)
    (method path : string) (query : option (list (string * json)))
    (body : option json) (w : World) :
  exists msg,
    _request float_of_str net rand (BaseSyncClient None None url timeout retries)
      method path query body true w
    = (Raise (SDK (Authentication
                     (mk_base msg (Some 401) (JStr "UNAUTHORIZED") None))), w) /\
    calls (snd (_request float_of_str net rand
                  (BaseSyncClient None None url timeout retries)
                  method path query body true w)) = calls w /\
    sleeps (snd (_request float_of_str net rand
                   (BaseSyncClient None None url timeout retries)
                   method path query body true w)) = sleeps w.
Proof.
  destruct (request_without_key float_of_str net rand
              (BaseSyncClient None None url timeout retries)
              method path query body w eq_refl) as [msg H].
  exists msg. rewrite H. repeat split.
Qed.

(** A 429 with [retryAfter = 30] and then a 200: two calls, one wait of 30
    seconds, and the body of the second response is returned. *)
Example retry_after_sets_the_wait :
  let out :=
    _request (fun _ => None) rate_limited_once (fun _ => 1 # 2)
      (BaseSyncClient (Some "pk_test_123"%string) None
         "https://api.propheseer.com" "30.0" None)
      "GET" "/v1/markets" None None true (mk_world [] []) in
  (exists response, fst out = Return (JDict [], None, response)) /\
  length (calls (snd out)) = 2%nat /\
  sleeps (snd out) = [inject_Z 30].
Proof. vm_compute. repeat split. eexists. reflexivity. Qed.

End Credential.

(** ** Error taxonomy mapper *)

Section MapperFacts.
Import Errors.

Lemma py_or_truthy (a b : json) : truthy a = true -> py_or a b = a.
Proof. unfold py_or. intros ->. reflexivity. Qed.

Lemma py_or_falsy (a b : json) : truthy a = false -> py_or a b = b.
Proof. unfold py_or. intros ->. reflexivity. Qed.

Lemma mapped_message (status_code : Z) (body : list (string * json)) (hdrs : Headers) :
  message (base_of (_map_status_to_error status_code body hdrs))
  = py_or (dict_get body "error")
      (py_or (dict_get body "message")
         (JStr ("API error: " ++ str_of_int status_code))).
Proof.
  unfold _map_status_to_error.
  repeat match goal with |- context [if ?c then _ else _] => destruct c end;
    reflexivity.
Qed.

Lemma mapped_headers (status_code : Z) (body : list (string * json)) (hdrs : Headers) :
  headers (base_of (_map_status_to_error status_code body hdrs))
  = Some (Headers_items hdrs).
Proof.
  unfold _map_status_to_error.
  repeat match goal with |- context [if ?c then _ else _] => destruct c end;
    reflexivity.
Qed.

(** C4 (as amended). The mapper is a function of the status, the body and the
    headers, defined on all of them.  By status: 401 gives Authentication,
    402 InsufficientCredits with [balanceCents] and [requiredCents] of the
    body, 403 PermissionDenied with the [code] of the body when that is true
    as a Python value (["FORBIDDEN"] otherwise) and with [requiredPlan],
    404 NotFound, 429 RateLimit with [retryAfter], 500 and above
    InternalServer with the status itself, anything else the generic error
    with the status and the [code] of the body.  The message is the ["error"]
    value of the body when that is true as a Python value (present, not null,
    not empty, not zero), else its ["message"] value under the same condition,
    else ["API error: {status}"].  Every error carries the header dictionary
    of the response.  The body [{"error": "x", "requiredPlan": "pro"}] at 403
    gives a PermissionDenied with [required_plan = "pro"] and status 403. *)
Theorem error_mapping (status_code : Z) (body : list (string * json)) (hdrs : Headers) :
  let e := _map_status_to_error status_code body hdrs in
  let msg := message (base_of e) in
  let hd := Some (Headers_items hdrs) in
  (status_code = 401 ->
     e = Authentication (mk_base msg (Some 401) (JStr "UNAUTHORIZED") hd)) /\
  (status_code = 402 ->
     e = InsufficientCredits
           (mk_base msg (Some 402) (JStr "INSUFFICIENT_CREDITS") hd)
           (dict_get body "balanceCents") (dict_get body "requiredCents")) /\
  (status_code = 403 ->
     e = PermissionDenied
           (mk_base msg (Some 403)
              (if truthy (dict_get body "code") then dict_get body "code"
               else JStr "FORBIDDEN") hd)
           (dict_get body "requiredPlan")) /\
  (status_code = 404 ->
     e = NotFound (mk_base msg (Some 404) (JStr "NOT_FOUND") hd)) /\
  (status_code = 429 ->
     e = RateLimit (mk_base msg (Some 429) (JStr "RATE_LIMITED") hd)
           (dict_get body "retryAfter")) /\
  (500 <= status_code ->
     e = InternalServer
           (mk_base msg (Some status_code) (JStr "INTERNAL_ERROR") hd)) /\
  (status_code < 500 -> status_code <> 401 -> status_code <> 402 ->
   status_code <> 403 -> status_code <> 404 -> status_code <> 429 ->
     e = Generic (mk_base msg (Some status_code) (dict_get body "code") hd)) /\
  (truthy (dict_get body "error") = true -> msg = dict_get body "error") /\
  (truthy (dict_get body "error") = false ->
   truthy (dict_get body "message") = true -> msg = dict_get body "message") /\
  (truthy (dict_get body "error") = false ->
   truthy (dict_get body "message") = false ->
     msg = JStr ("API error: " ++ str_of_int status_code)) /\
  headers (base_of e) = hd /\
  _map_status_to_error 403
    [("error"%string, JStr "x"); ("requiredPlan"%string, JStr "pro")] hdrs
  = PermissionDenied (mk_base (JStr "x") (Some 403) (JStr "FORBIDDEN") hd)
      (JStr "pro").
Proof.
  intros e msg hd. subst msg e. rewrite mapped_message.
  set (m := py_or _ _).
  repeat split.
  - intros ->. reflexivity.
  - intros ->. reflexivity.
  - intros ->. reflexivity.
  - intros ->. reflexivity.
  - intros ->. reflexivity.
  - intros H. unfold _map_status_to_error. fold m.
    destruct (Z.eqb_spec status_code 401); [lia|].
    destruct (Z.eqb_spec status_code 402); [lia|].
    destruct (Z.eqb_spec status_code 403); [lia|].
    destruct (Z.eqb_spec status_code 404); [lia|].
    destruct (Z.eqb_spec status_code 429); [lia|].
    destruct (Z.leb_spec 500 status_code); [|lia].
    unfold InternalServerError.
    destruct (Z.eqb_spec status_code 0); [lia|]. reflexivity.
  - intros H H1 H2 H3 H4 H5. unfold _map_status_to_error. fold m.
    destruct (Z.eqb_spec status_code 401); [lia|].
    destruct (Z.eqb_spec status_code 402); [lia|].
    destruct (Z.eqb_spec status_code 403); [lia|].
    destruct (Z.eqb_spec status_code 404); [lia|].
    destruct (Z.eqb_spec status_code 429); [lia|].
    destruct (Z.leb_spec 500 status_code); [lia|]. reflexivity.
  - intros H. subst m. apply py_or_truthy. assumption.
  - intros H1 H2. subst m. rewrite (py_or_falsy _ _ H1). apply py_or_truthy. assumption.
  - intros H1 H2. subst m. rewrite (py_or_falsy _ _ H1). apply py_or_falsy. assumption.
  - apply mapped_headers.
Qed.

(** A body whose ["error"] value is the empty string: the message is not that
    value but the synthesized text. *)
Lemma empty_error_value_not_the_message :
  dict_lookup [("error"%string, JStr "")] "error" = Some (JStr "") /\
  message (base_of (_map_status_to_error 404 [("error"%string, JStr "")] []))
  = JStr "API error: 404" /\
  message (base_of (_map_status_to_error 404 [("error"%string, JStr "")] []))
  <> JStr "".
Proof. repeat split. discriminate. Qed.

(** The defaults of [tests/test_errors.py]. *)
Example error_defaults :
  status (base_of (InternalServerError (JStr "server error") None None)) = Some 500 /\
  status (base_of (InternalServerError (JStr "bad gateway") (Some 502) None)) = Some 502 /\
  code (base_of (PermissionDeniedError (JStr "denied") JNull JNull None))
  = JStr "FORBIDDEN" /\
  code (base_of (PermissionDeniedError (JStr "denied") (JStr "PLAN_UPGRADE_REQUIRED")
                   JNull None))
  = JStr "PLAN_UPGRADE_REQUIRED" /\
  status (base_of (APIConnectionError (JStr "connection failed") None)) = None.
Proof. repeat split. Qed.

Example mapped_message_present :
  message (base_of (_map_status_to_error 418
                      [("message"%string, JStr "teapot"); ("code"%string, JStr "T")] []))
  = JStr "teapot".
Proof. reflexivity. Qed.

End MapperFacts.


(** ** Rate-limit header parser *)

Section ParserFacts.
Import Errors RateLimitHeaders Transport.

Lemma int_field_raises (v : option string) (e : exn) :
  int_field v = Raise e ->
  e = Builtin ValueError /\ exists text, v = Some text /\ py_int text = None.
Proof.
  unfold int_field. destruct v as [text|]; [|discriminate].
  destruct (py_int text) eqn:E; [discriminate|].
  intros [= <-]. split; [reflexivity|]. exists text. split; reflexivity || assumption.
Qed.

Lemma int_field_absent : int_field None = Return None.
Proof. reflexivity. Qed.

Ltac case_int_field :=
  match goal with
  | |- context [int_field ?v] =>
      let E := fresh "E" in destruct (int_field v) eqn:E
  end.

Lemma parse_absent_iff (h : Headers) :
  parse_rate_limit_headers h = Return None <->
  Headers_get h "x-ratelimit-plan" = None \/
  Headers_get h "x-ratelimit-plan" = Some ""%string.
Proof.
  unfold parse_rate_limit_headers.
  destruct (Headers_get h "x-ratelimit-plan") as [plan|]; [|tauto].
  destruct (String.eqb_spec plan "") as [->|Hne].
  - tauto.
  - split.
    + destruct (String.eqb _ "credits"); repeat case_int_field; discriminate.
    + intros [H|[= H]]; [discriminate|contradiction].
Qed.

Lemma parse_default_billing (h : Headers) (info : RateLimitInfo) :
  parse_rate_limit_headers h = Return (Some info) ->
  Headers_get h "x-billing-type" = None ->
  billing_type info = "subscription"%string.
Proof.
  unfold parse_rate_limit_headers. intros H Hb. rewrite Hb in H.
  destruct (Headers_get h "x-ratelimit-plan") as [plan|]; [|discriminate].
  destruct (String.eqb plan ""); [discriminate|].
  change (String.eqb "subscription" "credits") with false in H. cbv iota in H.
  repeat (match type of H with
          | context [int_field ?v] => destruct (int_field v)
          end); try discriminate.
  injection H as <-. reflexivity.
Qed.

Lemma active_numeric (h : Headers) (name : string) :
  In name (active_numeric_headers h) -> In name numeric_headers.
Proof.
  unfold active_numeric_headers.
  destruct (String.eqb _ "credits"); simpl; tauto.
Qed.

Lemma parse_raises_only_malformed (h : Headers) (e : exn) :
  parse_rate_limit_headers h = Raise e ->
  e = Builtin ValueError /\
  exists name text,
    In name (active_numeric_headers h) /\ Headers_get h name = Some text /\
    py_int text = None.
Proof.
  unfold parse_rate_limit_headers, active_numeric_headers.
  destruct (Headers_get h "x-ratelimit-plan") as [plan|]; [|discriminate].
  destruct (String.eqb plan ""); [discriminate|].
  destruct (String.eqb _ "credits");
    repeat case_int_field; try discriminate;
    intros [= <-];
    match goal with
    | H : int_field (Headers_get h ?name) = Raise _ |- _ =>
        destruct (int_field_raises _ _ H) as [-> (text & Ht & Hp)];
        split; [reflexivity|]; exists name, text;
        split; [simpl; tauto|split; assumption]
    end.
Qed.

Lemma parse_total_without_numeric (h : Headers) :
  (forall name, In name numeric_headers -> Headers_get h name = None) ->
  exists r, parse_rate_limit_headers h = Return r.
Proof.
  intros Hnone.
  destruct (parse_rate_limit_headers h) as [r|e] eqn:E; [eauto|].
  destruct (parse_raises_only_malformed h e E) as (_ & name & text & Hin & Hget & _).
  rewrite (Hnone name (active_numeric h name Hin)) in Hget. discriminate.
Qed.

(** A numeric header of the billing mode that is there and is not an
    integer: the parser raises [ValueError], whatever the other headers. *)
Lemma parse_malformed_raises (h : Headers) (plan name text : string) :
  Headers_get h "x-ratelimit-plan" = Some plan ->
  plan <> ""%string ->
  In name (active_numeric_headers h) ->
  Headers_get h name = Some text ->
  py_int text = None ->
  parse_rate_limit_headers h = Raise (Builtin ValueError).
Proof.
  intros Hplan Hne Hin Hget Hp.
  assert (Hf : int_field (Headers_get h name) = Raise (Builtin ValueError))
    by (rewrite Hget; unfold int_field; rewrite Hp; reflexivity).
  unfold parse_rate_limit_headers. unfold active_numeric_headers in Hin.
  rewrite Hplan. destruct (String.eqb_spec plan ""); [contradiction|].
  destruct (String.eqb _ "credits"); simpl in Hin;
    repeat case_int_field;
    try match goal with
        | H : int_field _ = Raise ?e |- Raise ?e = _ =>
            destruct (int_field_raises _ _ H) as [-> _]; reflexivity
        end;
    repeat (destruct Hin as [<-|Hin]; [congruence|]); contradiction.
Qed.

(** A successful response whose rate-limit headers do not parse: the request
    raises what the parser raised, after the one network call. *)
Lemma request_success_parse_raises (float_of_str : string -> option Q)
    (net : nat -> net_result) (rand : Z -> Q) (c : Client)
    (method path : string) (query : option (list (string * json)))
    (body : option json) (auth : bool) (w : World)
    (response : Response) (data : json) (e : exn) :
  0 <= max_retries c ->
  auth && negb (str_truthy (api_key c)) = false ->
  net (length (calls w)) = Responded response ->
  is_success response = true ->
  json_body response = Some data ->
  parse_rate_limit_headers (resp_headers response) = Raise e ->
  _request float_of_str net rand c method path query body auth w
  = (Raise e,
     mk_world (calls w ++ [mk_call method path query (request_headers c auth) body])
              (sleeps w)).
Proof.
  intros Hr Hauth Hnet Hok Hjson Hparse.
  unfold _request. rewrite Hauth.
  replace (Z.to_nat (max_retries c + 1)) with (S (Z.to_nat (max_retries c))) by lia.
  simpl. rewrite Hnet, Hok, Hjson, Hparse. reflexivity.
Qed.

Lemma request_success_parse_returns (float_of_str : string -> option Q)
    (net : nat -> net_result) (rand : Z -> Q) (c : Client)
    (method path : string) (query : option (list (string * json)))
    (body : option json) (auth : bool) (w : World)
    (response : Response) (data : json) (info : option RateLimitInfo) :
  0 <= max_retries c ->
  auth && negb (str_truthy (api_key c)) = false ->
  net (length (calls w)) = Responded response ->
  is_success response = true ->
  json_body response = Some data ->
  parse_rate_limit_headers (resp_headers response) = Return info ->
  _request float_of_str net rand c method path query body auth w
  = (Return (data, info, response),
     mk_world (calls w ++ [mk_call method path query (request_headers c auth) body])
              (sleeps w)).
Proof.
  intros Hr Hauth Hnet Hok Hjson Hparse.
  unfold _request. rewrite Hauth.
  replace (Z.to_nat (max_retries c + 1)) with (S (Z.to_nat (max_retries c))) by lia.
  simpl. rewrite Hnet, Hok, Hjson, Hparse. reflexivity.
Qed.

(** C2 (as amended). The parser returns no snapshot exactly when the plan
    header is missing or empty; the billing mode is ["subscription"] when the
    billing header is missing; it does not raise when the numeric headers are
    missing.  The numeric headers being texts of ASCII characters, when it
    raises it is a [ValueError] for a numeric header of the billing mode that
    is there and is not an integer; and whenever the plan is given and a
    numeric header of the billing mode is there, is a text of ASCII
    characters and is not an integer, the parser raises [ValueError].  In the
    pipeline, a successful response whose rate-limit headers make the parser
    raise does not complete: the request raises that exception after its one
    network call, without a retry; when the parser returns, the request
    returns the body, the snapshot and the response.  So a successful
    response with a malformed numeric header of its billing mode fails the
    request with [ValueError]. *)
Theorem rate_limit_parser_contract :
  (forall h : Headers,
     parse_rate_limit_headers h = Return None <->
     Headers_get h "x-ratelimit-plan" = None \/
     Headers_get h "x-ratelimit-plan" = Some ""%string) /\
  (forall (h : Headers) (info : RateLimitInfo),
     parse_rate_limit_headers h = Return (Some info) ->
     Headers_get h "x-billing-type" = None ->
     billing_type info = "subscription"%string) /\
  (forall h : Headers,
     (forall name, In name numeric_headers -> Headers_get h name = None) ->
     exists r, parse_rate_limit_headers h = Return r) /\
  (forall (h : Headers) (e : exn),
     ascii_numeric_headers h = true ->
     parse_rate_limit_headers h = Raise e ->
     e = Builtin ValueError /\
     exists name text,
       In name (active_numeric_headers h) /\ Headers_get h name = Some text /\
       py_int text = None) /\
  (forall (h : Headers) (plan name text : string),
     Headers_get h "x-ratelimit-plan" = Some plan ->
     plan <> ""%string ->
     In name (active_numeric_headers h) ->
     Headers_get h name = Some text ->
     is_ascii text = true ->
     py_int text = None ->
     parse_rate_limit_headers h = Raise (Builtin ValueError)) /\
  (forall (float_of_str : string -> option Q) (net : nat -> net_result)
          (rand : Z -> Q) (c : Client) (method path : string)
          (query : option (list (string * json))) (body : option json)
          (auth : bool) (w : World) (response : Response) (data : json),
     0 <= max_retries c ->
     auth && negb (str_truthy (api_key c)) = false ->
     net (length (calls w)) = Responded response ->
     is_success response = true ->
     json_body response = Some data ->
     let after :=
       mk_world (calls w ++ [mk_call method path query (request_headers c auth) body])
                (sleeps w) in
     (ascii_numeric_headers (resp_headers response) = true ->
      match parse_rate_limit_headers (resp_headers response) with
      | Raise e =>
          _request float_of_str net rand c method path query body auth w
          = (Raise e, after)
      | Return info =>
          _request float_of_str net rand c method path query body auth w
          = (Return (data, info, response), after)
      end) /\
     (forall plan name text : string,
        Headers_get (resp_headers response) "x-ratelimit-plan" = Some plan ->
        plan <> ""%string ->
        In name (active_numeric_headers (resp_headers response)) ->
        Headers_get (resp_headers response) name = Some text ->
        is_ascii text = true ->
        py_int text = None ->
        _request float_of_str net rand c method path query body auth w
        = (Raise (Builtin ValueError), after))).
Proof.
  split; [exact parse_absent_iff|].
  split; [exact parse_default_billing|].
  split; [exact parse_total_without_numeric|].
  split; [intros h e _; apply parse_raises_only_malformed|].
  split; [intros h plan name text Hplan Hne Hin Hget _ Hp;
          exact (parse_malformed_raises h plan name text Hplan Hne Hin Hget Hp)|].
  intros float_of_str net rand c method path query body auth w response data
         Hr Hauth Hnet Hok Hjson after.
  split.
  - intros _. destruct (parse_rate_limit_headers (resp_headers response)) eqn:E.
    + eapply request_success_parse_returns; eassumption.
    + eapply request_success_parse_raises; eassumption.
  - intros plan name text Hplan Hne Hin Hget _ Hp.
    eapply request_success_parse_raises; try eassumption.
    exact (parse_malformed_raises _ plan name text Hplan Hne Hin Hget Hp).
Qed.

(** Two inputs.  A plan header that is there with an empty value gives no
    snapshot.  A response with status 200 and a JSON body, whose daily limit
    header is not a number: the request raises [ValueError]. *)
Lemma malformed_header_fails_successful_request :
  (Headers_get [("x-ratelimit-plan", "")]%string "x-ratelimit-plan" = Some ""%string /\
   parse_rate_limit_headers [("x-ratelimit-plan", "")]%string = Return None) /\
  (let response :=
     mk_response 200 (Some (JDict [("data"%string, JList [])]))
       [("x-ratelimit-plan", "pro"); ("x-ratelimit-limit-day", "abc")]%string in
   is_success response = true /\
   fst (_request (fun _ => None) (fun _ => Responded response) (fun _ => 0%Q)
          (BaseSyncClient (Some "pk_test_123"%string) None
             "https://api.propheseer.com" "30.0" None)
          "GET" "/v1/markets" None None true (mk_world [] []))
   = Raise (Builtin ValueError)).
Proof. vm_compute. repeat split. Qed.

Example parse_subscription_headers :
  parse_rate_limit_headers
    [("x-ratelimit-plan", "pro"); ("x-ratelimit-limit-day", "10_000");
     ("x-ratelimit-remaining-day", " 9990 ")]%string
  = Return (Some (mk_info "pro" "subscription" (Some 10000) (Some 9990)
                    None None None None None None)).
Proof. reflexivity. Qed.

Example parse_credit_headers :
  parse_rate_limit_headers
    [("x-ratelimit-plan", "payg"); ("x-billing-type", "credits");
     ("x-credit-balance-cents", "1250"); ("x-credit-balance", "$12.50");
     ("x-ratelimit-limit-day", "abc")]%string
  = Return (Some (mk_info "payg" "credits" None None None None
                    (Some 1250) (Some "$12.50"%string) None None)).
Proof. reflexivity. Qed.

End ParserFacts.

(** ** Auto-pagination driver *)

Section DriverFacts.
Import Pagination.

Variable T : Type.
Variable list_op : Z -> Z -> SyncPage T.

Lemma yielded_items_app (a b : list (event T)) :
  yielded_items (a ++ b) = yielded_items a ++ yielded_items b.
Proof. unfold Pagination.yielded_items. apply flat_map_app. Qed.

Lemma requests_app (a b : list (event T)) :
  requests (a ++ b) = requests a ++ requests b.
Proof. unfold Pagination.requests. apply flat_map_app. Qed.

Lemma yielded_items_yield (x : T) (tr : list (event T)) :
  yielded_items (Yield x :: tr) = x :: yielded_items tr.
Proof. reflexivity. Qed.

Lemma yielded_items_request (pl o : Z) (tr : list (event T)) :
  yielded_items (Request pl o :: tr) = yielded_items tr.
Proof. reflexivity. Qed.

Lemma requests_yield (x : T) (tr : list (event T)) :
  requests (Yield x :: tr) = requests tr.
Proof. reflexivity. Qed.

Lemma requests_request (pl o : Z) (tr : list (event T)) :
  requests (Request pl o :: tr) = o :: requests tr.
Proof. reflexivity. Qed.

(** The loop over one page: what is yielded is a prefix of the page, in
    order; the count grows by the number of items yielded; the loop stops
    early exactly when the cap is reached at its last item. *)
Lemma yield_items_spec (max_items : option Z) (items : list T) (y : Z) :
  let '(evs, y', stop) := yield_items max_items items y in
  requests evs = [] /\
  y' = y + Z.of_nat (length (yielded_items evs)) /\
  (if stop
   then yielded_items evs `prefix_of` items /\ evs <> [] /\
        cap_reached max_items y' = true
   else yielded_items evs = items).
Proof.
  revert y. induction items as [|x items IH]; intros y.
  - cbn. repeat split. lia.
  - cbn [yield_items]. destruct (cap_reached max_items (y + 1)) eqn:Hc.
    + rewrite yielded_items_yield, requests_yield. cbn.
      repeat split; try lia; try assumption; try discriminate.
      exists items. reflexivity.
    + specialize (IH (y + 1)).
      destruct (yield_items max_items items (y + 1)) as [[evs y'] stop].
      destruct IH as (Hr & Hy & Hs).
      rewrite yielded_items_yield, requests_yield. repeat split.
      * assumption.
      * rewrite Hy. cbn [length]. lia.
      * destruct stop.
        -- destruct Hs as (Hp & Hn & Hcap). repeat split; try assumption; try discriminate.
           apply prefix_cons. exact Hp.
        -- f_equal. exact Hs.
Qed.

Lemma yield_items_no_cap (max_items : option Z) (items : list T) (y : Z) :
  (forall y', cap_reached max_items y' = false) ->
  yield_items max_items items y
  = (map Yield items, y + Z.of_nat (length items), false).
Proof.
  intros Hc. revert y. induction items as [|x items IH]; intros y.
  - cbn. f_equal. f_equal. lia.
  - cbn [yield_items map length]. rewrite Hc, IH. f_equal. f_equal. lia.
Qed.

Lemma cap_reached_false_stop (max_items : option Z) (items : list T) (y : Z) :
  (forall y', cap_reached max_items y' = false) ->
  snd (yield_items max_items items y) = false.
Proof. intros H. rewrite yield_items_no_cap by exact H. reflexivity. Qed.

(** One turn of the loop.  The branch of [paginate] for a missing next offset
    is not taken. *)
Lemma paginate_step (fuel : nat) (pl : Z) (max_items : option Z) (off y : Z) :
  paginate list_op (S fuel) pl max_items off y
  = let page := list_op pl off in
    let '(evs, y', stop) := yield_items max_items (data page) y in
    if stop || last_page page then (Request pl off :: evs, Finished)
    else
      let (more, out) :=
        paginate list_op fuel pl max_items
          (offset (meta page) + limit (meta page)) y' in
      (Request pl off :: evs ++ more, out).
Proof.
  cbn [paginate]. cbv zeta.
  destruct (yield_items max_items (data (list_op pl off)) y) as [[evs y'] stop].
  destruct stop; [reflexivity|]. cbn [orb]. unfold last_page.
  destruct (has_more (list_op pl off)) eqn:Hm.
  - cbn [negb orb]. destruct (length (data (list_op pl off)) =? 0)%nat; [reflexivity|].
    rewrite (next_offset_has_more _ _ Hm). reflexivity.
  - reflexivity.
Qed.

Lemma paginate_flatten (fuel : nat) (pl : Z) (max_items : option Z) (off y : Z) :
  exists k,
    (k <= fuel)%nat /\
    requests (fst (paginate list_op fuel pl max_items off y))
    = visited_offsets list_op k pl off /\
    yielded_items (fst (paginate list_op fuel pl max_items off y))
      `prefix_of` concat (map data (visited list_op k pl off)) /\
    ((forall y', cap_reached max_items y' = false) ->
     snd (paginate list_op fuel pl max_items off y) = Finished ->
     yielded_items (fst (paginate list_op fuel pl max_items off y))
     = concat (map data (visited list_op k pl off)) /\
     exists page, last (visited list_op k pl off) = Some page /\
                  last_page page = true).
Proof.
  revert off y. induction fuel as [|fuel IH]; intros off y.
  - exists 0%nat. cbn. split; [lia|]. split; [reflexivity|]. split; [reflexivity|].
    intros _ [=].
  - rewrite paginate_step. cbv zeta.
    pose proof (yield_items_spec max_items (data (list_op pl off)) y) as Hs.
    destruct (yield_items max_items (data (list_op pl off)) y) as [[evs y'] stop] eqn:Ey.
    destruct Hs as (Hr & Hy & Hs).
    destruct (stop || last_page (list_op pl off)) eqn:Hstop.
    + exists 1%nat. cbn [fst snd visited visited_offsets map concat].
      rewrite requests_request, yielded_items_request, Hr, app_nil_r.
      split; [lia|]. split; [reflexivity|]. split.
      * destruct stop; [apply Hs|]. rewrite Hs. reflexivity.
      * intros Hc _. destruct stop.
        -- destruct Hs as (_ & _ & Hcap). rewrite Hc in Hcap. discriminate.
        -- split; [exact Hs|]. exists (list_op pl off). split; [reflexivity|].
           exact Hstop.
    + apply orb_false_iff in Hstop as [-> Hlast].
      specialize (IH (offset (meta (list_op pl off)) + limit (meta (list_op pl off))) y').
      destruct (paginate list_op fuel pl max_items _ y') as [more out].
      destruct IH as (k & Hk & Hreq & Hpre & Hex).
      exists (S k). cbn [fst snd] in *. cbn [visited visited_offsets map concat].
      rewrite requests_request, yielded_items_request, requests_app,
        yielded_items_app, Hr, Hs, Hreq.
      split; [lia|]. split; [reflexivity|]. split.
      * apply prefix_app. exact Hpre.
      * intros Hc Hout. destruct (Hex Hc Hout) as (He & page & Hl & Hp).
        split; [f_equal; exact He|]. exists page. split; [|exact Hp].
        destruct k as [|k]; [discriminate Hl|].
        cbn [visited] in Hl |- *. rewrite last_cons, Hl. reflexivity.
Qed.

Lemma visited_length (k : nat) (pl off : Z) :
  length (visited list_op k pl off) = k.
Proof. revert off. induction k; intros off; cbn; [reflexivity|]. rewrite IHk. reflexivity. Qed.

Lemma visited_offsets_length (k : nat) (pl off : Z) :
  length (visited_offsets list_op k pl off) = k.
Proof. revert off. induction k; intros off; cbn; [reflexivity|]. rewrite IHk. reflexivity. Qed.

(** The driver returns at the first page that reports no more pages or has
    no items, if not before. *)
Lemma paginate_terminates (n fuel : nat) (pl : Z) (max_items : option Z)
    (off y : Z) (page : SyncPage T) :
  (n < fuel)%nat ->
  visited list_op (S n) pl off !! n = Some page ->
  last_page page = true ->
  snd (paginate list_op fuel pl max_items off y) = Finished /\
  (length (requests (fst (paginate list_op fuel pl max_items off y))) <= S n)%nat.
Proof.
  revert fuel off y. induction n as [|n IH]; intros fuel off y Hlt Hnth Hlast;
    (destruct fuel as [|fuel]; [lia|]); rewrite paginate_step; cbv zeta;
    pose proof (yield_items_spec max_items (data (list_op pl off)) y) as Hs;
    destruct (yield_items max_items (data (list_op pl off)) y) as [[evs y'] stop];
    destruct Hs as (Hr & _ & _).
  - cbn in Hnth. injection Hnth as <-. rewrite Hlast, orb_true_r.
    cbn [fst snd]. rewrite requests_request, Hr. cbn. split; [reflexivity|lia].
  - destruct (stop || last_page (list_op pl off)).
    + cbn [fst snd]. rewrite requests_request, Hr. cbn. split; [reflexivity|lia].
    + change (visited list_op (S (S n)) pl off !! S n)
        with (visited list_op (S n) pl
                (offset (meta (list_op pl off)) + limit (meta (list_op pl off))) !! n)
        in Hnth.
      specialize (IH fuel _ y' ltac:(lia) Hnth Hlast).
      destruct (paginate list_op fuel pl max_items _ y') as [more out].
      cbn [fst snd] in *. destruct IH as [-> Hlen].
      rewrite requests_request, requests_app, Hr. cbn. split; [reflexivity|lia].
Qed.

(** With a positive cap [m] and fewer than [m] items yielded so far, the loop
    over a page stops at [m] exactly. *)
Lemma yield_items_cap (m : Z) (items : list T) (y : Z) :
  0 < m -> y < m ->
  let '(evs, y', stop) := yield_items (Some m) items y in
  y' <= m /\ (if stop then y' = m else y' < m).
Proof.
  intros Hm. revert y. induction items as [|x items IH]; intros y Hy.
  - cbn. lia.
  - cbn [yield_items cap_reached].
    destruct (Z.eqb_spec m 0); [lia|]. cbn [negb andb].
    destruct (Z.leb_spec m (y + 1)).
    + lia.
    + specialize (IH (y + 1) ltac:(lia)).
      destruct (yield_items (Some m) items (y + 1)) as [[evs y'] stop]. exact IH.
Qed.

Lemma requests_below_cap_app (m y : Z) (a b : list (event T)) :
  requests_below_cap m y (a ++ b)
  = requests_below_cap m y a
    && requests_below_cap m (y + Z.of_nat (length (yielded_items a))) b.
Proof.
  revert y. induction a as [|[pl o|x] a IH]; intros y.
  - cbn. f_equal. lia.
  - cbn [app requests_below_cap]. rewrite IH, yielded_items_request.
    apply andb_assoc.
  - cbn [app requests_below_cap]. rewrite IH, yielded_items_yield. cbn [length].
    do 2 f_equal. lia.
Qed.

Lemma requests_below_cap_yields (m y : Z) (evs : list (event T)) :
  requests evs = [] -> requests_below_cap m y evs = true.
Proof.
  revert y. induction evs as [|[pl o|x] evs IH]; intros y H.
  - reflexivity.
  - discriminate.
  - cbn. apply IH. exact H.
Qed.

Lemma paginate_below_cap (fuel : nat) (pl m off y : Z) :
  0 < m -> y < m ->
  requests_below_cap m y (fst (paginate list_op fuel pl (Some m) off y)) = true /\
  y + Z.of_nat (length (yielded_items (fst (paginate list_op fuel pl (Some m) off y))))
  <= m.
Proof.
  intros Hm. revert off y. induction fuel as [|fuel IH]; intros off y Hy.
  - cbn. lia.
  - rewrite paginate_step. cbv zeta.
    pose proof (yield_items_spec (Some m) (data (list_op pl off)) y) as Hs.
    pose proof (yield_items_cap m (data (list_op pl off)) y Hm Hy) as Hc.
    destruct (yield_items (Some m) (data (list_op pl off)) y) as [[evs y'] stop].
    destruct Hs as (Hr & Hy' & _). destruct Hc as (Hle & Hstop).
    assert (Hlt : (y <? m) = true) by (apply Z.ltb_lt; exact Hy).
    destruct (stop || last_page (list_op pl off)) eqn:E.
    + cbn [fst requests_below_cap]. rewrite Hlt, yielded_items_request.
      rewrite requests_below_cap_yields by exact Hr. split; [reflexivity|lia].
    + apply orb_false_iff in E as [-> _].
      specialize (IH (offset (meta (list_op pl off)) + limit (meta (list_op pl off)))
                     y' Hstop).
      destruct (paginate list_op fuel pl (Some m) _ y') as [more out].
      cbn [fst] in *. destruct IH as (Hb & Hn).
      cbn [requests_below_cap]. rewrite Hlt, requests_below_cap_app.
      rewrite requests_below_cap_yields by exact Hr.
      rewrite yielded_items_request, yielded_items_app, length_app.
      rewrite <- Hy'. split; [exact Hb|lia].
Qed.

(** What [requests_below_cap] says of a request inside a trace. *)
Lemma requests_below_cap_split (m y : Z) (tr tr1 tr2 : list (event T)) (pl o : Z) :
  requests_below_cap m y tr = true ->
  tr = tr1 ++ Request pl o :: tr2 ->
  y + Z.of_nat (length (yielded_items tr1)) < m.
Proof.
  intros H ->. rewrite requests_below_cap_app in H.
  apply andb_true_iff in H as [_ H]. cbn in H.
  apply andb_true_iff in H as [H _]. apply Z.ltb_lt in H. exact H.
Qed.

(** A cap of 0 is no cap. *)
Lemma cap_zero_never_reached (y : Z) : cap_reached (Some 0) y = false.
Proof. reflexivity. Qed.

Lemma yield_items_cap_zero (items : list T) (y : Z) :
  yield_items (Some 0) items y = yield_items None items y.
Proof.
  rewrite !yield_items_no_cap; [reflexivity| |]; intros; reflexivity.
Qed.

Lemma paginate_cap_zero (fuel : nat) (pl off y : Z) :
  paginate list_op fuel pl (Some 0) off y = paginate list_op fuel pl None off y.
Proof.
  revert off y. induction fuel as [|fuel IH]; intros off y; [reflexivity|].
  rewrite !paginate_step. cbv zeta. rewrite yield_items_cap_zero.
  destruct (yield_items None (data (list_op pl off)) y) as [[evs y'] stop].
  rewrite IH. reflexivity.
Qed.

(** A negative cap is reached by the first item. *)
Lemma paginate_negative_cap (fuel : nat) (pl m off y : Z) :
  m < 0 -> 0 <= y ->
  (length (yielded_items (fst (paginate list_op fuel pl (Some m) off y))) <= 1)%nat /\
  (length (requests (fst (paginate list_op fuel pl (Some m) off y))) <= 1)%nat.
Proof.
  intros Hm Hy. destruct fuel as [|fuel]; [cbn; lia|].
  rewrite paginate_step. cbv zeta.
  destruct (data (list_op pl off)) as [|x items] eqn:Ed.
  - cbn [yield_items]. unfold last_page. rewrite Ed. cbn [length Nat.eqb].
    rewrite orb_true_r. cbn. lia.
  - cbn [yield_items cap_reached].
    destruct (Z.eqb_spec m 0); [lia|]. destruct (Z.leb_spec m (y + 1)); [|lia].
    cbn. lia.
Qed.

End DriverFacts.

(** C5. Whatever pages the list operation returns: the requests start at
    offset 0 and follow the offsets the pages give, and the items yielded are
    the items of those pages in order, flattened (all of them once the
    driver has returned without a cap, the last page being one that reports
    no more pages or has no items); the driver returns at the latest with the
    first page that reports no more pages or has no items; with a positive
    cap [m] at most [m] items are yielded and every request is made while
    fewer than [m] items have been yielded.  Two pages of one item with
    [total = 2] give the two items in order in two requests; a cap of 1 on a
    page of two items gives one item in one request. *)
Theorem auto_pagination_contract (T : Type)
    (list_op : Z -> Z -> Pagination.SyncPage T)
    (fuel : nat) (limit max_items : option Z) :
  let run := Pagination.list_auto_paginate list_op fuel limit max_items in
  let size := Pagination.page_size limit in
  (exists k,
     (k <= fuel)%nat /\
     Pagination.requests (fst run) = Pagination.visited_offsets list_op k size 0 /\
     Pagination.yielded_items (fst run)
       `prefix_of` concat (map Pagination.data (Pagination.visited list_op k size 0)) /\
     (max_items = None -> snd run = Pagination.Finished ->
      Pagination.yielded_items (fst run)
      = concat (map Pagination.data (Pagination.visited list_op k size 0)) /\
      exists page, last (Pagination.visited list_op k size 0) = Some page /\
                   Pagination.last_page page = true)) /\
  (forall n page,
     (n < fuel)%nat ->
     Pagination.visited list_op (S n) size 0 !! n = Some page ->
     Pagination.last_page page = true ->
     snd run = Pagination.Finished /\
     (length (Pagination.requests (fst run)) <= S n)%nat) /\
  (forall m,
     max_items = Some m -> 0 < m ->
     Z.of_nat (length (Pagination.yielded_items (fst run))) <= m /\
     forall tr1 pl o tr2,
       fst run = tr1 ++ Pagination.Request pl o :: tr2 ->
       Z.of_nat (length (Pagination.yielded_items tr1)) < m) /\
  Pagination.list_auto_paginate Pagination.two_pages 3 (Some 1) None
  = ([Pagination.Request 1 0; Pagination.Yield "pm_123"%string;
      Pagination.Request 1 1; Pagination.Yield "pm_456"%string],
     Pagination.Finished) /\
  Pagination.list_auto_paginate Pagination.one_page_of_two 3 (Some 2) (Some 1)
  = ([Pagination.Request 2 0; Pagination.Yield "pm_123"%string],
     Pagination.Finished).
Proof.
  intros run size. subst run. unfold Pagination.list_auto_paginate. fold size.
  split; [|split; [|split; [|split; reflexivity]]].
  - destruct (paginate_flatten T list_op fuel size max_items 0 0)
      as (k & Hk & Hreq & Hpre & Hex).
    exists k. split; [exact Hk|]. split; [exact Hreq|]. split; [exact Hpre|].
    intros -> Hf. apply Hex; [reflexivity|exact Hf].
  - intros n page. apply paginate_terminates.
  - intros m -> Hm.
    destruct (paginate_below_cap T list_op fuel size m 0 0 Hm Hm) as (Hb & Hn).
    split; [lia|]. intros tr1 pl o tr2 Hsplit.
    pose proof (requests_below_cap_split T m 0 _ _ _ _ _ Hb Hsplit). lia.
Qed.

(** C10 (as amended). A cap of 0 is ignored: the driver behaves as with no
    cap, and once it has returned it has yielded every item of the pages it
    visited.  A strictly positive cap [m] limits the items yielded to [m]; a
    negative cap stops the driver after the first item. *)
Theorem zero_cap_is_no_cap (T : Type)
    (list_op : Z -> Z -> Pagination.SyncPage T)
    (fuel : nat) (limit : option Z) :
  let run := Pagination.list_auto_paginate list_op fuel limit in
  run (Some 0) = run None /\
  (snd (run (Some 0)) = Pagination.Finished ->
   exists k,
     Pagination.yielded_items (fst (run (Some 0)))
     = concat (map Pagination.data
                 (Pagination.visited list_op k (Pagination.page_size limit) 0))) /\
  (forall m, 0 < m ->
     Z.of_nat (length (Pagination.yielded_items (fst (run (Some m))))) <= m) /\
  (forall m, m < 0 ->
     (length (Pagination.yielded_items (fst (run (Some m)))) <= 1)%nat).
Proof.
  intros run. subst run. unfold Pagination.list_auto_paginate.
  split; [apply paginate_cap_zero|]. split; [|split].
  - rewrite paginate_cap_zero. intros Hf.
    destruct (paginate_flatten T list_op fuel (Pagination.page_size limit) None 0 0)
      as (k & _ & _ & _ & Hex).
    exists k. apply Hex; [reflexivity|exact Hf].
  - intros m Hm.
    destruct (paginate_below_cap T list_op fuel (Pagination.page_size limit) m 0 0 Hm Hm)
      as (_ & Hn). lia.
  - intros m Hm. apply paginate_negative_cap; lia.
Qed.

(** A cap of -1 on the two pages of one item: one item is yielded, where no
    cap gives two. *)
Lemma negative_cap_limits :
  Pagination.yielded_items
    (fst (Pagination.list_auto_paginate Pagination.two_pages 3 (Some 1) (Some (-1))))
  = ["pm_123"%string] /\
  Pagination.yielded_items
    (fst (Pagination.list_auto_paginate Pagination.two_pages 3 (Some 1) None))
  = ["pm_123"; "pm_456"]%string.
Proof. split; reflexivity. Qed.

Example zero_cap_on_two_pages :
  Pagination.list_auto_paginate Pagination.two_pages 3 (Some 1) (Some 0)
  = ([Pagination.Request 1 0; Pagination.Yield "pm_123"%string;
      Pagination.Request 1 1; Pagination.Yield "pm_456"%string],
     Pagination.Finished).
Proof. reflexivity. Qed.

(** ** Realtime client: dispatch of inbound messages *)

Section DispatchFacts.
Import WebSocket.

Variable App : Type.

Implicit Types (st : state App) (cbs : list (listener App)).

Lemma call_listeners_fold (event : string) (args : list arg) cbs
    (a : App) (l : list string) :
  fold_left (call_listener App event args) cbs (a, l)
  = (run_all args cbs a, l ++ replicate (raising args cbs a) event).
Proof.
  revert a l. induction cbs as [|cb cbs IH]; intros a l.
  - cbn. rewrite app_nil_r. reflexivity.
  - cbn [fold_left raising]. unfold call_listener at 2. cbn [fst snd].
    destruct (cb args a) as [a' [|text]] eqn:E; rewrite IH; cbn [fst snd].
    + unfold run_all. cbn [fold_left]. rewrite E. reflexivity.
    + unfold run_all. cbn [fold_left]. rewrite E. cbn [fst].
      rewrite <- app_assoc. reflexivity.
Qed.

(** [_emit] calls every listener of the event, in order of registration, each
    on the state the one before left, whether or not it raised; each raise
    adds one entry to the log; nothing else of the client changes. *)
Lemma emit_spec (event : string) (args : list arg) st :
  _emit event args st
  = mk_state (_listeners st) (_reconnect_enabled st) (_max_reconnect_attempts st)
      (_ws st) (_closed st) (_reconnect_attempts st) (_subscribed_markets st)
      (run_all args (default [] (_listeners st !! event)) (app st))
      (logged st
       ++ replicate (raising args (default [] (_listeners st !! event)) (app st)) event)
      (emitted st ++ [(event, args)]) (slept st) (sent st).
Proof.
  unfold _emit. rewrite call_listeners_fold. reflexivity.
Qed.

Lemma known_type_spec (v : json) (event : string) :
  known_type v = Some event <-> v = JStr event /\ In event known_types.
Proof.
  unfold known_type. destruct v; try (split; [discriminate|intros [[=] _]]).
  destruct (existsb (String.eqb s) known_types) eqn:E.
  - apply existsb_exists in E as (x & Hin & Hx). apply String.eqb_eq in Hx. subst x.
    split; [intros [= <-]; split; [reflexivity|exact Hin]|intros [[= <-] _]; reflexivity].
  - split; [discriminate|]. intros [[= <-] Hin].
    assert (existsb (String.eqb s) known_types = true).
    { apply existsb_exists. exists s. split; [exact Hin|apply String.eqb_refl]. }
    congruence.
Qed.

Lemma known_type_none (v : json) :
  (forall event, In event known_types -> v <> JStr event) -> known_type v = None.
Proof.
  intros H. destruct (known_type v) as [event|] eqn:E; [|reflexivity].
  apply known_type_spec in E as [-> Hin]. destruct (H event Hin). reflexivity.
Qed.

Lemma handle_unknown (d : list (string * json)) st :
  (forall event, In event known_types ->
     default (JStr "") (dict_lookup d "type") <> JStr event) ->
  _handle_message (JDict d) st = (st, Returns).
Proof.
  intros H. unfold _handle_message. rewrite (known_type_none _ H). reflexivity.
Qed.

Lemma handle_known (d : list (string * json)) (event : string) st :
  In event known_types ->
  dict_lookup d "type" = Some (JStr event) ->
  _handle_message (JDict d) st = (_emit event [Message (JDict d)] st, Returns).
Proof.
  intros Hin Hd. unfold _handle_message. rewrite Hd.
  change (default (JStr "") (Some (JStr event))) with (JStr event).
  rewrite (proj2 (known_type_spec (JStr event) event) (conj eq_refl Hin)).
  reflexivity.
Qed.

Lemma handle_object_returns (d : list (string * json)) st :
  snd (_handle_message (JDict d) st) = Returns /\
  _closed (fst (_handle_message (JDict d) st)) = _closed st.
Proof.
  unfold _handle_message.
  destruct (known_type _); cbn [fst snd]; [rewrite emit_spec|]; split; reflexivity.
Qed.

Lemma receive_loop_object (d : list (string * json)) (rest : list inbound) st :
  _closed st = false ->
  receive_loop (Received (JDict d) :: rest) st
  = receive_loop rest (fst (_handle_message (JDict d) st)).
Proof.
  intros Hc. cbn [receive_loop]. rewrite Hc.
  pose proof (handle_object_returns d st) as [Hr _].
  destruct (_handle_message (JDict d) st) as [st' r]. cbn [fst snd] in *.
  subst r. reflexivity.
Qed.

Lemma receive_loop_goes_on (input : list inbound) st :
  _closed st = false ->
  forallb harmless input = true ->
  snd (receive_loop input st) = Waiting /\
  _closed (fst (receive_loop input st)) = false.
Proof.
  revert st. induction input as [|x input IH]; intros st Hc Hin.
  - cbn. rewrite Hc. split; [reflexivity|exact Hc].
  - cbn [forallb] in Hin. apply andb_true_iff in Hin as [Hx Hin].
    destruct x as [|[]|]; try discriminate Hx.
    + cbn [receive_loop]. rewrite Hc. apply IH; assumption.
    + rewrite receive_loop_object by exact Hc. apply IH; [|exact Hin].
      rewrite (proj2 (handle_object_returns items st)). exact Hc.
Qed.

Lemma run_all_app (args : list arg) cbs1 cbs2 (a : App) :
  run_all args (cbs1 ++ cbs2) a = run_all args cbs2 (run_all args cbs1 a).
Proof. unfold run_all. apply fold_left_app. Qed.

End DispatchFacts.

(** C9 (as amended). A message that is an object and whose [type] is none of
    the six known names leaves the client as it is and the handling returns.
    An emission calls every listener registered for the event, in order,
    each on the application state the one before left, whether that one
    returned or raised an [Exception]; a raise is logged and changes nothing
    else; the emission and the handling of an object return in every case,
    and the receive loop goes on with the next frame: over frames that are
    objects, and timeouts, it never exits.  A frame that is not an object is
    not dropped: its handling raises [AttributeError], the loop emits
    [error] and exits, and the frames after it are not read. *)
Theorem receive_path_isolation (App : Type) (st : WebSocket.state App) :
  (forall d,
     (forall event, In event WebSocket.known_types ->
        default (JStr "") (dict_lookup d "type") <> JStr event) ->
     WebSocket._handle_message (JDict d) st = (st, WebSocket.Returns)) /\
  (forall event args,
     let cbs := default [] (WebSocket._listeners st !! event) in
     let st' := WebSocket._emit event args st in
     WebSocket.app st' = WebSocket.run_all args cbs (WebSocket.app st) /\
     (forall cbs1 cb cbs2, cbs = cbs1 ++ cb :: cbs2 ->
        WebSocket.app st'
        = WebSocket.run_all args cbs2
            (fst (cb args (WebSocket.run_all args cbs1 (WebSocket.app st))))) /\
     WebSocket.logged st'
     = WebSocket.logged st
       ++ replicate (WebSocket.raising args cbs (WebSocket.app st)) event /\
     WebSocket._closed st' = WebSocket._closed st /\
     WebSocket._ws st' = WebSocket._ws st /\
     WebSocket._listeners st' = WebSocket._listeners st /\
     WebSocket._subscribed_markets st' = WebSocket._subscribed_markets st /\
     WebSocket._reconnect_attempts st' = WebSocket._reconnect_attempts st) /\
  (forall d, snd (WebSocket._handle_message (JDict d) st) = WebSocket.Returns) /\
  (forall d rest,
     WebSocket._closed st = false ->
     WebSocket.receive_loop (WebSocket.Received (JDict d) :: rest) st
     = WebSocket.receive_loop rest (fst (WebSocket._handle_message (JDict d) st))) /\
  (forall input,
     WebSocket._closed st = false ->
     forallb WebSocket.harmless input = true ->
     snd (WebSocket.receive_loop input st) = WebSocket.Waiting) /\
  (forall message rest,
     Types.is_object message = false ->
     WebSocket._handle_message message st = (st, WebSocket.Raises "AttributeError") /\
     (WebSocket._closed st = false ->
      WebSocket.receive_loop (WebSocket.Received message :: rest) st
      = (WebSocket._emit "error" [WebSocket.Failure "AttributeError"] st,
         WebSocket.Exited))).
Proof.
  split; [intros d; apply handle_unknown|].
  split.
  { intros event args cbs st'. subst st'. rewrite emit_spec. cbn.
    split; [reflexivity|]. split; [|repeat split].
    intros cbs1 cb cbs2 Hc. fold cbs. rewrite Hc.
    rewrite run_all_app. reflexivity. }
  split; [intros d; apply handle_object_returns|].
  split; [intros d rest; apply receive_loop_object|].
  split; [intros input Hc Hin; apply receive_loop_goes_on; assumption|].
  intros message rest Hobj.
  assert (Hh : WebSocket._handle_message message st
               = (st, WebSocket.Raises "AttributeError"))
    by (destruct message; try reflexivity; discriminate Hobj).
  split; [exact Hh|].
  intros Hc. cbn [WebSocket.receive_loop]. rewrite Hc, Hh, Hc. reflexivity.
Qed.

(** A frame that is an empty JSON array, followed by a [market_update]: the
    first is not dropped, the receive loop emits [error] and exits, and the
    update is never handled: no listener of [market_update] runs. *)
Lemma non_object_frame_ends_receive_loop :
  let out :=
    WebSocket.receive_loop
      [WebSocket.Received (JList []);
       WebSocket.Received (JDict [("type"%string, JStr "market_update")])]
      WebSocket.demo_client in
  WebSocket.known_type (JList []) = None /\
  snd out = WebSocket.Exited /\
  WebSocket.emitted (fst out)
  = [("error"%string, [WebSocket.Failure "AttributeError"])] /\
  WebSocket.app (fst out) = WebSocket.app WebSocket.demo_client /\
  WebSocket.logged (fst out) = [].
Proof. vm_compute. repeat split. Qed.

(** The listener that raises does not keep the second listener from
    counting; the frame of an unknown type in between is dropped. *)
Example failing_listener_isolated :
  let out :=
    WebSocket.receive_loop
      [WebSocket.Received (JDict [("type"%string, JStr "market_update")]);
       WebSocket.Received (JDict [("type"%string, JStr "market_removed")]);
       WebSocket.Received (JDict [("type"%string, JStr "market_update")])]
      WebSocket.demo_client in
  WebSocket.app (fst out) = 2 /\
  WebSocket.logged (fst out) = ["market_update"; "market_update"]%string /\
  map fst (WebSocket.emitted (fst out)) = ["market_update"; "market_update"]%string /\
  snd out = WebSocket.Waiting.
Proof. vm_compute. repeat split. Qed.

(** ** Realtime client: reconnection *)

Section ReconnectFacts.
Import WebSocket.

Variable App : Type.
Variable during_wait : Z -> list user_call.
Variable connection : Z -> connect_result.

Implicit Types (st : state App).

Lemma reconnect_delay_spec (n : Z) :
  (reconnect_delay n == Qmin (Qpower 2 (n - 1)) 30)%Q.
Proof.
  unfold reconnect_delay. apply Q.min_compat; [ring|reflexivity].
Qed.

Lemma reconnect_delay_table :
  (reconnect_delay 1 == 1)%Q /\ (reconnect_delay 2 == 2)%Q /\
  (reconnect_delay 3 == 4)%Q /\ (reconnect_delay 4 == 8)%Q /\
  (reconnect_delay 5 == 16)%Q /\ (reconnect_delay 6 == 30)%Q.
Proof. repeat split; reflexivity. Qed.

(** The calls of the application on a client that has no open connection:
    the frames are dropped, the subscription set follows the calls, a close
    is recorded. *)
Lemma user_calls_disconnected (calls : list user_call) st :
  _ws st <> Socket true ->
  fold_left (fun s c => user c s) calls st
  = mk_state (_listeners st) (_reconnect_enabled st) (_max_reconnect_attempts st)
      (if existsb is_close calls then NoSocket else _ws st)
      (_closed st || existsb is_close calls)
      (_reconnect_attempts st)
      (apply_calls calls (_subscribed_markets st))
      (app st) (logged st) (emitted st) (slept st) (sent st).
Proof.
  revert st. induction calls as [|c calls IH]; intros st Hws.
  - destruct st. cbn. rewrite orb_false_r. reflexivity.
  - cbn [fold_left]. rewrite IH.
    + destruct st as [ls en mx ws cl at_ mk ap lg em sl se]. cbn in Hws.
      destruct c; cbn; unfold _send; cbn.
      * destruct ws as [|[]]; try contradiction; cbn; reflexivity.
      * destruct ws as [|[]]; try contradiction; cbn; reflexivity.
      * rewrite orb_true_r. destruct (existsb is_close calls); reflexivity.
    + destruct st as [ls en mx ws cl at_ mk ap lg em sl se]. cbn in Hws.
      destruct c; cbn; unfold _send; cbn;
        destruct ws as [|[]]; try contradiction; cbn; discriminate.
Qed.

Lemma replay_disconnected st : _ws st <> Socket true -> replay st = st.
Proof.
  intros Hws. unfold replay. destruct (decide (_subscribed_markets st = ∅)); [reflexivity|].
  unfold subscribe, _send.
  destruct st as [ls en mx ws cl at_ mk ap lg em sl se]. cbn in *.
  destruct ws as [|[]]; try contradiction; cbn;
    rewrite list_to_set_elements_L, union_idemp_L; reflexivity.
Qed.

(** The attempt numbers for which the delay is computed, and the maxima of
    which the final error can be written. *)
Lemma delay_computed (n : Z) : 1 <= n <= 1024 -> delay_overflows n = false.
Proof.
  intros H. unfold delay_overflows.
  destruct (Z.ltb_spec n 1); [lia|]. apply Z.leb_gt. lia.
Qed.

Lemma delay_not_computed (n : Z) : 1025 <= n -> delay_overflows n = true.
Proof.
  intros H. unfold delay_overflows.
  destruct (Z.ltb_spec n 1); [lia|]. apply Z.leb_le. lia.
Qed.

Lemma str_written_table :
  forallb (fun k => negb (Errors.str_refused (Z.of_nat k))) (seq 0 1025) = true.
Proof. vm_compute. reflexivity. Qed.

Lemma str_written (n : Z) : 0 <= n <= 1024 -> Errors.str_refused n = false.
Proof.
  intros H. pose proof str_written_table as T.
  rewrite forallb_forall in T. specialize (T (Z.to_nat n)).
  rewrite Z2Nat.id in T by lia. apply negb_true_iff, T, in_seq. lia.
Qed.

Lemma attempt_exhausted (fuel : nat) st :
  _max_reconnect_attempts st <= _reconnect_attempts st ->
  Errors.str_refused (_max_reconnect_attempts st) = false ->
  _attempt_reconnect during_wait connection (S fuel) st
  = _emit "error"
      [Failure ("Failed to reconnect after "
                ++ Errors.str_of_int (_max_reconnect_attempts st) ++ " attempts")] st.
Proof.
  intros H Hstr. cbn [_attempt_reconnect]. rewrite Hstr.
  destruct (Z.leb_spec (_max_reconnect_attempts st) (_reconnect_attempts st)); [reflexivity|lia].
Qed.

Lemma attempt_exhausted_unwritten (fuel : nat) st :
  _max_reconnect_attempts st <= _reconnect_attempts st ->
  Errors.str_refused (_max_reconnect_attempts st) = true ->
  _attempt_reconnect during_wait connection (S fuel) st = st.
Proof.
  intros H Hstr. cbn [_attempt_reconnect]. rewrite Hstr.
  destruct (Z.leb_spec (_max_reconnect_attempts st) (_reconnect_attempts st)); [reflexivity|lia].
Qed.

Lemma attempt_overflows (fuel : nat) st :
  _reconnect_attempts st < _max_reconnect_attempts st ->
  delay_overflows (_reconnect_attempts st + 1) = true ->
  _attempt_reconnect during_wait connection (S fuel) st
  = with_connection App (_ws st) (_closed st) (_reconnect_attempts st + 1) st.
Proof.
  intros H Hov. cbn [_attempt_reconnect]. rewrite Hov.
  destruct (Z.leb_spec (_max_reconnect_attempts st) (_reconnect_attempts st)); [lia|reflexivity].
Qed.

(** The client after the counter is incremented, [reconnect] is emitted and
    the wait is over, when it had no open connection. *)
Lemma after_wait st :
  _ws st <> Socket true ->
  let n := _reconnect_attempts st + 1 in
  exists a l,
    sleep during_wait n (reconnect_delay n)
      (_emit "reconnect" [Number n]
         (with_connection App (_ws st) (_closed st) n st))
    = mk_state (_listeners st) (_reconnect_enabled st) (_max_reconnect_attempts st)
        (if existsb is_close (during_wait n) then NoSocket else _ws st)
        (_closed st || existsb is_close (during_wait n))
        n
        (apply_calls (during_wait n) (_subscribed_markets st))
        a l
        (emitted st ++ [("reconnect"%string, [Number n])])
        (slept st ++ [reconnect_delay n]) (sent st).
Proof.
  intros Hws n. unfold sleep. rewrite user_calls_disconnected.
  - rewrite emit_spec. cbn. eexists _, _. reflexivity.
  - rewrite emit_spec. cbn. exact Hws.
Qed.

Lemma attempt_closed_during_wait (fuel : nat) st :
  _ws st <> Socket true ->
  _reconnect_attempts st < _max_reconnect_attempts st ->
  let n := _reconnect_attempts st + 1 in
  delay_overflows n = false ->
  existsb is_close (during_wait n) = true ->
  exists a l,
    _attempt_reconnect during_wait connection (S fuel) st
    = mk_state (_listeners st) (_reconnect_enabled st) (_max_reconnect_attempts st)
        NoSocket true n
        (apply_calls (during_wait n) (_subscribed_markets st))
        a l
        (emitted st ++ [("reconnect"%string, [Number n])])
        (slept st ++ [reconnect_delay n]) (sent st).
Proof.
  intros Hws Hlt n Hov Hclose. cbn [_attempt_reconnect]. unfold n in Hov. rewrite Hov.
  destruct (Z.leb_spec (_max_reconnect_attempts st) (_reconnect_attempts st)); [lia|].
  destruct (after_wait st Hws) as (a & l & ->). fold n. rewrite Hclose.
  cbn [_closed]. rewrite orb_true_r. eexists _, _. reflexivity.
Qed.

Lemma attempt_connected (fuel : nat) st :
  _ws st <> Socket true ->
  _closed st = false ->
  _reconnect_attempts st < _max_reconnect_attempts st ->
  let n := _reconnect_attempts st + 1 in
  delay_overflows n = false ->
  existsb is_close (during_wait n) = false ->
  connection n = Connected ->
  exists a l,
    _attempt_reconnect during_wait connection (S fuel) st
    = mk_state (_listeners st) (_reconnect_enabled st) (_max_reconnect_attempts st)
        (Socket true) false 0
        (apply_calls (during_wait n) (_subscribed_markets st))
        a l
        (emitted st ++ [("reconnect"%string, [Number n])])
        (slept st ++ [reconnect_delay n])
        (sent st ++ replayed (apply_calls (during_wait n) (_subscribed_markets st))).
Proof.
  intros Hws Hc Hlt n Hov Hclose Hconn. cbn [_attempt_reconnect]. unfold n in Hov. rewrite Hov.
  destruct (Z.leb_spec (_max_reconnect_attempts st) (_reconnect_attempts st)); [lia|].
  destruct (after_wait st Hws) as (a & l & ->). fold n. rewrite Hclose, Hc, Hconn.
  cbn [_closed orb]. exists a, l.
  unfold replay, replayed, connect_ok. cbn.
  destruct (decide (apply_calls (during_wait n) (_subscribed_markets st) = ∅)).
  - rewrite app_nil_r. reflexivity.
  - unfold subscribe, _send. cbn.
    rewrite list_to_set_elements_L, union_idemp_L. reflexivity.
Qed.

Lemma attempt_refused (fuel : nat) (text : string) st :
  _ws st <> Socket true ->
  _closed st = false ->
  _reconnect_enabled st = true ->
  _reconnect_attempts st < _max_reconnect_attempts st ->
  let n := _reconnect_attempts st + 1 in
  delay_overflows n = false ->
  existsb is_close (during_wait n) = false ->
  connection n = Refused text ->
  exists a l,
    _attempt_reconnect during_wait connection (S fuel) st
    = _attempt_reconnect during_wait connection fuel
        (mk_state (_listeners st) true (_max_reconnect_attempts st)
           (closed_socket (_ws st)) false n
           (apply_calls (during_wait n) (_subscribed_markets st))
           a l
           (emitted st ++ [("reconnect"%string, [Number n]);
                           ("error"%string, [Failure text]);
                           ("disconnect"%string, [Number 1000; Text ""])])
           (slept st ++ [reconnect_delay n]) (sent st)).
Proof.
  intros Hws Hc Hen Hlt n Hov Hclose Hconn. cbn [_attempt_reconnect]. unfold n in Hov. rewrite Hov.
  destruct (Z.leb_spec (_max_reconnect_attempts st) (_reconnect_attempts st)); [lia|].
  destruct (after_wait st Hws) as (a & l & ->). fold n. rewrite Hclose, Hc, Hconn, Hen.
  cbn [_closed orb]. unfold connect_refused. rewrite !emit_spec. cbn.
  rewrite <- !app_assoc. cbn [app].
  rewrite replay_disconnected; [|cbn; destruct (_ws st); discriminate].
  cbn. eexists _, _. reflexivity.
Qed.

Lemma reconnect_numbers_app (ls : gmap string (list (listener App)))
    (en : bool) (mx : Z) (ws : socket) (cl : bool) (at_ : Z) (mk : gset string)
    (a : App) (l : list string) (em more : list (string * list arg))
    (sl : list Q) (se : list frame) :
  reconnect_numbers (mk_state ls en mx ws cl at_ mk a l (em ++ more) sl se)
  = reconnect_numbers (mk_state ls en mx ws cl at_ mk a l em sl se)
    ++ reconnect_numbers (mk_state ls en mx ws cl at_ mk a l more sl se).
Proof. unfold reconnect_numbers. cbn. apply flat_map_app. Qed.

(** [j] refused attempts followed by one that connects, the application not
    closing the client meanwhile. *)
Lemma reconnect_chain (j : nat) :
  forall (fuel : nat) st,
    (j < fuel)%nat ->
    _ws st <> Socket true ->
    _closed st = false ->
    _reconnect_enabled st = true ->
    _reconnect_attempts st + Z.of_nat j < _max_reconnect_attempts st ->
    0 <= _reconnect_attempts st ->
    _reconnect_attempts st + 1 + Z.of_nat j <= 1024 ->
    (forall i, (i < j)%nat ->
       exists text, connection (_reconnect_attempts st + 1 + Z.of_nat i) = Refused text) ->
    connection (_reconnect_attempts st + 1 + Z.of_nat j) = Connected ->
    (forall i, (i <= j)%nat ->
       existsb is_close (during_wait (_reconnect_attempts st + 1 + Z.of_nat i)) = false) ->
    let n := _reconnect_attempts st + 1 in
    let markets := markets_after during_wait n (S j) (_subscribed_markets st) in
    let st' := _attempt_reconnect during_wait connection fuel st in
    slept st' = slept st ++ map reconnect_delay (attempt_numbers n (S j)) /\
    reconnect_numbers st' = reconnect_numbers st ++ attempt_numbers n (S j) /\
    _subscribed_markets st' = markets /\
    sent st' = sent st ++ replayed markets /\
    _ws st' = Socket true /\
    _reconnect_attempts st' = 0 /\
    _closed st' = false.
Proof.
  induction j as [|j IH];
    intros fuel st Hfuel Hws Hc Hen Hlt Hlo Hhi Href Hconn Hclose n markets st';
    subst st'; (destruct fuel as [|fuel]; [lia|]);
    assert (Hov : delay_overflows (_reconnect_attempts st + 1) = false)
      by (apply delay_computed; lia).
  - rewrite Z.add_0_r in Hconn.
    pose proof (Hclose 0%nat ltac:(lia)) as Hclose0. rewrite Z.add_0_r in Hclose0.
    destruct (attempt_connected fuel st Hws Hc ltac:(lia) Hov Hclose0 Hconn)
      as (a & l & ->).
    subst markets n. cbn [slept sent _subscribed_markets _ws _reconnect_attempts _closed
                           attempt_numbers markets_after map].
    rewrite reconnect_numbers_app.
    destruct st. repeat split.
  - destruct (Href 0%nat ltac:(lia)) as (text & Htext). rewrite Z.add_0_r in Htext.
    pose proof (Hclose 0%nat ltac:(lia)) as Hclose0. rewrite Z.add_0_r in Hclose0.
    destruct (attempt_refused fuel text st Hws Hc Hen ltac:(lia) Hov Hclose0 Htext)
      as (a & l & ->).
    match goal with |- context [_attempt_reconnect _ _ fuel ?s] => set (st3 := s) end.
    assert (Hat : _reconnect_attempts st3 = _reconnect_attempts st + 1) by reflexivity.
    specialize (IH fuel st3 ltac:(lia)).
    rewrite Hat in IH.
    destruct IH as (Hs & Hr & Hm & Hse & Hw & Ha & Hcl).
    + subst st3. cbn. destruct (_ws st); discriminate.
    + reflexivity.
    + reflexivity.
    + change (_max_reconnect_attempts st3) with (_max_reconnect_attempts st). lia.
    + lia.
    + lia.
    + intros i Hi. destruct (Href (S i) ltac:(lia)) as (t & Ht). exists t.
      rewrite <- Ht. f_equal. lia.
    + rewrite <- Hconn. f_equal. lia.
    + intros i Hi. rewrite <- (Hclose (S i)) by lia. do 2 f_equal. lia.
    + rewrite Hs, Hr, Hm, Hse, Hw, Ha, Hcl. subst st3 markets n.
      cbn [slept sent _subscribed_markets]. rewrite reconnect_numbers_app.
      change (attempt_numbers (_reconnect_attempts st + 1) (S (S j)))
        with (_reconnect_attempts st + 1
              :: attempt_numbers (_reconnect_attempts st + 1 + 1) (S j)).
      change (markets_after during_wait (_reconnect_attempts st + 1) (S (S j))
                (_subscribed_markets st))
        with (markets_after during_wait (_reconnect_attempts st + 1 + 1) (S j)
                (apply_calls (during_wait (_reconnect_attempts st + 1))
                   (_subscribed_markets st))).
      cbn [map]. rewrite <- !app_assoc. cbn [app].
      destruct st. repeat split.
Qed.

(** Every attempt refused until the counter reaches the maximum: the
    procedure stops with the final [error] event. *)
Lemma reconnect_gives_up (j : nat) :
  forall (fuel : nat) st,
    (j < fuel)%nat ->
    _ws st <> Socket true ->
    _closed st = false ->
    _reconnect_enabled st = true ->
    _reconnect_attempts st + Z.of_nat j = _max_reconnect_attempts st ->
    0 <= _reconnect_attempts st ->
    _max_reconnect_attempts st <= 1024 ->
    (forall i, (i < j)%nat ->
       exists text, connection (_reconnect_attempts st + 1 + Z.of_nat i) = Refused text) ->
    (forall i, (i < j)%nat ->
       existsb is_close (during_wait (_reconnect_attempts st + 1 + Z.of_nat i)) = false) ->
    let n := _reconnect_attempts st + 1 in
    let st' := _attempt_reconnect during_wait connection fuel st in
    slept st' = slept st ++ map reconnect_delay (attempt_numbers n j) /\
    reconnect_numbers st' = reconnect_numbers st ++ attempt_numbers n j /\
    sent st' = sent st /\
    _reconnect_attempts st' = _max_reconnect_attempts st /\
    exists before text,
      emitted st' = before ++ [("error"%string, [Failure text])] /\
      text = ("Failed to reconnect after "
              ++ Errors.str_of_int (_max_reconnect_attempts st) ++ " attempts")%string.
Proof.
  induction j as [|j IH]; intros fuel st Hfuel Hws Hc Hen Hlt Hlo Hhi Href Hclose n st';
    subst st'; (destruct fuel as [|fuel]; [lia|]).
  - rewrite attempt_exhausted by (try apply str_written; lia). rewrite emit_spec.
    cbn [slept sent _reconnect_attempts emitted attempt_numbers map].
    rewrite reconnect_numbers_app, !app_nil_r.
    split; [reflexivity|]. split; [destruct st; reflexivity|].
    split; [reflexivity|]. split; [lia|]. eexists _, _. split; reflexivity.
  - destruct (Href 0%nat ltac:(lia)) as (text & Htext). rewrite Z.add_0_r in Htext.
    pose proof (Hclose 0%nat ltac:(lia)) as Hclose0. rewrite Z.add_0_r in Hclose0.
    destruct (attempt_refused fuel text st Hws Hc Hen ltac:(lia)
                ltac:(apply delay_computed; lia) Hclose0 Htext)
      as (a & l & ->).
    match goal with |- context [_attempt_reconnect _ _ fuel ?s] => set (st3 := s) end.
    assert (Hat : _reconnect_attempts st3 = _reconnect_attempts st + 1) by reflexivity.
    specialize (IH fuel st3 ltac:(lia)).
    rewrite Hat in IH.
    destruct IH as (Hs & Hr & Hse & Ha & before & t & Hem & Ht).
    + subst st3. cbn. destruct (_ws st); discriminate.
    + reflexivity.
    + reflexivity.
    + change (_max_reconnect_attempts st3) with (_max_reconnect_attempts st). lia.
    + lia.
    + exact Hhi.
    + intros i Hi. destruct (Href (S i) ltac:(lia)) as (t & Ht). exists t.
      rewrite <- Ht. f_equal. lia.
    + intros i Hi. rewrite <- (Hclose (S i)) by lia. do 2 f_equal. lia.
    + rewrite Hs, Hr, Hse, Ha, Hem. subst st3 n.
      cbn [slept sent _max_reconnect_attempts]. rewrite reconnect_numbers_app.
      change (attempt_numbers (_reconnect_attempts st + 1) (S j))
        with (_reconnect_attempts st + 1
              :: attempt_numbers (_reconnect_attempts st + 1 + 1) j).
      cbn [map]. rewrite <- !app_assoc. cbn [app].
      split; [reflexivity|]. split; [destruct st; reflexivity|].
      split; [reflexivity|]. split; [reflexivity|].
      exists before, t. split; [reflexivity|exact Ht].
Qed.

(** The counters are not touched by the listeners, the application or the
    replay. *)
Lemma user_calls_counters (calls : list user_call) st :
  _max_reconnect_attempts (fold_left (fun s c => user c s) calls st)
  = _max_reconnect_attempts st /\
  _reconnect_attempts (fold_left (fun s c => user c s) calls st)
  = _reconnect_attempts st.
Proof.
  revert st. induction calls as [|c calls IH]; intros st; [split; reflexivity|].
  cbn [fold_left]. destruct (IH (user c st)) as [-> ->].
  destruct st as [ls en mx ws cl at_ mk ap lg em sl se].
  destruct c; unfold user, subscribe, unsubscribe, close, _send; cbn;
    destruct ws as [|[]]; split; reflexivity.
Qed.

Lemma replay_counters st :
  _max_reconnect_attempts (replay st) = _max_reconnect_attempts st /\
  _reconnect_attempts (replay st) = _reconnect_attempts st.
Proof.
  unfold replay. destruct (decide _); [split; reflexivity|].
  destruct st as [ls en mx ws cl at_ mk ap lg em sl se].
  unfold subscribe, _send. cbn. destruct ws as [|[]]; split; reflexivity.
Qed.

(** More fuel than the attempts the counter allows changes nothing. *)
Lemma attempt_reconnect_fuel (fuel1 : nat) :
  forall (fuel2 : nat) st,
    (attempts_left st <= fuel1)%nat -> (attempts_left st <= fuel2)%nat ->
    _attempt_reconnect during_wait connection fuel1 st
    = _attempt_reconnect during_wait connection fuel2 st.
Proof.
  induction fuel1 as [|fuel1 IH]; intros fuel2 st H1 H2;
    [unfold attempts_left in H1; lia|].
  destruct fuel2 as [|fuel2]; [unfold attempts_left in H2; lia|].
  cbn [_attempt_reconnect].
  destruct (Z.leb_spec (_max_reconnect_attempts st) (_reconnect_attempts st)) as [|Hlt];
    [reflexivity|].
  set (n := _reconnect_attempts st + 1).
  destruct (delay_overflows n); [reflexivity|].
  set (st2 := sleep during_wait n (reconnect_delay n) _).
  destruct (_closed st2); [reflexivity|].
  destruct (connection n) as [|text]; [reflexivity|].
  set (st3 := replay (connect_refused text st2)).
  destruct (negb (_closed st3) && _reconnect_enabled st3); [|reflexivity].
  assert (Hc : _max_reconnect_attempts st3 = _max_reconnect_attempts st /\
               _reconnect_attempts st3 = n).
  { subst st3. destruct (replay_counters (connect_refused text st2)) as [-> ->].
    unfold connect_refused. rewrite !emit_spec. cbn.
    subst st2. unfold sleep.
    destruct (user_calls_counters (during_wait n)
                (with_slept App
                   (slept (_emit "reconnect" [Number n]
                             (with_connection App (_ws st) (_closed st) n st))
                    ++ [reconnect_delay n])
                   (_emit "reconnect" [Number n]
                      (with_connection App (_ws st) (_closed st) n st))))
      as [-> ->].
    rewrite emit_spec. split; reflexivity. }
  destruct Hc as [Hm Ha].
  apply IH; unfold attempts_left in *; rewrite Hm, Ha; subst n; lia.
Qed.

End ReconnectFacts.

(** C6 (as amended). When the counter has reached the maximum the procedure
    only emits the final [error], whose text names the maximum: no
    increment, no wait, no connection attempt; and when the maximum has more
    than 4300 digits, so that its text cannot be written, the procedure
    stops there with nothing emitted.  Below the maximum an attempt
    increments the counter to [n].  For [n] from 1 to 1024 it then emits
    [reconnect] with [n] and waits [min(2^(n-1), 30)] seconds (1, 2, 4, 8, 16
    for [n] from 1 to 5); from [n = 1025] on the power is too large for a
    float and the procedure stops after the increment: no event, no wait, no
    connection attempt.  If the client is closed during the wait nothing
    more happens.  Otherwise [connect] is retried; after [j] refused
    attempts and one that connects, the waits and the [reconnect] events are
    those of the attempts [n], ..., [n + j], the counter is back at 0, and
    what has been written to the connection is one [subscribe] frame with
    exactly the members of the subscription set as the calls made during the
    waits left it, or nothing when that set is empty. *)
Theorem reconnect_procedure (App : Type)
    (during_wait : Z -> list WebSocket.user_call)
    (connection : Z -> WebSocket.connect_result)
    (fuel : nat) (st : WebSocket.state App) :
  let n := WebSocket._reconnect_attempts st + 1 in
  (WebSocket._max_reconnect_attempts st <= WebSocket._reconnect_attempts st ->
   (Errors.str_refused (WebSocket._max_reconnect_attempts st) = false ->
    WebSocket._attempt_reconnect during_wait connection (S fuel) st
    = WebSocket._emit "error"
        [WebSocket.Failure
           ("Failed to reconnect after "
            ++ Errors.str_of_int (WebSocket._max_reconnect_attempts st)
            ++ " attempts")] st) /\
   (Errors.str_refused (WebSocket._max_reconnect_attempts st) = true ->
    WebSocket._attempt_reconnect during_wait connection (S fuel) st = st)) /\
  ((forall k : Z, 1 <= k <= 1024 ->
      WebSocket.delay_overflows k = false /\
      (WebSocket.reconnect_delay k == Qmin (Qpower 2 (k - 1)) 30)%Q) /\
   Forall2 Qeq (map WebSocket.reconnect_delay [1; 2; 3; 4; 5]) [1; 2; 4; 8; 16]%Q) /\
  (WebSocket._reconnect_attempts st < WebSocket._max_reconnect_attempts st ->
   1025 <= n ->
   WebSocket._attempt_reconnect during_wait connection (S fuel) st
   = WebSocket.with_connection App (WebSocket._ws st) (WebSocket._closed st) n st) /\
  (WebSocket._ws st <> WebSocket.Socket true ->
   WebSocket._reconnect_attempts st < WebSocket._max_reconnect_attempts st ->
   1 <= n <= 1024 ->
   existsb WebSocket.is_close (during_wait n) = true ->
   let st' := WebSocket._attempt_reconnect during_wait connection (S fuel) st in
   WebSocket._closed st' = true /\
   WebSocket._ws st' = WebSocket.NoSocket /\
   WebSocket._reconnect_attempts st' = n /\
   WebSocket.emitted st' = WebSocket.emitted st ++ [("reconnect"%string, [WebSocket.Number n])] /\
   WebSocket.slept st' = WebSocket.slept st ++ [WebSocket.reconnect_delay n] /\
   WebSocket.sent st' = WebSocket.sent st) /\
  (forall j : nat,
     (j <= fuel)%nat ->
     WebSocket._ws st <> WebSocket.Socket true ->
     WebSocket._closed st = false ->
     WebSocket._reconnect_enabled st = true ->
     WebSocket._reconnect_attempts st + Z.of_nat j < WebSocket._max_reconnect_attempts st ->
     1 <= n ->
     n + Z.of_nat j <= 1024 ->
     (forall i, (i < j)%nat ->
        exists text, connection (n + Z.of_nat i) = WebSocket.Refused text) ->
     connection (n + Z.of_nat j) = WebSocket.Connected ->
     (forall i, (i <= j)%nat ->
        existsb WebSocket.is_close (during_wait (n + Z.of_nat i)) = false) ->
     let markets :=
       WebSocket.markets_after during_wait n (S j) (WebSocket._subscribed_markets st) in
     let st' := WebSocket._attempt_reconnect during_wait connection (S fuel) st in
     WebSocket.slept st'
     = WebSocket.slept st
       ++ map WebSocket.reconnect_delay (WebSocket.attempt_numbers n (S j)) /\
     WebSocket.reconnect_numbers st'
     = WebSocket.reconnect_numbers st ++ WebSocket.attempt_numbers n (S j) /\
     WebSocket._subscribed_markets st' = markets /\
     WebSocket.sent st'
     = WebSocket.sent st
       ++ (if decide (markets = ∅) then []
           else [WebSocket.Subscribe (elements markets)]) /\
     (forall x, x ∈ elements markets <-> x ∈ markets) /\
     NoDup (elements markets) /\
     WebSocket._ws st' = WebSocket.Socket true /\
     WebSocket._reconnect_attempts st' = 0 /\
     WebSocket._closed st' = false).
Proof.
  intros n. split.
  { intros Hge. split; intros Hstr.
    - apply attempt_exhausted; assumption.
    - apply attempt_exhausted_unwritten; assumption. }
  split.
  { split; [|repeat constructor].
    intros k Hk. split; [apply delay_computed; exact Hk|apply reconnect_delay_spec]. }
  split.
  { intros Hlt Hn. apply attempt_overflows; [exact Hlt|].
    apply delay_not_computed. exact Hn. }
  split.
  { intros Hws Hlt Hn Hclose st'. subst st'.
    destruct (attempt_closed_during_wait App during_wait connection fuel st Hws Hlt
                (delay_computed n Hn) Hclose)
      as (a & l & ->).
    repeat split. }
  intros j Hj Hws Hc Hen Hlt Hlo Hhi Href Hconn Hclose markets st'.
  destruct (reconnect_chain App during_wait connection j (S fuel) st
              ltac:(lia) Hws Hc Hen Hlt ltac:(subst n; lia) Hhi Href Hconn Hclose)
    as (Hs & Hr & Hm & Hse & Hw & Ha & Hcl).
  repeat split; try assumption.
  - apply elem_of_elements.
  - apply elem_of_elements.
  - apply NoDup_elements.
Qed.

(** A client below a maximum that the counter can only reach past attempt
    1024: at attempt 1025 the counter is incremented and the procedure stops,
    with no [reconnect] event, no wait and no connection attempt, although
    the connection would be accepted. *)
Example reconnect_stops_at_float_overflow :
  let st :=
    WebSocket.with_connection Z WebSocket.NoSocket false 1024
      (WebSocket.lost_client 2000 ∅) in
  let st' := WebSocket._attempt_reconnect (fun _ => []) (fun _ => WebSocket.Connected) 6 st in
  WebSocket._reconnect_attempts st' = 1025 /\
  WebSocket.emitted st' = WebSocket.emitted st /\
  WebSocket.slept st' = [] /\
  WebSocket._ws st' = WebSocket.NoSocket.
Proof. vm_compute. repeat split. Qed.

(** Two runs in which the connection attempt would succeed.  With an empty
    subscription set the client reconnects and writes no [subscribe] frame.
    With a close during the wait the attempt is counted and waited for, and
    [connect] is not retried. *)
Lemma reconnect_without_replay_or_connect :
  (let st' :=
     WebSocket._attempt_reconnect (fun _ => []) (fun _ => WebSocket.Connected) 6
       (WebSocket.lost_client 5 ∅) in
   WebSocket._ws st' = WebSocket.Socket true /\
   WebSocket._reconnect_attempts st' = 0 /\
   WebSocket.sent st' = []) /\
  (let st' :=
     WebSocket._attempt_reconnect (fun _ => [WebSocket.CallClose])
       (fun _ => WebSocket.Connected) 6
       (WebSocket.lost_client 5 {["pm_1"%string]}) in
   WebSocket.reconnect_numbers st' = [1] /\
   Forall2 Qeq (WebSocket.slept st') [1]%Q /\
   WebSocket._reconnect_attempts st' = 1 /\
   WebSocket._ws st' = WebSocket.NoSocket /\
   WebSocket.sent st' = []).
Proof. vm_compute. repeat split. repeat constructor. Qed.

(** The scenario of [calls_first_wait] and [second_connects] on a client
    subscribed to [pm_1]: two attempts, waits of 1 and 2 seconds, and one
    [subscribe] frame for [pm_2]. *)
Example reconnect_replays_current_set :
  let st' :=
    WebSocket._attempt_reconnect WebSocket.calls_first_wait WebSocket.second_connects 6
      (WebSocket.lost_client 5 {["pm_1"%string]}) in
  WebSocket.reconnect_numbers st' = [1; 2] /\
  Forall2 Qeq (WebSocket.slept st') [1; 2]%Q /\
  WebSocket.sent st' = [WebSocket.Subscribe ["pm_2"%string]] /\
  WebSocket._reconnect_attempts st' = 0 /\
  map fst (WebSocket.emitted st')
  = ["reconnect"; "error"; "disconnect"; "reconnect"]%string.
Proof.
  vm_compute. repeat split. repeat constructor.
Qed.

(** ** Key-casing normalizer *)

Section KeyCasingFacts.
Import KeyCasing.

(** *** Character classes *)

Ltac by_cases_on c := destruct c as [[] [] [] [] [] [] [] []]; vm_compute; try reflexivity; try discriminate.

Lemma to_lower_not_upper (c : ascii) : is_upper (to_lower c) = false.
Proof. by_cases_on c. Qed.

Lemma to_lower_digit (c : ascii) : is_digit (to_lower c) = is_digit c.
Proof. by_cases_on c. Qed.

Lemma to_lower_lower (c : ascii) : is_lower (to_lower c) = is_lower c || is_upper c.
Proof. by_cases_on c. Qed.

Lemma to_lower_id (c : ascii) : is_upper c = false -> to_lower c = c.
Proof. unfold to_lower. intros ->. reflexivity. Qed.

Lemma to_lower_upper (c : ascii) : is_upper c = true -> to_lower c <> c.
Proof. by_cases_on c; intros _; discriminate. Qed.

Lemma lower_not_digit (c : ascii) : is_lower c = true -> is_digit c = false.
Proof. by_cases_on c. Qed.

Lemma upper_not_lower (c : ascii) : is_upper c = true -> is_lower c = false.
Proof. by_cases_on c. Qed.

Lemma upper_not_digit (c : ascii) : is_upper c = true -> is_digit c = false.
Proof. by_cases_on c. Qed.

(** *** Adjacent characters *)

Lemma has_adj_cons (p q : ascii -> bool) (c : ascii) (s : list ascii) :
  has_adj p q (c :: s) = (p c && head_in q s) || has_adj p q s.
Proof. destruct s as [|c2 s]; cbn; [rewrite andb_false_r|]; reflexivity. Qed.

Lemma has_adj_without (p q : ascii -> bool) (s : list ascii) :
  existsb q s = false -> has_adj p q s = false.
Proof.
  induction s as [|c s IH]; [reflexivity|]. cbn [existsb]. intros H.
  apply orb_false_iff in H as [Hc Hs]. rewrite has_adj_cons, (IH Hs), orb_false_r.
  destruct s as [|c2 s]; cbn in *; [apply andb_false_r|].
  apply orb_false_iff in Hs as [-> _]. apply andb_false_r.
Qed.

(** *** The substitutions of two one-character classes *)

Lemma sub_pair_cons (p1 p2 : ascii -> bool) (c1 c2 : ascii) (rest : list ascii) :
  sub_pair p1 p2 (c1 :: c2 :: rest)
  = if p1 c1 && p2 c2 then c1 :: underscore :: c2 :: sub_pair p1 p2 rest
    else c1 :: sub_pair p1 p2 (c2 :: rest).
Proof. reflexivity. Qed.

Lemma sub_pair_head (p1 p2 q : ascii -> bool) (s : list ascii) :
  head_in q (sub_pair p1 p2 s) = head_in q s.
Proof.
  destruct s as [|c1 [|c2 rest]]; cbn; try reflexivity.
  destruct (p1 c1 && p2 c2); reflexivity.
Qed.

Lemma sub_pair_id (p1 p2 : ascii -> bool) (s : list ascii) :
  has_adj p1 p2 s = false -> sub_pair p1 p2 s = s.
Proof.
  induction s as [|c1 tl IH]; [reflexivity|]. destruct tl as [|c2 rest]; [reflexivity|].
  rewrite has_adj_cons. cbn [head_in]. intros H. apply orb_false_iff in H as [Hm Ht].
  rewrite sub_pair_cons, Hm. f_equal. apply IH. exact Ht.
Qed.

Lemma sub_pair_length (p1 p2 : ascii -> bool) (n : nat) :
  forall s : list ascii,
    (length s <= n)%nat ->
    (length s <= length (sub_pair p1 p2 s))%nat /\
    (has_adj p1 p2 s = true -> (length s < length (sub_pair p1 p2 s))%nat).
Proof.
  induction n as [|n IH]; intros s Hn.
  - destruct s; [|cbn in Hn; lia]. cbn. split; [lia|discriminate].
  - destruct s as [|c1 [|c2 rest]]; [cbn; split; [lia|discriminate]..|].
    rewrite sub_pair_cons, has_adj_cons. cbn [head_in length] in Hn |- *.
    destruct (p1 c1 && p2 c2).
    + destruct (IH rest ltac:(lia)) as [Hle _]. cbn [length]. split; intros; lia.
    + destruct (IH (c2 :: rest) ltac:(cbn [length]; lia)) as [Hle Hlt].
      set (t := sub_pair p1 p2 (c2 :: rest)) in *.
      cbn [orb]. cbn [length] in Hle, Hlt |- *.
      split; [lia|]. intros H. specialize (Hlt H). lia.
Qed.

Lemma sub_pair_separated (p1 p2 : ascii -> bool) (n : nat) :
  forall s : list ascii, (length s <= n)%nat -> separated s (sub_pair p1 p2 s).
Proof.
  induction n as [|n IH]; intros s Hn.
  - destruct s; [constructor|cbn in Hn; lia].
  - destruct s as [|c1 [|c2 rest]]; [cbn; repeat constructor..|].
    rewrite sub_pair_cons. cbn [length] in Hn. destruct (p1 c1 && p2 c2).
    + apply separated_split; [|discriminate]. apply separated_keep. apply IH. lia.
    + apply separated_keep. apply IH. cbn [length]. lia.
Qed.

Lemma sub_pair_clean (p1 p2 : ascii -> bool) (n : nat) :
  p1 underscore = false -> p2 underscore = false ->
  (forall c, p2 c = true -> p1 c = false) ->
  forall s : list ascii,
    (length s <= n)%nat -> has_adj p1 p2 (sub_pair p1 p2 s) = false.
Proof.
  intros H1 H2 Hd. induction n as [|n IH]; intros s Hn.
  - destruct s; [reflexivity|cbn in Hn; lia].
  - destruct s as [|c1 [|c2 rest]]; [reflexivity..|].
    rewrite sub_pair_cons. cbn [length] in Hn. destruct (p1 c1 && p2 c2) eqn:Hm.
    + apply andb_true_iff in Hm as [_ Hc2].
      rewrite !has_adj_cons. cbn [head_in]. rewrite H1, H2, (Hd c2 Hc2).
      rewrite (IH rest ltac:(lia)). rewrite andb_false_r. reflexivity.
    + rewrite has_adj_cons, sub_pair_head. cbn [head_in]. rewrite Hm.
      apply IH. cbn [length]. lia.
Qed.

(** *** Putting underscores in creates no new pair of neighbours *)

Lemma separated_head (q : ascii -> bool) (s s' : list ascii) :
  separated s s' -> head_in q s' = head_in q s.
Proof. intros H. destruct H; reflexivity. Qed.

Lemma separated_has_adj (p q : ascii -> bool) (s s' : list ascii) :
  p underscore = false -> q underscore = false ->
  separated s s' -> has_adj p q s = false -> has_adj p q s' = false.
Proof.
  intros Hp Hq H. induction H as [|c s s' H IH|c s s' H IH Hne]; [reflexivity|..];
    rewrite !has_adj_cons; intros Ha; apply orb_false_iff in Ha as [Hc Hs].
  - rewrite (separated_head q _ _ H), Hc. exact (IH Hs).
  - cbn [head_in]. rewrite Hq, Hp, andb_false_r. cbn. exact (IH Hs).
Qed.

Lemma separated_refl (s : list ascii) : separated s s.
Proof. induction s; constructor; assumption. Qed.

Lemma separated_app_keep (a b b' : list ascii) :
  separated b b' -> separated (a ++ b) (a ++ b').
Proof. intros H. induction a; [exact H|]. cbn. constructor. exact IHa. Qed.

Lemma separated_app_split (a b b' : list ascii) :
  a <> [] -> b <> [] -> separated b b' ->
  separated (a ++ b) (a ++ underscore :: b').
Proof.
  intros Ha Hb H. induction a as [|x a IH]; [contradiction|].
  destruct a as [|y a].
  - cbn. apply separated_split; assumption.
  - cbn [app]. apply separated_keep. apply IH. discriminate.
Qed.

(** *** The substitution of the acronym pattern *)

Lemma span_upper_app (s run rest : list ascii) :
  span_upper s = (run, rest) -> s = run ++ rest.
Proof.
  revert run rest. induction s as [|c s IH]; intros run rest; cbn.
  - intros [= <- <-]. reflexivity.
  - destruct (is_upper c).
    + destruct (span_upper s) as [run' rest']. intros [= <- <-].
      cbn. f_equal. apply IH. reflexivity.
    + intros [= <- <-]. reflexivity.
Qed.

Lemma match_camel_1_spec (s g1 g2 rest : list ascii) :
  match_camel_1 s = Some (g1, g2, rest) ->
  s = g1 ++ g2 ++ rest /\ g1 <> [] /\ g2 <> [].
Proof.
  unfold match_camel_1. destruct (span_upper s) as [run after] eqn:E.
  apply span_upper_app in E. destruct after as [|c rest']; [discriminate|].
  destruct (is_lower c && (2 <=? length run)%nat) eqn:H; [|discriminate].
  intros [= <- <- <-]. apply andb_true_iff in H as [_ Hlen].
  apply Nat.leb_le in Hlen.
  assert (Hne : run <> []) by (destruct run; [cbn in Hlen; lia|discriminate]).
  split; [|split; [|discriminate]].
  - rewrite E at 1. rewrite (app_removelast_last underscore Hne) at 1.
    rewrite <- app_assoc. reflexivity.
  - destruct run as [|a [|b run]]; cbn in Hlen; try lia. discriminate.
Qed.

Lemma match_camel_1_no_upper (c : ascii) (tl : list ascii) :
  is_upper c = false -> match_camel_1 (c :: tl) = None.
Proof.
  intros H. unfold match_camel_1. cbn [span_upper]. rewrite H.
  cbn. rewrite andb_false_r. reflexivity.
Qed.

Lemma sub_camel_1_id (fuel : nat) (s : list ascii) :
  existsb is_upper s = false -> sub_camel_1 fuel s = s.
Proof.
  revert s. induction fuel as [|fuel IH]; intros s H; [reflexivity|].
  destruct s as [|c tl]; [reflexivity|]. cbn [existsb] in H.
  apply orb_false_iff in H as [Hc Ht].
  cbn [sub_camel_1]. rewrite (match_camel_1_no_upper c tl Hc), (IH tl Ht).
  reflexivity.
Qed.

Lemma sub_camel_1_separated (fuel : nat) (s : list ascii) :
  separated s (sub_camel_1 fuel s).
Proof.
  revert s. induction fuel as [|fuel IH]; intros s; [apply separated_refl|].
  destruct s as [|c tl]; [constructor|]. cbn [sub_camel_1].
  destruct (match_camel_1 (c :: tl)) as [[[g1 g2] rest]|] eqn:E.
  - apply match_camel_1_spec in E as (-> & H1 & H2).
    apply separated_app_split; [exact H1|destruct g2; [contradiction|discriminate]|].
    apply separated_app_keep. apply IH.
  - apply separated_keep. apply IH.
Qed.

(** *** Lower-casing *)

Lemma lower_no_upper (s : list ascii) : existsb is_upper (lower s) = false.
Proof.
  induction s as [|c s IH]; [reflexivity|]. cbn.
  rewrite to_lower_not_upper. exact IH.
Qed.

Lemma lower_id (s : list ascii) : existsb is_upper s = false -> lower s = s.
Proof.
  induction s as [|c s IH]; [reflexivity|].
  change (lower (c :: s)) with (to_lower c :: lower s). cbn [existsb]. intros H.
  apply orb_false_iff in H as [Hc Hs]. rewrite (to_lower_id c Hc), (IH Hs).
  reflexivity.
Qed.

Lemma lower_has_adj (s : list ascii) :
  has_adj is_lower is_digit (lower s)
  = has_adj is_lower is_digit s || has_adj is_upper is_digit s.
Proof.
  induction s as [|c s IH]; [reflexivity|].
  change (lower (c :: s)) with (to_lower c :: lower s).
  rewrite !has_adj_cons, IH.
  assert (Hh : head_in is_digit (lower s) = head_in is_digit s).
  { destruct s; [reflexivity|]. cbn. apply to_lower_digit. }
  rewrite Hh, to_lower_lower.
  destruct (is_lower c), (is_upper c), (head_in is_digit s),
    (has_adj is_lower is_digit s), (has_adj is_upper is_digit s); reflexivity.
Qed.

(** *** Fixed points and idempotence, on the characters of a key *)

Lemma camel_fixed_point (s : list ascii) :
  camel_to_snake_chars s = s <->
  existsb is_upper s = false /\ has_adj is_lower is_digit s = false.
Proof.
  unfold camel_to_snake_chars, _CAMEL_RE_1_sub, _CAMEL_RE_2_sub, _DIGIT_BOUNDARY_RE_sub.
  split.
  - intros H.
    assert (Hu : existsb is_upper s = false) by (rewrite <- H; apply lower_no_upper).
    split; [exact Hu|].
    rewrite (sub_camel_1_id _ _ Hu) in H.
    rewrite (sub_pair_id _ _ s) in H by (apply has_adj_without; exact Hu).
    destruct (has_adj is_lower is_digit s) eqn:Ha; [|reflexivity].
    pose proof (proj2 (sub_pair_length is_lower is_digit (length s) s (Nat.le_refl _)) Ha)
      as Hlen.
    apply (f_equal (@length ascii)) in H. unfold lower in H.
    rewrite length_map in H. lia.
  - intros [Hu Ha].
    rewrite (sub_camel_1_id _ _ Hu).
    rewrite (sub_pair_id _ _ s) by (apply has_adj_without; exact Hu).
    rewrite (sub_pair_id _ _ s Ha). apply lower_id. exact Hu.
Qed.

Lemma camel_result_normal (s : list ascii) :
  has_adj is_upper is_digit s = false ->
  existsb is_upper (camel_to_snake_chars s) = false /\
  has_adj is_lower is_digit (camel_to_snake_chars s) = false.
Proof.
  intros H. unfold camel_to_snake_chars. split; [apply lower_no_upper|].
  rewrite lower_has_adj. apply orb_false_iff. split.
  - unfold _DIGIT_BOUNDARY_RE_sub.
    apply (sub_pair_clean is_lower is_digit (length (_CAMEL_RE_2_sub (_CAMEL_RE_1_sub s))));
      [reflexivity|reflexivity| |apply Nat.le_refl].
    intros c Hc. destruct (is_lower c) eqn:Hl; [|reflexivity].
    rewrite (lower_not_digit c Hl) in Hc. discriminate.
  - apply (separated_has_adj is_upper is_digit (_CAMEL_RE_2_sub (_CAMEL_RE_1_sub s)));
      [reflexivity|reflexivity|apply (sub_pair_separated _ _ _ _ (Nat.le_refl _))|].
    apply (separated_has_adj is_upper is_digit (_CAMEL_RE_1_sub s));
      [reflexivity|reflexivity|apply (sub_pair_separated _ _ _ _ (Nat.le_refl _))|].
    apply (separated_has_adj is_upper is_digit s);
      [reflexivity|reflexivity|apply sub_camel_1_separated|exact H].
Qed.

Lemma camel_idempotent (s : list ascii) :
  has_adj is_upper is_digit s = false ->
  camel_to_snake_chars (camel_to_snake_chars s) = camel_to_snake_chars s.
Proof. intros H. apply camel_fixed_point. apply camel_result_normal. exact H. Qed.

(** The rewrite only puts underscores in and lower-cases. *)
Lemma separated_without_underscores (s s' : list ascii) :
  separated s s' -> without_underscores s' = without_underscores s.
Proof.
  intros H. induction H as [|c s s' H IH|c s s' H IH Hne]; [reflexivity|..];
    unfold without_underscores in *; cbn [List.filter].
  - rewrite IH. reflexivity.
  - rewrite Ascii.eqb_refl. cbn [negb]. rewrite IH. reflexivity.
Qed.

Lemma lower_without_underscores (s : list ascii) :
  without_underscores (lower s) = lower (without_underscores s).
Proof.
  induction s as [|c s IH]; [reflexivity|].
  change (lower (c :: s)) with (to_lower c :: lower s).
  unfold without_underscores in *. cbn [List.filter]. rewrite IH.
  assert (Hc : Ascii.eqb (to_lower c) underscore = Ascii.eqb c underscore)
    by (destruct c as [[] [] [] [] [] [] [] []]; reflexivity).
  rewrite Hc. destruct (Ascii.eqb c underscore); reflexivity.
Qed.

Lemma camel_without_underscores (s : list ascii) :
  without_underscores (camel_to_snake_chars s) = lower (without_underscores s).
Proof.
  unfold camel_to_snake_chars. rewrite lower_without_underscores. f_equal.
  unfold _DIGIT_BOUNDARY_RE_sub, _CAMEL_RE_2_sub, _CAMEL_RE_1_sub.
  rewrite (separated_without_underscores _ _
             (sub_pair_separated _ _ _ _ (Nat.le_refl _))).
  rewrite (separated_without_underscores _ _
             (sub_pair_separated _ _ _ _ (Nat.le_refl _))).
  apply separated_without_underscores. apply sub_camel_1_separated.
Qed.

(** More fuel than the length of the text changes nothing: the scan of
    [_CAMEL_RE_1_sub] reaches the end of the text. *)
Lemma sub_camel_1_fuel (fuel1 : nat) :
  forall (fuel2 : nat) (s : list ascii),
    (length s <= fuel1)%nat -> (length s <= fuel2)%nat ->
    sub_camel_1 fuel1 s = sub_camel_1 fuel2 s.
Proof.
  induction fuel1 as [|fuel1 IH]; intros fuel2 s H1 H2.
  - destruct s; [|cbn in H1; lia]. destruct fuel2; reflexivity.
  - destruct s as [|c tl]; [destruct fuel2; reflexivity|].
    destruct fuel2 as [|fuel2]; [cbn in H2; lia|].
    cbn [sub_camel_1]. cbn [length] in H1, H2.
    destruct (match_camel_1 (c :: tl)) as [[[g1 g2] rest]|] eqn:E.
    + apply match_camel_1_spec in E as (E & Hg1 & Hg2).
      apply (f_equal (@length ascii)) in E. rewrite !length_app in E. cbn [length] in E.
      assert (1 <= length g1)%nat by (destruct g1; [contradiction|cbn; lia]).
      rewrite (IH fuel2 rest); [reflexivity|lia|lia].
    + rewrite (IH fuel2 tl); [reflexivity|lia|lia].
Qed.

(** *** Keys as strings *)

Lemma string_of_list_ascii_inj (a b : list ascii) :
  string_of_list_ascii a = string_of_list_ascii b -> a = b.
Proof.
  intros H. apply (f_equal list_ascii_of_string) in H.
  rewrite !list_ascii_of_string_of_list_ascii in H. exact H.
Qed.

Lemma camel_to_snake_fixed_point (key : string) :
  _camel_to_snake key = key <->
  has_upper key = false /\ lower_then_digit key = false.
Proof.
  unfold _camel_to_snake, has_upper, lower_then_digit.
  rewrite <- camel_fixed_point. split.
  - intros H. apply string_of_list_ascii_inj.
    rewrite H. symmetry. apply string_of_list_ascii_of_string.
  - intros ->. apply string_of_list_ascii_of_string.
Qed.

Lemma camel_to_snake_idempotent (key : string) :
  upper_then_digit key = false ->
  _camel_to_snake (_camel_to_snake key) = _camel_to_snake key.
Proof.
  unfold _camel_to_snake, upper_then_digit. intros H.
  rewrite list_ascii_of_string_of_list_ascii, (camel_idempotent _ H). reflexivity.
Qed.

(** *** Dictionaries built key by key *)

Section DictFacts.
Variable A : Type.
Implicit Types (d l : list (string * A)).

Lemma dict_set_fresh d (k : string) (v : A) :
  ~ In k (map fst d) -> dict_set d k v = d ++ [(k, v)].
Proof.
  induction d as [|[k' v'] d IH]; [reflexivity|]. cbn. intros H.
  destruct (String.eqb_spec k' k) as [->|Hne]; [tauto|].
  rewrite IH by tauto. reflexivity.
Qed.

Lemma dict_set_in d (k : string) (v : A) (kv : string * A) :
  In kv (dict_set d k v) -> In kv d \/ kv = (k, v).
Proof.
  induction d as [|[k' v'] d IH]; cbn.
  - intros [<-|[]]. right. reflexivity.
  - destruct (String.eqb_spec k' k) as [->|Hne]; cbn.
    + intros [<-|H]; [right; reflexivity|left; right; exact H].
    + intros [<-|H]; [left; left; reflexivity|].
      destruct (IH H); [left; right; assumption|right; assumption].
Qed.

Lemma dict_set_keys d (k : string) (v : A) :
  map fst (dict_set d k v) = map fst d \/
  (~ In k (map fst d) /\ map fst (dict_set d k v) = map fst d ++ [k]).
Proof.
  induction d as [|[k' v'] d IH]; cbn.
  - right. split; [tauto|reflexivity].
  - destruct (String.eqb_spec k' k) as [->|Hne]; cbn; [left; reflexivity|].
    destruct IH as [->|[Hn ->]]; [left; reflexivity|].
    right. split; [tauto|reflexivity].
Qed.

Lemma dict_set_nodup d (k : string) (v : A) :
  List.NoDup (map fst d) -> List.NoDup (map fst (dict_set d k v)).
Proof.
  intros H. destruct (dict_set_keys d k v) as [->|[Hn ->]]; [exact H|].
  apply NoDup_ListNoDup. apply NoDup_app. apply NoDup_ListNoDup in H.
  split; [exact H|]. split.
  - intros x Hx Hk. apply list_elem_of_In in Hx, Hk. destruct Hk as [<-|[]]. tauto.
  - apply NoDup_singleton.
Qed.

Lemma dict_fold_nodup l d :
  List.NoDup (map fst d) ->
  List.NoDup (map fst (fold_left (fun d kv => dict_set d (fst kv) (snd kv)) l d)).
Proof.
  revert d. induction l as [|[k v] l IH]; intros d H; [exact H|].
  cbn. apply IH. apply dict_set_nodup. exact H.
Qed.

Lemma dict_fold_in l d (kv : string * A) :
  In kv (fold_left (fun d kv => dict_set d (fst kv) (snd kv)) l d) ->
  In kv d \/ In kv l.
Proof.
  revert d. induction l as [|[k v] l IH]; intros d; [tauto|].
  cbn. intros H. destruct (IH _ H) as [H'|H']; [|tauto].
  destruct (dict_set_in _ _ _ _ H'); [tauto|]. right. left. congruence.
Qed.

Lemma dict_fold_fresh l d :
  List.NoDup (map fst (d ++ l)) ->
  fold_left (fun d kv => dict_set d (fst kv) (snd kv)) l d = d ++ l.
Proof.
  revert d. induction l as [|[k v] l IH]; intros d H; [symmetry; apply app_nil_r|].
  cbn. rewrite dict_set_fresh.
  - rewrite IH; rewrite <- app_assoc; [reflexivity|exact H].
  - rewrite map_app in H. cbn in H. apply List.NoDup_remove_2 in H.
    intros Hin. apply H. apply in_or_app. left. exact Hin.
Qed.

Lemma dict_of_items_nodup l : List.NoDup (map fst (dict_of_items l)).
Proof. apply dict_fold_nodup. constructor. Qed.

Lemma dict_of_items_in l (kv : string * A) : In kv (dict_of_items l) -> In kv l.
Proof. intros H. destruct (dict_fold_in _ _ _ H) as [[]|H']. exact H'. Qed.

Lemma dict_of_items_id l : List.NoDup (map fst l) -> dict_of_items l = l.
Proof. intros H. unfold dict_of_items. rewrite dict_fold_fresh; [reflexivity|exact H]. Qed.

End DictFacts.

(** *** The normalizer on documents *)

Lemma transform_keys_dict (items : list (string * json)) :
  _transform_keys (JDict items)
  = JDict (dict_of_items
             (map (fun kv => (_camel_to_snake (fst kv), _transform_keys (snd kv)))
                items)).
Proof.
  cbn [_transform_keys]. do 2 f_equal.
  induction items as [|[k v] items IH]; [reflexivity|]. cbn [map fst snd].
  rewrite <- IH. reflexivity.
Qed.

Lemma transform_keys_list (items : list json) :
  _transform_keys (JList items) = JList (map _transform_keys items).
Proof. reflexivity. Qed.

Lemma transform_keys_scalar (obj : json) :
  match obj with JList _ | JDict _ => True | _ => _transform_keys obj = obj end.
Proof. destruct obj; exact I || reflexivity. Qed.

Lemma all_keys_dict (ok : string -> bool) (items : list (string * json)) :
  all_keys ok (JDict items) = true <->
  List.Forall (fun kv => ok (fst kv) = true /\ all_keys ok (snd kv) = true) items.
Proof.
  cbn [all_keys]. induction items as [|[k v] items IH].
  - split; [constructor|reflexivity].
  - rewrite !andb_true_iff, IH. split.
    + intros [[Hk Hv] Hr]. constructor; [split; assumption|exact Hr].
    + intros H. inversion H as [|? ? [Hk Hv] Hr]; subst. tauto.
Qed.

Lemma all_keys_list (ok : string -> bool) (items : list json) :
  all_keys ok (JList items) = true <->
  List.Forall (fun v => all_keys ok v = true) items.
Proof.
  cbn [all_keys]. induction items as [|v items IH].
  - split; [constructor|reflexivity].
  - rewrite andb_true_iff, IH. split.
    + intros [Hv Hr]. constructor; assumption.
    + intros H. inversion H; subst. tauto.
Qed.

(** The keys of a normalized object are the rewritten keys of the object. *)
Lemma transform_keys_dict_keys (items : list (string * json)) (k' : string) :
  (exists v', In (k', v')
                (match _transform_keys (JDict items) with
                 | JDict d => d
                 | _ => []
                 end)) ->
  exists k v, In (k, v) items /\ k' = _camel_to_snake k.
Proof.
  rewrite transform_keys_dict. intros [v' H].
  apply dict_of_items_in in H. apply in_map_iff in H as ([k v] & [= <- <-] & Hin).
  exists k, v. split; [exact Hin|reflexivity].
Qed.

Lemma transform_keys_idempotent (obj : json) :
  all_keys (fun k => negb (upper_then_digit k)) obj = true ->
  _transform_keys (_transform_keys obj) = _transform_keys obj.
Proof.
  induction obj as [| | | | |items IH|items IH] using json_induction;
    try reflexivity; intros Hok.
  - rewrite transform_keys_list. rewrite transform_keys_list. f_equal.
    apply all_keys_list in Hok. rewrite map_map.
    apply map_ext_in. intros v Hv.
    rewrite List.Forall_forall in IH, Hok. apply IH; [exact Hv|apply Hok; exact Hv].
  - rewrite transform_keys_dict.
    set (D := dict_of_items _).
    rewrite transform_keys_dict. f_equal.
    apply all_keys_dict in Hok. rewrite List.Forall_forall in IH, Hok.
    assert (Hmap : map (fun kv => (_camel_to_snake (fst kv), _transform_keys (snd kv))) D = D).
    { rewrite <- (map_id D) at 2. apply map_ext_in. intros [k' v'] Hin.
      subst D. apply dict_of_items_in in Hin.
      apply in_map_iff in Hin as ([k v] & [= <- <-] & Hin). cbn [fst snd].
      destruct (Hok _ Hin) as [Hk Hv]. pose proof (IH _ Hin Hv) as Hi.
      cbn [fst snd] in Hk, Hi. apply negb_true_iff in Hk.
      rewrite (camel_to_snake_idempotent k Hk), Hi. reflexivity. }
    rewrite Hmap. apply dict_of_items_id. subst D. apply dict_of_items_nodup.
Qed.

End KeyCasingFacts.

Section RecursionFacts.
Import KeyCasing.

Lemma max_leb (a b c : nat) : (Nat.max a b <=? c)%nat = (a <=? c)%nat && (b <=? c)%nat.
Proof.
  destruct (Nat.leb_spec a c), (Nat.leb_spec b c), (Nat.leb_spec (Nat.max a b) c);
    try reflexivity; lia.
Qed.

(** Within the limit the normalizer returns what the unbounded recursion
    computes; beyond it, it raises. *)
Lemma transform_keys_within_depth (obj : json) :
  forall calls : nat,
    _transform_keys_within calls obj
    = if (depth obj <=? calls)%nat then Some (_transform_keys obj) else None.
Proof.
  induction obj as [| | | | |items IH|items IH] using json_induction;
    intros calls; (destruct calls as [|calls]; [reflexivity|]); try reflexivity.
  - cbn [_transform_keys_within depth _transform_keys].
    change (S ?a <=? S calls)%nat with (a <=? calls)%nat.
    induction items as [|v items IHl]; [reflexivity|].
    inversion IH as [|? ? Hv Hr]; subst.
    rewrite Hv, max_leb. specialize (IHl Hr).
    destruct (depth v <=? calls)%nat; [|reflexivity].
    cbn [andb map].
    match type of IHl with
    | option_map JList ?o = _ => destruct o as [l|]
    end;
      match type of IHl with
      | _ = (if ?b then _ else _) => destruct b
      end; cbn in IHl |- *; congruence.
  - cbn [_transform_keys_within depth _transform_keys].
    change (S ?a <=? S calls)%nat with (a <=? calls)%nat.
    match goal with
    | |- option_map ?f ?o = (if ?b then Some (JDict (dict_of_items ?u)) else None) =>
        assert (Hin : o = if b then Some u else None);
          [|rewrite Hin; destruct b; reflexivity]
    end.
    induction items as [|[k v] items IHl]; [reflexivity|].
    inversion IH as [|? ? Hv Hr]; subst. cbn [snd] in Hv.
    rewrite Hv, max_leb, (IHl Hr).
    destruct (depth v <=? calls)%nat; [|reflexivity].
    cbn [andb].
    match goal with |- context [if ?b then _ else _] => destruct b end; reflexivity.
Qed.

Lemma depth_nested (n : nat) (v : json) : depth (nested n v) = (n + depth v)%nat.
Proof.
  induction n as [|n IH]; [reflexivity|].
  cbn [nested depth]. rewrite IH, Nat.max_0_r. reflexivity.
Qed.


(** The rewrite of a key of ASCII characters is one: the normalizer stays
    on documents with such keys. *)
Lemma to_lower_ascii (c : ascii) : is_ascii_char c = true -> is_ascii_char (to_lower c) = true.
Proof. destruct c as [[] [] [] [] [] [] [] []]; vm_compute; congruence. Qed.

Lemma camel_to_snake_chars_ascii (s : list ascii) :
  forallb is_ascii_char s = true ->
  forallb is_ascii_char (camel_to_snake_chars s) = true.
Proof.
  intros H. apply forallb_forall. intros c Hc.
  destruct (Ascii.eqb_spec c underscore) as [->|Hne]; [reflexivity|].
  assert (Hin : In c (without_underscores (camel_to_snake_chars s))).
  { unfold without_underscores. apply filter_In. split; [exact Hc|].
    apply negb_true_iff, Ascii.eqb_neq, Hne. }
  rewrite camel_without_underscores in Hin. unfold lower in Hin.
  apply in_map_iff in Hin as (c0 & <- & Hc0).
  unfold without_underscores in Hc0. apply filter_In in Hc0 as [Hc0 _].
  rewrite forallb_forall in H. apply to_lower_ascii, H, Hc0.
Qed.

Lemma camel_to_snake_ascii (key : string) :
  is_ascii key = true -> is_ascii (_camel_to_snake key) = true.
Proof.
  unfold is_ascii, _camel_to_snake. rewrite list_ascii_of_string_of_list_ascii.
  apply camel_to_snake_chars_ascii.
Qed.

Lemma transform_keys_ascii (obj : json) :
  all_keys is_ascii obj = true -> all_keys is_ascii (_transform_keys obj) = true.
Proof.
  induction obj as [| | | | |items IH|items IH] using json_induction;
    try reflexivity; intros Hok.
  - rewrite transform_keys_list. apply all_keys_list. apply all_keys_list in Hok.
    apply List.Forall_forall. intros v Hv. apply in_map_iff in Hv as (v0 & <- & Hv0).
    rewrite List.Forall_forall in IH, Hok. apply IH; [exact Hv0|apply Hok, Hv0].
  - rewrite transform_keys_dict. apply all_keys_dict. apply all_keys_dict in Hok.
    apply List.Forall_forall. intros kv Hkv. apply dict_of_items_in in Hkv.
    apply in_map_iff in Hkv as ([k v] & <- & Hin). cbn [fst snd].
    rewrite List.Forall_forall in IH, Hok. destruct (Hok _ Hin) as [Hk Hv].
    split; [apply camel_to_snake_ascii, Hk|apply (IH (k, v) Hin), Hv].
Qed.

End RecursionFacts.



Example transform_nested :
  KeyCasing._transform_keys
    (JDict [("data"%string,
             JList [JDict [("sourceId"%string, JStr "pm_1");
                           ("volume24h"%string, JInt 7);
                           ("source_id"%string, JStr "pm_2")]])])
  = JDict [("data"%string,
            JList [JDict [("source_id"%string, JStr "pm_2");
                          ("volume_24h"%string, JInt 7)]])].
Proof. reflexivity. Qed.

(** ** The request loop: retries, budget and immediate failures *)

Section RequestLoopFacts.
Import Errors RateLimitHeaders Transport Retrying.

Variable float_of_str : string -> option Q.
Variable net : nat -> net_result.
Variable rand : Z -> Q.
Variable c : Client.
Variable call : Call.

Lemma backoff_nonneg (a : Z) : (0 <= rand a)%Q -> (0 <= backoff rand a)%Q.
Proof.
  intros H. unfold backoff. pose proof (base_delay_pos a) as Hb.
  set (b := base_delay a) in *. nra.
Qed.

Lemma map_server_error (s : Z) (body : list (string * json)) (h : Headers) :
  500 <= s ->
  exists b, _map_status_to_error s body h = InternalServer b.
Proof.
  intros H. unfold _map_status_to_error.
  destruct (Z.eqb_spec s 401); [lia|].
  destruct (Z.eqb_spec s 402); [lia|].
  destruct (Z.eqb_spec s 403); [lia|].
  destruct (Z.eqb_spec s 404); [lia|].
  destruct (Z.eqb_spec s 429); [lia|].
  destruct (Z.leb_spec 500 s); [|lia].
  eexists. reflexivity.
Qed.

Lemma transient_no_retry_after (x : net_result) :
  transient x = true -> carries_retry_after (Some (failure_error c x)) = false.
Proof.
  destruct x as [r|[|text]]; simpl; [|reflexivity..].
  intros H. apply andb_true_iff in H as [H _]. apply Z.leb_le in H.
  destruct (map_server_error (status_code r)
              (match json_body r with Some (JDict body) => body | _ => [] end)
              (resp_headers r) H) as [b ->].
  reflexivity.
Qed.

Lemma attempts_transient_step (n : nat) (a : Z) (last : option error) (w : World) :
  (0 <= rand a)%Q ->
  carries_retry_after last = false ->
  transient (net (length (calls w))) = true ->
  attempts float_of_str net rand c call (S n) a last w
  = let w2 := mk_world (calls w ++ [call])
                (sleeps w ++ (if 0 <? a then [backoff rand a] else [])) in
    let e := failure_error c (net (length (calls w))) in
    if a <? max_retries c
    then attempts float_of_str net rand c call n (a + 1) (Some e) w2
    else (Raise (SDK e), w2).
Proof.
  intros Hr Hl Ht. cbn [attempts].
  rewrite (retry_delay_backoff float_of_str (rand a) a last Hl).
  fold (backoff rand a).
  assert (Hq : Qle_bool 0 (backoff rand a) = true)
    by (apply Qle_bool_iff, backoff_nonneg, Hr).
  rewrite Hq.
  destruct (0 <? a) eqn:Ha.
  - cbn [calls sleeps].
    destruct (net (length (calls w))) as [r|[|text]] eqn:Hn; simpl in Ht |- *.
    + apply andb_true_iff in Ht as [Hs Hb]. apply Z.leb_le in Hs.
      assert (Hsucc : is_success r = false).
      { unfold is_success. apply andb_false_iff. right. apply Z.leb_gt. lia. }
      rewrite Hsucc.
      assert (Hret : _is_retryable (status_code r) = true).
      { apply is_retryable_spec. right. exact Hs. }
      rewrite Hret. simpl.
      destruct (json_body r) as [[| | | | | |body]|]; try discriminate; reflexivity.
    + reflexivity.
    + reflexivity.
  - rewrite app_nil_r.
    destruct (net (length (calls w))) as [r|[|text]] eqn:Hn; simpl in Ht |- *.
    + apply andb_true_iff in Ht as [Hs Hb]. apply Z.leb_le in Hs.
      assert (Hsucc : is_success r = false).
      { unfold is_success. apply andb_false_iff. right. apply Z.leb_gt. lia. }
      rewrite Hsucc.
      assert (Hret : _is_retryable (status_code r) = true).
      { apply is_retryable_spec. right. exact Hs. }
      rewrite Hret. simpl.
      destruct w as [cs ss]. simpl.
      destruct (json_body r) as [[| | | | | |body]|]; try discriminate; reflexivity.
    + destruct w; reflexivity.
    + destruct w; reflexivity.
Qed.

(** The error kept after [k] calls that failed. *)
Lemma waits_app (a : Z) (k1 k2 : nat) :
  waits rand a (k1 + k2)
  = waits rand a k1 ++ waits rand (a + Z.of_nat k1) k2.
Proof.
  revert a. induction k1 as [|k1 IH]; intros a.
  - simpl. f_equal. lia.
  - cbn [Nat.add waits]. rewrite IH, <- app_assoc. do 3 f_equal. lia.
Qed.

Lemma waits_positive (a : Z) (k : nat) :
  0 < a ->
  waits rand a k = map (fun i => backoff rand (a + Z.of_nat i)) (seq 0 k).
Proof.
  revert a. induction k as [|k IH]; intros a Ha; [reflexivity|].
  cbn [waits seq map].
  destruct (Z.ltb_spec 0 a); [|lia].
  simpl. f_equal; [f_equal; lia|].
  rewrite IH by lia. rewrite <- seq_shift, map_map.
  apply map_ext. intros i. f_equal. lia.
Qed.

Lemma waits_backoffs (k : nat) : waits rand 0 (S k) = backoffs rand k.
Proof.
  cbn [waits]. simpl. rewrite waits_positive by lia.
  unfold backoffs. rewrite <- seq_shift, map_map.
  apply map_ext. intros i. f_equal. lia.
Qed.

Lemma attempts_transient_run (k : nat) :
  forall (n : nat) (a : Z) (last : option error) (w : World),
    (forall i, (0 <= rand i)%Q) ->
    carries_retry_after last = false ->
    (forall j, (j < k)%nat -> transient (net (length (calls w) + j)) = true) ->
    a + Z.of_nat k <= max_retries c ->
    attempts float_of_str net rand c call (k + n) a last w
    = attempts float_of_str net rand c call n (a + Z.of_nat k)
        (match k with
         | O => last
         | S k' => Some (failure_error c (net (length (calls w) + k')))
         end)
        (mk_world (calls w ++ replicate k call) (sleeps w ++ waits rand a k)).
Proof.
  induction k as [|k IH]; intros n a last w Hr Hl Ht Hk.
  - simpl. rewrite !app_nil_r, Z.add_0_r. destruct w; reflexivity.
  - assert (H0 : transient (net (length (calls w))) = true).
    { specialize (Ht 0%nat). rewrite Nat.add_0_r in Ht. apply Ht. lia. }
    cbn [Nat.add].
    rewrite (attempts_transient_step (k + n) a last w (Hr a) Hl H0).
    cbv zeta.
    destruct (Z.ltb_spec a (max_retries c)); [|lia].
    set (w2 := mk_world _ _).
    rewrite (IH n (a + 1) (Some (failure_error c (net (length (calls w))))) w2 Hr).
    + subst w2. cbn [calls sleeps]. f_equal.
      * lia.
      * destruct k as [|k']; [rewrite Nat.add_0_r; reflexivity|].
        rewrite length_app. simpl. do 3 f_equal. lia.
      * cbn [replicate waits]. rewrite <- !app_assoc. reflexivity.
    + apply transient_no_retry_after. exact H0.
    + intros j Hj. subst w2. cbn [calls]. rewrite length_app. simpl.
      replace (length (calls w) + 1 + j)%nat with (length (calls w) + S j)%nat by lia.
      apply Ht. lia.
    + lia.
Qed.

Lemma last_error_plain (k : nat) (last : option error) (w : World) :
  carries_retry_after last = false ->
  (forall j, (j < k)%nat -> transient (net (length (calls w) + j)) = true) ->
  carries_retry_after
    (match k with
     | O => last
     | S k' => Some (failure_error c (net (length (calls w) + k')))
     end) = false.
Proof.
  intros Hl Ht. destruct k as [|k']; [exact Hl|].
  apply transient_no_retry_after, Ht. lia.
Qed.

(** The loop never makes more calls than it has iterations; the calls are
    the same request; it waits before every call of a retry and at no other
    time, and never for a negative time. *)
Lemma attempts_budget (n : nat) :
  forall (a : Z) (last : option error) (w : World),
    0 <= a ->
    exists (k : nat) (ds : list Q),
      (k <= n)%nat /\
      calls (snd (attempts float_of_str net rand c call n a last w))
      = calls w ++ replicate k call /\
      sleeps (snd (attempts float_of_str net rand c call n a last w))
      = sleeps w ++ ds /\
      length ds = (if 0 <? a then k else pred k) /\
      Forall (fun d => (0 <= d)%Q) ds.
Proof.
  induction n as [|n IH]; intros a last w Ha.
  - exists 0%nat, []. simpl. rewrite !app_nil_r.
    split; [lia|]. split; [reflexivity|]. split; [reflexivity|].
    split; [destruct (0 <? a); reflexivity|constructor].
  - cbn [attempts].
    set (slept := if 0 <? a then _ else _).
    assert (Hs : (exists e, slept = Raise e) \/
                 (exists ds, slept = Return (mk_world (calls w) (sleeps w ++ ds)) /\
                             length ds = (if 0 <? a then 1%nat else 0%nat) /\
                             Forall (fun d => (0 <= d)%Q) ds)).
    { subst slept. destruct (0 <? a).
      - destruct (_get_retry_delay _ _ _ _) as [delay|e]; [|left; eauto].
        destruct (Qle_bool 0 delay) eqn:Hd; [|left; eauto].
        right. exists [delay]. repeat split; auto.
        constructor; [apply Qle_bool_iff; exact Hd|constructor].
      - right. exists []. rewrite app_nil_r. destruct w. repeat split; auto. }
    destruct Hs as [[e ->]|(ds & -> & Hlen & Hpos)].
    + exists 0%nat, []. simpl. rewrite !app_nil_r.
      split; [lia|]. split; [reflexivity|]. split; [reflexivity|].
      split; [destruct (0 <? a); reflexivity|constructor].
    + cbn [calls sleeps].
      assert (Hone : forall r : result Success,
                exists (k : nat) (ds' : list Q),
                  (k <= S n)%nat /\
                  calls (snd (r, mk_world (calls w ++ [call]) (sleeps w ++ ds)))
                  = calls w ++ replicate k call /\
                  sleeps (snd (r, mk_world (calls w ++ [call]) (sleeps w ++ ds)))
                  = sleeps w ++ ds' /\
                  length ds' = (if 0 <? a then k else pred k) /\
                  Forall (fun d => (0 <= d)%Q) ds').
      { intros r. exists 1%nat, ds. simpl.
        split; [lia|]. split; [reflexivity|]. split; [reflexivity|].
        split; [|exact Hpos].
        rewrite Hlen. destruct (0 <? a); reflexivity. }
      assert (Hmore : forall e : error,
                exists (k : nat) (ds' : list Q),
                  (k <= S n)%nat /\
                  calls (snd (attempts float_of_str net rand c call n (a + 1) (Some e)
                                (mk_world (calls w ++ [call]) (sleeps w ++ ds))))
                  = calls w ++ replicate k call /\
                  sleeps (snd (attempts float_of_str net rand c call n (a + 1) (Some e)
                                 (mk_world (calls w ++ [call]) (sleeps w ++ ds))))
                  = sleeps w ++ ds' /\
                  length ds' = (if 0 <? a then k else pred k) /\
                  Forall (fun d => (0 <= d)%Q) ds').
      { intros e.
        destruct (IH (a + 1) (Some e) (mk_world (calls w ++ [call]) (sleeps w ++ ds)))
          as (k & ds' & Hk & Hc & Hsl & Hl' & Hp'); [lia|].
        exists (S k), (ds ++ ds'). cbn [calls sleeps] in Hc, Hsl.
        split; [lia|]. split; [rewrite Hc, <- app_assoc; reflexivity|].
        split; [rewrite Hsl, <- app_assoc; reflexivity|].
        split; [|apply Forall_app; split; assumption].
        rewrite length_app, Hlen, Hl'.
        destruct (Z.ltb_spec 0 (a + 1)); [|lia].
        destruct (0 <? a); simpl; lia. }
      destruct (net (length (calls w))) as [r|[|text]].
      * destruct (is_success r).
        -- destruct (json_body r); [|apply Hone].
           destruct (parse_rate_limit_headers _); apply Hone.
        -- destruct (match json_body r with Some b => b | None => JDict [] end);
             try apply Hone.
           destruct (_ && _); [apply Hmore|apply Hone].
      * destruct (a <? max_retries c); [apply Hmore|apply Hone].
      * destruct (a <? max_retries c); [apply Hmore|apply Hone].
Qed.

Lemma attempts_success_step (n : nat) (a : Z) (last : option error) (w : World)
    (r : Response) (data : json) (info : option RateLimitInfo) :
  (0 <= rand a)%Q ->
  carries_retry_after last = false ->
  net (length (calls w)) = Responded r ->
  is_success r = true ->
  json_body r = Some data ->
  parse_rate_limit_headers (resp_headers r) = Return info ->
  attempts float_of_str net rand c call (S n) a last w
  = (Return (data, info, r),
     mk_world (calls w ++ [call])
       (sleeps w ++ (if 0 <? a then [backoff rand a] else []))).
Proof.
  intros Hr Hl Hn Hs Hb Hp. cbn [attempts].
  rewrite (retry_delay_backoff float_of_str (rand a) a last Hl).
  fold (backoff rand a).
  assert (Hq : Qle_bool 0 (backoff rand a) = true)
    by (apply Qle_bool_iff, backoff_nonneg, Hr).
  rewrite Hq.
  destruct (0 <? a); cbn [calls sleeps]; rewrite Hn, Hs, Hb, Hp.
  - reflexivity.
  - rewrite app_nil_r. reflexivity.
Qed.

Lemma attempts_none_left (a : Z) (w : World) :
  attempts float_of_str net rand c call 0 a None w
  = (Raise (SDK (PropheseerError (JStr "Request failed after retries")
                   None JNull None)), w).
Proof. reflexivity. Qed.

End RequestLoopFacts.

Section RequestFacts.
Import Errors RateLimitHeaders Transport Retrying.

Variable float_of_str : string -> option Q.
Variable net : nat -> net_result.
Variable rand : Z -> Q.

Lemma request_enters_loop (c : Client) (method path : string)
    (query : option (list (string * json))) (body : option json) (auth : bool)
    (w : World) :
  auth && negb (str_truthy (api_key c)) = false ->
  _request float_of_str net rand c method path query body auth w
  = attempts float_of_str net rand c
      (mk_call method path query (request_headers c auth) body)
      (Z.to_nat (max_retries c + 1)) 0 None w.
Proof. intros H. unfold _request. rewrite H. reflexivity. Qed.

End RequestFacts.

(** X1. Whatever the network answers, a request makes at most
    [max_retries + 1] calls, all of them the same call; it waits once between
    two consecutive calls and at no other time, and never for a negative
    time. *)
Theorem request_call_budget (float_of_str : string -> option Q)
    (net : nat -> Transport.net_result) (rand : Z -> Q) (c : Transport.Client)
    (method path : string) (query : option (list (string * json)))
    (body : option json) (auth : bool) (w : Transport.World) :
  let out := Transport._request float_of_str net rand c method path query body auth w in
  let call := Transport.mk_call method path query (Transport.request_headers c auth) body in
  exists (k : nat) (ds : list Q),
    (k <= Z.to_nat (Transport.max_retries c + 1))%nat /\
    Transport.calls (snd out) = Transport.calls w ++ replicate k call /\
    Transport.sleeps (snd out) = Transport.sleeps w ++ ds /\
    length ds = pred k /\
    Forall (fun d => (0 <= d)%Q) ds.
Proof.
  intros out call. subst out. unfold Transport._request.
  destruct (auth && negb (Transport.str_truthy (Transport.api_key c))).
  - exists 0%nat, []. simpl. rewrite !app_nil_r.
    split; [lia|]. repeat split. constructor.
  - fold call.
    destruct (attempts_budget float_of_str net rand c call
                (Z.to_nat (Transport.max_retries c + 1)) 0 None w)
      as (k & ds & Hk & Hc & Hs & Hl & Hp); [lia|].
    exists k, ds. repeat split; assumption.
Qed.

Lemma request_retries_exhausted (float_of_str : string -> option Q)
    (net : nat -> Transport.net_result) (rand : Z -> Q) (c : Transport.Client)
    (method path : string) (query : option (list (string * json)))
    (body : option json) (auth : bool) (w : Transport.World) :
  0 <= Transport.max_retries c ->
  (forall a, (0 <= rand a)%Q) ->
  auth && negb (Transport.str_truthy (Transport.api_key c)) = false ->
  (forall j, (j <= Z.to_nat (Transport.max_retries c))%nat ->
     Retrying.transient (net (length (Transport.calls w) + j)%nat) = true) ->
  let m := Z.to_nat (Transport.max_retries c) in
  let call := Transport.mk_call method path query (Transport.request_headers c auth) body in
  Transport._request float_of_str net rand c method path query body auth w
  = (Raise (SDK (Retrying.failure_error c (net (length (Transport.calls w) + m)%nat))),
     Transport.mk_world (Transport.calls w ++ replicate (S m) call)
       (Transport.sleeps w ++ Retrying.backoffs rand m)).
Proof.
  intros Hm Hr Ha Ht m call.
  rewrite (request_enters_loop float_of_str net rand c method path query body auth w Ha).
  fold call.
  replace (Z.to_nat (Transport.max_retries c + 1)) with (m + 1)%nat by (subst m; lia).
  rewrite (attempts_transient_run float_of_str net rand c call m 1 0 None w Hr eq_refl).
  - set (last := match m with O => None | S k' => _ end).
    set (wm := Transport.mk_world _ _).
    assert (Hlen : length (Transport.calls wm) = (length (Transport.calls w) + m)%nat).
    { subst wm. simpl. rewrite length_app, length_replicate. reflexivity. }
    rewrite (attempts_transient_step float_of_str net rand c call 0 (0 + Z.of_nat m) last wm).
    + cbv zeta. rewrite Hlen.
      destruct (Z.ltb_spec (0 + Z.of_nat m) (Transport.max_retries c)); [subst m; lia|].
      f_equal. subst wm. cbn [Transport.calls Transport.sleeps]. f_equal.
      * rewrite <- app_assoc. f_equal.
        change [call] with (replicate 1 call). rewrite <- replicate_add.
        f_equal. lia.
      * rewrite <- app_assoc. f_equal. rewrite <- waits_backoffs.
        replace (S m) with (m + 1)%nat by lia. rewrite waits_app.
        cbn [Retrying.waits]. rewrite app_nil_r. reflexivity.
    + apply Hr.
    + subst last. apply (last_error_plain net c m None w eq_refl).
      intros j Hj. apply Ht. lia.
    + rewrite Hlen. apply Ht. lia.
  - intros j Hj. apply Ht. lia.
  - subst m. lia.
Qed.

(** X2. When every call fails in a way the loop retries with the backoff
    (the transport fails, or the server answers 500 or above), a request
    with [max_retries = m >= 0] makes exactly [m + 1] calls, waits the
    backoff delays of the attempts 1 to [m] between them, and raises the
    error of the last call. *)
Theorem retries_exhausted (float_of_str : string -> option Q)
    (net : nat -> Transport.net_result) (rand : Z -> Q) (c : Transport.Client)
    (method path : string) (query : option (list (string * json)))
    (body : option json) (auth : bool) (w : Transport.World) :
  0 <= Transport.max_retries c ->
  (forall a, (0 <= rand a)%Q) ->
  auth && negb (Transport.str_truthy (Transport.api_key c)) = false ->
  (forall j, (j <= Z.to_nat (Transport.max_retries c))%nat ->
     Retrying.transient (net (length (Transport.calls w) + j)%nat) = true) ->
  let m := Z.to_nat (Transport.max_retries c) in
  let call := Transport.mk_call method path query (Transport.request_headers c auth) body in
  Transport._request float_of_str net rand c method path query body auth w
  = (Raise (SDK (Retrying.failure_error c (net (length (Transport.calls w) + m)%nat))),
     Transport.mk_world (Transport.calls w ++ replicate (S m) call)
       (Transport.sleeps w ++ Retrying.backoffs rand m)).
Proof.
  exact (request_retries_exhausted float_of_str net rand c method path query body auth w).
Qed.

Lemma retries_exhausted_witness :
  let c := Transport.BaseSyncClient (Some "pk_test_123"%string) None
             "https://api.propheseer.com" "30.0" None in
  let net := fun _ : nat => Transport.Failed Errors.TimeoutException in
  let rand := fun _ : Z => (1 # 2)%Q in
  Transport._request (fun _ => None) net rand c "GET" "/v1/markets" None None true
    (Transport.mk_world [] [])
  = (Raise (SDK (Retrying.failure_error c (net (0 + 2)%nat))),
     Transport.mk_world
       ([] ++ replicate 3 (Transport.mk_call "GET" "/v1/markets" None
                             (Transport.request_headers c true) None))
       ([] ++ Retrying.backoffs rand 2)).
Proof.
  intros c net rand.
  apply (retries_exhausted (fun _ => None) net rand c "GET" "/v1/markets" None None
           true (Transport.mk_world [] [])).
  - simpl. lia.
  - intros a. subst rand. simpl. discriminate.
  - reflexivity.
  - intros j Hj. reflexivity.
Defined.

(** X3. When the first [k] calls fail in a way the loop retries with the
    backoff, with [k] at most [max_retries], and the next call is answered
    with success, a JSON body and rate-limit headers the parser accepts, the
    request returns that body, the snapshot and the response after exactly
    [k + 1] calls and the backoff delays of the attempts 1 to [k]. *)
Theorem retry_recovers (float_of_str : string -> option Q)
    (net : nat -> Transport.net_result) (rand : Z -> Q) (c : Transport.Client)
    (method path : string) (query : option (list (string * json)))
    (body : option json) (auth : bool) (w : Transport.World)
    (k : nat) (r : Transport.Response) (data : json)
    (info : option RateLimitHeaders.RateLimitInfo) :
  (forall a, (0 <= rand a)%Q) ->
  auth && negb (Transport.str_truthy (Transport.api_key c)) = false ->
  Z.of_nat k <= Transport.max_retries c ->
  (forall j, (j < k)%nat ->
     Retrying.transient (net (length (Transport.calls w) + j)%nat) = true) ->
  net (length (Transport.calls w) + k)%nat = Transport.Responded r ->
  Transport.is_success r = true ->
  Transport.json_body r = Some data ->
  RateLimitHeaders.parse_rate_limit_headers (Transport.resp_headers r) = Return info ->
  let call := Transport.mk_call method path query (Transport.request_headers c auth) body in
  Transport._request float_of_str net rand c method path query body auth w
  = (Return (data, info, r),
     Transport.mk_world (Transport.calls w ++ replicate (S k) call)
       (Transport.sleeps w ++ Retrying.backoffs rand k)).
Proof.
  intros Hr Ha Hk Ht Hn Hs Hb Hp call.
  rewrite (request_enters_loop float_of_str net rand c method path query body auth w Ha).
  fold call.
  replace (Z.to_nat (Transport.max_retries c + 1))
    with (k + S (Z.to_nat (Transport.max_retries c) - k))%nat by lia.
  rewrite (attempts_transient_run float_of_str net rand c call k _ 0 None w Hr eq_refl Ht)
    by lia.
  set (last := match k with O => None | S k' => _ end).
  set (wk := Transport.mk_world _ _).
  assert (Hlen : length (Transport.calls wk) = (length (Transport.calls w) + k)%nat).
  { subst wk. simpl. rewrite length_app, length_replicate. reflexivity. }
  rewrite (attempts_success_step float_of_str net rand c call _ (0 + Z.of_nat k)
             last wk r data info).
  - f_equal. subst wk. cbn [Transport.calls Transport.sleeps]. f_equal.
    + rewrite <- app_assoc. f_equal.
      change [call] with (replicate 1 call). rewrite <- replicate_add.
      f_equal. lia.
    + rewrite <- app_assoc. f_equal. rewrite <- waits_backoffs.
      replace (S k) with (k + 1)%nat by lia. rewrite waits_app.
      cbn [Retrying.waits]. rewrite app_nil_r. reflexivity.
  - apply Hr.
  - subst last. apply (last_error_plain net c k None w eq_refl Ht).
  - rewrite Hlen. exact Hn.
  - exact Hs.
  - exact Hb.
  - exact Hp.
Qed.

Lemma retry_recovers_witness :
  let c := Transport.BaseSyncClient (Some "pk_test_123"%string) None
             "https://api.propheseer.com" "30.0" None in
  let ok := Transport.mk_response 200 (Some (JDict [])) [] in
  let net := fun n : nat =>
               match n with
               | O => Transport.Failed Errors.TimeoutException
               | S _ => Transport.Responded ok
               end in
  let rand := fun _ : Z => (1 # 2)%Q in
  Transport._request (fun _ => None) net rand c "GET" "/v1/markets" None None true
    (Transport.mk_world [] [])
  = (Return (JDict [], None, ok),
     Transport.mk_world
       ([] ++ replicate 2 (Transport.mk_call "GET" "/v1/markets" None
                             (Transport.request_headers c true) None))
       ([] ++ Retrying.backoffs rand 1)).
Proof.
  intros c ok net rand.
  apply (retry_recovers (fun _ => None) net rand c "GET" "/v1/markets" None None
           true (Transport.mk_world [] []) 1 ok (JDict []) None).
  - intros a. subst rand. simpl. discriminate.
  - reflexivity.
  - simpl. lia.
  - intros j Hj. assert (j = 0%nat) as -> by lia. reflexivity.
  - reflexivity.
  - reflexivity.
  - reflexivity.
  - reflexivity.
Defined.



(** X5. A 429 whose [retryAfter] is true as a Python value but is not a
    number that can be waited for makes the request raise a built-in
    exception in place of the rate-limit error: the exception of [float]
    when the value cannot be converted, [ValueError] from [time.sleep] when
    it is negative.  One call has been made and nothing has been waited. *)
Theorem unusable_retry_after_raises (float_of_str : string -> option Q)
    (net : nat -> Transport.net_result) (rand : Z -> Q) (c : Transport.Client)
    (method path : string) (query : option (list (string * json)))
    (body : option json) (auth : bool) (w : Transport.World)
    (r : Transport.Response) (error_body : list (string * json)) :
  0 < Transport.max_retries c ->
  auth && negb (Transport.str_truthy (Transport.api_key c)) = false ->
  net (length (Transport.calls w)) = Transport.Responded r ->
  Transport.status_code r = 429 ->
  Transport.json_body r = Some (JDict error_body) ->
  truthy (dict_get error_body "retryAfter") = true ->
  let after :=
    Transport.mk_world
      (Transport.calls w
       ++ [Transport.mk_call method path query (Transport.request_headers c auth) body])
      (Transport.sleeps w) in
  match Transport.py_float float_of_str (dict_get error_body "retryAfter") with
  | Raise e =>
      Transport._request float_of_str net rand c method path query body auth w
      = (Raise e, after)
  | Return delay =>
      (delay < 0)%Q ->
      Transport._request float_of_str net rand c method path query body auth w
      = (Raise (Builtin ValueError), after)
  end.
Proof.
  intros Hm Ha Hn Hst Hb Ht after.
  rewrite (request_enters_loop float_of_str net rand c method path query body auth w Ha).
  replace (Z.to_nat (Transport.max_retries c + 1))
    with (S (S (Z.to_nat (Transport.max_retries c - 1)))) by lia.
  set (n1 := S (Z.to_nat (Transport.max_retries c - 1))).
  cbn [Transport.attempts]. change (0 <? 0) with false. cbv beta iota zeta.
  rewrite Hn.
  assert (Hs : Transport.is_success r = false).
  { unfold Transport.is_success. rewrite Hst. reflexivity. }
  rewrite Hs, Hb. cbv beta iota zeta. rewrite Hst.
  change (Errors._is_retryable 429) with true.
  destruct (Z.ltb_spec 0 (Transport.max_retries c)); [|lia].
  cbv beta iota. subst n1. cbn [Transport.attempts]. change (0 <? 0 + 1) with true.
  cbv iota.
  change (Errors._map_status_to_error 429 error_body (Transport.resp_headers r))
    with (Errors.RateLimitError
            (py_or (dict_get error_body "error")
               (py_or (dict_get error_body "message")
                  (JStr ("API error: " ++ Errors.str_of_int 429))))
            (dict_get error_body "retryAfter")
            (Some (Errors.Headers_items (Transport.resp_headers r)))).
  unfold Errors.RateLimitError. cbn [Transport._get_retry_delay]. rewrite Ht.
  destruct (Transport.py_float float_of_str (dict_get error_body "retryAfter"))
    as [delay|e].
  - intros Hneg.
    assert (Hq : Qle_bool 0 delay = false).
    { destruct (Qle_bool 0 delay) eqn:Hq; [|reflexivity].
      apply Qle_bool_iff in Hq. lra. }
    rewrite Hq. reflexivity.
  - reflexivity.
Qed.

Lemma unusable_retry_after_raises_witness :
  let c := Transport.BaseSyncClient (Some "pk_test_123"%string) None
             "https://api.propheseer.com" "30.0" None in
  let r := Transport.mk_response 429 (Some (JDict [("retryAfter"%string, JStr "soon")])) [] in
  Transport._request (fun _ => None) (fun _ => Transport.Responded r) (fun _ => 0%Q) c
    "GET" "/v1/markets" None None true (Transport.mk_world [] [])
  = (Raise (Builtin ValueError),
     Transport.mk_world
       ([] ++ [Transport.mk_call "GET" "/v1/markets" None
                 (Transport.request_headers c true) None])
       []).
Proof.
  intros c r.
  apply (unusable_retry_after_raises (fun _ => None) (fun _ => Transport.Responded r)
           (fun _ => 0%Q) c "GET" "/v1/markets" None None true
           (Transport.mk_world [] []) r [("retryAfter"%string, JStr "soon")]).
  - simpl. lia.
  - reflexivity.
  - reflexivity.
  - reflexivity.
  - reflexivity.
  - reflexivity.
Defined.

(** X6. With a negative [max_retries] the loop has no iteration: a request
    that passes the credential check makes no call, waits for nothing, and
    raises the generic error ["Request failed after retries"], which has no
    status and no code. *)
Theorem negative_max_retries_fails_locally (float_of_str : string -> option Q)
    (net : nat -> Transport.net_result) (rand : Z -> Q) (c : Transport.Client)
    (method path : string) (query : option (list (string * json)))
    (body : option json) (auth : bool) (w : Transport.World) :
  Transport.max_retries c < 0 ->
  auth && negb (Transport.str_truthy (Transport.api_key c)) = false ->
  Transport._request float_of_str net rand c method path query body auth w
  = (Raise (SDK (Errors.Generic
                   (Errors.mk_base (JStr "Request failed after retries") None JNull None))),
     w).
Proof.
  intros Hm Ha.
  rewrite (request_enters_loop float_of_str net rand c method path query body auth w Ha).
  replace (Z.to_nat (Transport.max_retries c + 1)) with 0%nat by lia.
  reflexivity.
Qed.

Lemma negative_max_retries_fails_locally_witness :
  let c := Transport.BaseSyncClient (Some "pk_test_123"%string) None
             "https://api.propheseer.com" "30.0" (Some (-1)) in
  Transport._request (fun _ => None)
    (fun _ => Transport.Responded (Transport.mk_response 200 (Some (JDict [])) []))
    (fun _ => 0%Q) c "GET" "/v1/markets" None None true (Transport.mk_world [] [])
  = (Raise (SDK (Errors.Generic
                   (Errors.mk_base (JStr "Request failed after retries") None JNull None))),
     Transport.mk_world [] []).
Proof.
  intros c.
  apply (negative_max_retries_fails_locally (fun _ => None)
           (fun _ => Transport.Responded (Transport.mk_response 200 (Some (JDict [])) []))
           (fun _ => 0%Q) c "GET" "/v1/markets" None None true (Transport.mk_world [] [])).
  - simpl. lia.
  - reflexivity.
Defined.

(** X7. The retry test and the mapper agree: a status is retried exactly
    when the mapper turns it into a rate-limit error or an internal server
    error.  The error the mapper builds always carries the status it was
    built from and is never a connection error. *)
Theorem retried_statuses_are_rate_limit_or_server
    (status_code : Z) (body : list (string * json)) (hdrs : Errors.Headers) :
  let e := Errors._map_status_to_error status_code body hdrs in
  (Errors._is_retryable status_code = true <->
   Retrying.kind_of e = Retrying.KRateLimit \/
   Retrying.kind_of e = Retrying.KInternalServer) /\
  Errors.status (Errors.base_of e) = Some status_code /\
  Retrying.kind_of e <> Retrying.KConnection.
Proof.
  intros e. subst e. unfold Errors._map_status_to_error, Errors._is_retryable.
  destruct (Z.eqb_spec status_code 401) as [->|H1].
  { simpl. repeat split; try discriminate. intros [H|H]; discriminate. }
  destruct (Z.eqb_spec status_code 402) as [->|H2].
  { simpl. repeat split; try discriminate. intros [H|H]; discriminate. }
  destruct (Z.eqb_spec status_code 403) as [->|H3].
  { simpl. repeat split; try discriminate. intros [H|H]; discriminate. }
  destruct (Z.eqb_spec status_code 404) as [->|H4].
  { simpl. repeat split; try discriminate. intros [H|H]; discriminate. }
  destruct (Z.eqb_spec status_code 429) as [->|H5].
  { simpl. repeat split; try discriminate. intros _. left. reflexivity. }
  destruct (Z.leb_spec 500 status_code) as [H6|H6].
  - unfold Errors.InternalServerError. simpl.
    destruct (Z.eqb_spec status_code 0); [lia|].
    repeat split; try discriminate. intros _. right. reflexivity.
  - simpl. repeat split; try discriminate. intros [H|H]; discriminate.
Qed.

(** ** Addresses *)

Section UrlFacts.
Import Transport Url.

Lemma list_ascii_of_string_app (s1 s2 : string) :
  list_ascii_of_string (s1 ++ s2)
  = list_ascii_of_string s1 ++ list_ascii_of_string s2.
Proof. induction s1 as [|ch s1 IH]; [reflexivity|]. simpl. rewrite IH. reflexivity. Qed.

Lemma string_of_list_ascii_app (l1 l2 : list ascii) :
  string_of_list_ascii (l1 ++ l2)
  = (string_of_list_ascii l1 ++ string_of_list_ascii l2)%string.
Proof. induction l1 as [|ch l1 IH]; [reflexivity|]. simpl. rewrite IH. reflexivity. Qed.

Lemma quoter_clean (ch : ascii) :
  forallb (fun x => (always_safe x || Ascii.eqb x "%") && negb (delimiter x))
    (quoter ch) = true.
Proof. destruct ch as [[] [] [] [] [] [] [] []]; reflexivity. Qed.

Lemma quote_chars_clean (s : list ascii) :
  forallb (fun x => (always_safe x || Ascii.eqb x "%") && negb (delimiter x))
    (quote_chars s) = true.
Proof.
  induction s as [|ch s IH]; [reflexivity|].
  unfold quote_chars. cbn [flat_map]. rewrite forallb_app, quoter_clean. exact IH.
Qed.

Lemma unquote_quoter (ch : ascii) (rest : list ascii) :
  unquote_chars (quoter ch ++ rest) = ch :: unquote_chars rest.
Proof. destruct ch as [[] [] [] [] [] [] [] []]; reflexivity. Qed.

Lemma unquote_quote_chars (s : list ascii) : unquote_chars (quote_chars s) = s.
Proof.
  induction s as [|ch s IH]; [reflexivity|].
  unfold quote_chars. cbn [flat_map]. rewrite unquote_quoter. f_equal. exact IH.
Qed.

Lemma quote_injective (s1 s2 : string) : quote s1 = quote s2 -> s1 = s2.
Proof.
  unfold quote. intros H.
  apply (f_equal list_ascii_of_string) in H.
  rewrite !list_ascii_of_string_of_list_ascii in H.
  apply (f_equal unquote_chars) in H. rewrite !unquote_quote_chars in H.
  apply (f_equal string_of_list_ascii) in H.
  rewrite !string_of_list_ascii_of_string in H. exact H.
Qed.

Lemma string_app_assoc (s1 s2 s3 : string) :
  ((s1 ++ s2) ++ s3 = s1 ++ s2 ++ s3)%string.
Proof.
  induction s1 as [|ch s1 IH]; [reflexivity|].
  change (String ch ((s1 ++ s2) ++ s3) = String ch (s1 ++ s2 ++ s3))%string.
  f_equal. exact IH.
Qed.

Lemma append_inj_l (p s1 s2 : string) : (p ++ s1 = p ++ s2)%string -> s1 = s2.
Proof.
  induction p as [|ch p IH]; [trivial|]. simpl. intros [= H]. apply IH, H.
Qed.

End UrlFacts.

(** X8. [quote(s, safe="")] writes only letters, digits, the four marks
    [_ . - ~] and percent signs, whatever the text.  So what follows
    [/v1/markets/] in the path of [get], and what follows [api_key=] in the
    address of [connect], holds no slash, question mark, hash, ampersand,
    equals sign, plus, space, colon or at sign. *)
Theorem quote_leaves_no_delimiter :
  (forall s,
     Forall (fun ch => Url.always_safe ch = true \/ ch = "%"%char)
            (list_ascii_of_string (Url.quote s))) /\
  (forall market_id, exists segment,
     Markets.market_path market_id = ("/v1/markets/" ++ segment)%string /\
     Forall (fun ch => Url.delimiter ch = false) (list_ascii_of_string segment)) /\
  (forall e, exists value,
     WebSocketThread.connect_url e
     = (WebSocketThread._base_url e ++ "/ws?api_key=" ++ value)%string /\
     Forall (fun ch => Url.delimiter ch = false) (list_ascii_of_string value)).
Proof.
  assert (Hq : forall s ch,
            In ch (list_ascii_of_string (Url.quote s)) ->
            (Url.always_safe ch = true \/ ch = "%"%char) /\ Url.delimiter ch = false).
  { intros s ch Hin. unfold Url.quote in Hin.
    rewrite list_ascii_of_string_of_list_ascii in Hin.
    pose proof (quote_chars_clean (list_ascii_of_string s)) as H.
    rewrite forallb_forall in H. apply H in Hin.
    apply andb_true_iff in Hin as [H1 H2]. split.
    - apply orb_true_iff in H1 as [H1|H1]; [left; exact H1|right].
      apply Ascii.eqb_eq. exact H1.
    - apply negb_true_iff. exact H2. }
  split; [|split].
  - intros s. apply List.Forall_forall. intros ch Hin. apply (Hq s ch Hin).
  - intros market_id. exists (Url.quote market_id). split; [reflexivity|].
    apply List.Forall_forall. intros ch Hin. apply (Hq market_id ch Hin).
  - intros e. exists (Url.quote (WebSocketThread._api_key e)). split; [reflexivity|].
    apply List.Forall_forall. intros ch Hin. apply (Hq _ ch Hin).
Qed.

(** X9. [quote(s, safe="")] loses nothing: reading the percent groups back
    gives the text again.  So two different market ids never give the same
    path in [get], and two different keys never the same address in
    [connect] on one base address. *)
Theorem quote_is_injective :
  (forall s,
     string_of_list_ascii (Url.unquote_chars (list_ascii_of_string (Url.quote s))) = s) /\
  (forall s1 s2, Url.quote s1 = Url.quote s2 -> s1 = s2) /\
  (forall id1 id2, Markets.market_path id1 = Markets.market_path id2 -> id1 = id2) /\
  (forall base key1 key2,
     WebSocketThread.connect_url (WebSocketThread.mk_endpoint key1 base)
     = WebSocketThread.connect_url (WebSocketThread.mk_endpoint key2 base) ->
     key1 = key2).
Proof.
  split; [|split; [|split]].
  - intros s. unfold Url.quote. rewrite list_ascii_of_string_of_list_ascii.
    rewrite unquote_quote_chars. apply string_of_list_ascii_of_string.
  - exact quote_injective.
  - intros id1 id2 H. unfold Markets.market_path in H.
    apply append_inj_l in H. apply quote_injective, H.
  - intros base key1 key2 H. unfold WebSocketThread.connect_url in H. simpl in H.
    apply append_inj_l in H. apply (append_inj_l "/ws?api_key=") in H.
    apply quote_injective, H.
Qed.

Section BuildUrlFacts.
Import Transport Url.

Variable repr_other : json -> string.

Lemma filter_filter {A : Type} (f : A -> bool) (l : list A) :
  List.filter f (List.filter f l) = List.filter f l.
Proof.
  induction l as [|x l IH]; [reflexivity|]. simpl.
  destruct (f x) eqn:Hx; [|exact IH]. simpl. rewrite Hx, IH. reflexivity.
Qed.

Lemma filter_none {A : Type} (f : A -> bool) (l : list A) :
  forallb (fun x => negb (f x)) l = true -> List.filter f l = [].
Proof.
  induction l as [|x l IH]; [reflexivity|]. simpl.
  intros H. apply andb_true_iff in H as [Hx Hl].
  apply negb_true_iff in Hx. rewrite Hx. apply IH, Hl.
Qed.

Lemma query_params_filter (q : list (string * json)) :
  query_params repr_other (List.filter (fun kv => negb (is_none (snd kv))) q)
  = query_params repr_other q.
Proof. unfold query_params. rewrite filter_filter. reflexivity. Qed.

Lemma build_url_nonempty (c : Client) (path : string) (q : list (string * json)) :
  _build_url repr_other c path (Some q)
  = match query_params repr_other q with
    | [] => (base_url c ++ path)%string
    | params => (base_url c ++ path ++ "?" ++ query_string params)%string
    end.
Proof.
  unfold _build_url. destruct q as [|kv q]; [reflexivity|].
  cbv beta iota zeta.
  destruct (query_params repr_other (kv :: q)); [reflexivity|].
  apply string_app_assoc.
Qed.

End BuildUrlFacts.

(** X10. [_build_url] leaves out the parameters whose value is [None]: with
    or without them the address is the same.  A query that is absent, empty
    or holds only [None] values gives the base address followed by the path,
    with no question mark.  Otherwise the address is the base address, the
    path, a question mark and the parameters that are left, in the order of
    the query, each written [key=str(value)] and joined by ampersands; the
    values are written as they are, a text is not encoded. *)
Theorem build_url_drops_none (repr_other : json -> string)
    (c : Transport.Client) (path : string) :
  let build := Url._build_url repr_other c path in
  let present := fun kv : string * json => negb (Url.is_none (snd kv)) in
  build None = (Transport.base_url c ++ path)%string /\
  (forall q, build (Some q) = build (Some (List.filter present q))) /\
  (forall q, forallb (fun kv => Url.is_none (snd kv)) q = true ->
     build (Some q) = (Transport.base_url c ++ path)%string) /\
  (forall q kv rest,
     List.NoDup (map fst q) ->
     List.filter present q = kv :: rest ->
     build (Some q)
     = (Transport.base_url c ++ path ++ "?"
        ++ String.concat "&"
             (map (fun kv => (fst kv ++ "=" ++ Url.py_str repr_other (snd kv))%string)
                (kv :: rest)))%string) /\
  (forall k text,
     build (Some [(k, JStr text)])
     = (Transport.base_url c ++ path ++ "?" ++ k ++ "=" ++ text)%string).
Proof.
  intros build present. subst build.
  split; [reflexivity|]. split; [|split; [|split]].
  - intros q. rewrite !build_url_nonempty.
    fold present. unfold present. rewrite query_params_filter. reflexivity.
  - intros q Hq. rewrite build_url_nonempty. unfold Url.query_params.
    rewrite filter_none; [reflexivity|].
    rewrite forallb_forall in *. intros kv Hin. rewrite negb_involutive.
    apply Hq, Hin.
  - intros q kv rest Hnd Hf. rewrite build_url_nonempty. unfold Url.query_params.
    fold present. rewrite dict_of_items_id.
    + rewrite Hf. cbn [map]. unfold Url.query_string. cbn [map fst snd].
      rewrite map_map. reflexivity.
    + rewrite map_map. cbn [fst].
      clear Hf. induction q as [|x q IH]; [constructor|].
      inversion Hnd as [|? ? Hx Hq]; subst. simpl.
      destruct (present x); [|apply IH, Hq].
      simpl. constructor; [|apply IH, Hq].
      intros Hin. apply Hx. apply in_map_iff in Hin as (y & Hy & Hin).
      apply filter_In in Hin as [Hin _]. apply in_map_iff. exists y. split; assumption.
  - intros k text. rewrite build_url_nonempty. reflexivity.
Qed.

Section BaseUrlFacts.
Import Transport Url.

Lemma rstrip_no_trailing_slash (l pre : list ascii) :
  rstrip_slash_chars l <> pre ++ ["/"%char].
Proof.
  revert pre. induction l as [|ch l IH]; intros pre H.
  - destruct pre; discriminate.
  - cbn [rstrip_slash_chars] in H.
    destruct (rstrip_slash_chars l) as [|x tl] eqn:Hl.
    + destruct (Ascii.eqb_spec ch "/") as [->|Hne].
      * destruct pre; discriminate.
      * destruct pre as [|p pre]; [injection H as ->; congruence|].
        injection H as _ H. destruct pre; discriminate.
    + destruct pre as [|p pre]; [discriminate|].
      injection H as _ H. exact (IH pre H).
Qed.

Lemma rstrip_removes_slashes (l : list ascii) :
  exists k, l = rstrip_slash_chars l ++ repeat "/"%char k.
Proof.
  induction l as [|ch l [k IH]]; [exists 0%nat; reflexivity|].
  cbn [rstrip_slash_chars].
  destruct (rstrip_slash_chars l) as [|x tl] eqn:Hl.
  - destruct (Ascii.eqb_spec ch "/") as [->|Hne].
    + exists (S k). simpl in *. rewrite <- IH. reflexivity.
    + exists k. simpl in *. rewrite <- IH. reflexivity.
  - exists k. simpl in *. rewrite <- IH. reflexivity.
Qed.

Lemma rstrip_app (p h : list ascii) :
  rstrip_slash_chars h <> [] ->
  rstrip_slash_chars (p ++ h) = p ++ rstrip_slash_chars h.
Proof.
  intros Hh. induction p as [|ch p IH]; [reflexivity|].
  cbn [app rstrip_slash_chars]. rewrite IH.
  destruct (p ++ rstrip_slash_chars h) eqn:E; [|reflexivity].
  apply app_eq_nil in E as [_ E]. contradiction.
Qed.

Lemma tail_ends {A : Type} (s1 s2 pre : list A) (x : A) :
  s2 <> [] -> s1 ++ s2 = pre ++ [x] -> exists pre', s2 = pre' ++ [x].
Proof.
  intros Hne H. destruct (exists_last Hne) as (l' & a & ->).
  rewrite app_assoc in H. apply app_inj_tail in H as [_ ->].
  exists l'. reflexivity.
Qed.

Lemma rstrip_slash_no_trailing (s pre : string) :
  rstrip_slash s <> (pre ++ "/")%string.
Proof.
  unfold rstrip_slash. intros H. apply (f_equal list_ascii_of_string) in H.
  rewrite list_ascii_of_string_of_list_ascii, list_ascii_of_string_app in H.
  exact (rstrip_no_trailing_slash _ _ H).
Qed.

Lemma prefix_split (p s : string) :
  String.prefix p s = true -> s = (p ++ slice_from (String.length p) s)%string.
Proof.
  revert s. induction p as [|a p IH]; intros s H.
  - unfold slice_from. simpl. symmetry. apply string_of_list_ascii_of_string.
  - destruct s as [|b s]; [discriminate|]. simpl in H.
    destruct (ascii_dec a b) as [->|]; [|discriminate].
    change (String b s = String b (p ++ slice_from (String.length p) s))%string.
    f_equal. apply IH, H.
Qed.

Lemma prefix_app (p rest : string) : String.prefix p (p ++ rest) = true.
Proof.
  induction p as [|a p IH]; [destruct rest; reflexivity|].
  change (String.prefix (String a p) (String a (p ++ rest)) = true)%string.
  simpl. destruct (ascii_dec a a); [exact IH|congruence].
Qed.

(** A rewritten scheme keeps the address free of a trailing slash. *)
Lemma rescheme_no_trailing (old new base pre : string) :
  (forall pre', base <> (pre' ++ "/")%string) ->
  (exists old', old = (old' ++ "/")%string) ->
  String.prefix old base = true ->
  (new ++ slice_from (String.length old) base)%string <> (pre ++ "/")%string.
Proof.
  intros Hbase [old' Hold] Hp H.
  pose proof (prefix_split old base Hp) as Hsplit.
  set (rest := slice_from (String.length old) base) in *.
  destruct rest as [|ch rest'] eqn:Hrest.
  - apply (Hbase old'). rewrite Hsplit, Hold.
    clear. induction old' as [|a o IH]; [reflexivity|].
    change (String a ((o ++ "/") ++ "") = String a (o ++ "/"))%string.
    f_equal. exact IH.
  - apply (f_equal list_ascii_of_string) in H.
    rewrite !list_ascii_of_string_app in H.
    assert (Hne : list_ascii_of_string (String ch rest') <> []) by discriminate.
    destruct (tail_ends _ _ _ _ Hne H) as [pre' Hpre'].
    apply (Hbase (old ++ string_of_list_ascii pre')%string).
    rewrite Hsplit at 1. rewrite string_app_assoc. f_equal.
    apply (f_equal string_of_list_ascii) in Hpre'.
    rewrite string_of_list_ascii_of_string in Hpre'. rewrite Hpre'.
    apply string_of_list_ascii_app.
Qed.

End BaseUrlFacts.

(** X11. The base address a client keeps never ends with a slash: what
    [rstrip("/")] removes is the run of slashes at the end and nothing else.
    The address the realtime client keeps never has the scheme [http://] or
    [https://]: these become [ws://] and [wss://] and what follows them is
    kept, less the slashes at the end.  No address given, or the empty text,
    stands for the default. *)
Theorem base_addresses_normalised (base_url : option string) :
  (forall pre, Url.http_base_url base_url <> (pre ++ "/")%string) /\
  (forall pre, Url.ws_base_url base_url <> (pre ++ "/")%string) /\
  (forall s, exists k,
     s = (Url.rstrip_slash s ++ string_of_list_ascii (repeat "/"%char k))%string) /\
  String.prefix "http://" (Url.ws_base_url base_url) = false /\
  String.prefix "https://" (Url.ws_base_url base_url) = false /\
  (forall host,
     Url.rstrip_slash host <> ""%string ->
     Url.ws_base_url (Some ("http://" ++ host)%string)
     = ("ws://" ++ Url.rstrip_slash host)%string /\
     Url.ws_base_url (Some ("https://" ++ host)%string)
     = ("wss://" ++ Url.rstrip_slash host)%string) /\
  Url.http_base_url None = "https://api.propheseer.com"%string /\
  Url.http_base_url (Some ""%string) = "https://api.propheseer.com"%string /\
  Url.ws_base_url None = "wss://api.propheseer.com"%string /\
  Url.ws_base_url (Some ""%string) = "wss://api.propheseer.com"%string.
Proof.
  split; [|split; [|split; [|split; [|split; [|split]]]]].
  - intros pre. apply rstrip_slash_no_trailing.
  - intros pre. unfold Url.ws_base_url.
    set (base := Url.resolve_base_url base_url Url.DEFAULT_WS_BASE_URL).
    assert (Hbase : forall pre', base <> (pre' ++ "/")%string)
      by (intros pre'; apply rstrip_slash_no_trailing).
    destruct (String.prefix "http://" base) eqn:H1.
    + apply (rescheme_no_trailing "http://" "ws://" base pre Hbase); [|exact H1].
      exists "http:/"%string. reflexivity.
    + destruct (String.prefix "https://" base) eqn:H2; [|apply Hbase].
      apply (rescheme_no_trailing "https://" "wss://" base pre Hbase); [|exact H2].
      exists "https:/"%string. reflexivity.
  - intros s. destruct (rstrip_removes_slashes (list_ascii_of_string s)) as [k Hk].
    exists k. unfold Url.rstrip_slash. rewrite <- string_of_list_ascii_app, <- Hk.
    symmetry. apply string_of_list_ascii_of_string.
  - unfold Url.ws_base_url.
    set (base := Url.resolve_base_url base_url Url.DEFAULT_WS_BASE_URL).
    destruct (String.prefix "http://" base) eqn:H1; [reflexivity|].
    destruct (String.prefix "https://" base) eqn:H2; [reflexivity|exact H1].
  - unfold Url.ws_base_url.
    set (base := Url.resolve_base_url base_url Url.DEFAULT_WS_BASE_URL).
    destruct (String.prefix "http://" base) eqn:H1; [reflexivity|].
    destruct (String.prefix "https://" base) eqn:H2; [reflexivity|exact H2].
  - intros host Hhost.
    assert (Hr : forall scheme : string,
              Url.rstrip_slash (scheme ++ host) = (scheme ++ Url.rstrip_slash host)%string).
    { intros scheme. unfold Url.rstrip_slash.
      rewrite list_ascii_of_string_app, rstrip_app.
      - rewrite string_of_list_ascii_app, string_of_list_ascii_of_string. reflexivity.
      - intros E. apply Hhost. unfold Url.rstrip_slash. rewrite E. reflexivity. }
    assert (Hres : forall scheme : string,
              Url.resolve_base_url (Some (scheme ++ host)%string) Url.DEFAULT_WS_BASE_URL
              = (scheme ++ Url.rstrip_slash host)%string).
    { intros scheme. unfold Url.resolve_base_url, Transport.str_or.
      destruct (String.eqb_spec (scheme ++ host) "") as [E|_]; [|apply Hr].
      exfalso. destruct scheme; [|discriminate].
      change (host = ""%string) in E. subst host.
      apply Hhost. reflexivity. }
    split.
    + unfold Url.ws_base_url. rewrite Hres.
      rewrite (prefix_app "http://" (Url.rstrip_slash host)).
      f_equal. unfold Url.slice_from. rewrite list_ascii_of_string_app.
      simpl. apply string_of_list_ascii_of_string.
    + unfold Url.ws_base_url. rewrite Hres.
      replace (String.prefix "http://" ("https://" ++ Url.rstrip_slash host))
        with false by reflexivity.
      rewrite (prefix_app "https://" (Url.rstrip_slash host)).
      f_equal. unfold Url.slice_from. rewrite list_ascii_of_string_app.
      simpl. apply string_of_list_ascii_of_string.
  - repeat split.
Qed.

(** ** Market types and the markets resource *)

Section LookupFacts.
Variable A : Type.
Implicit Types (d l : list (string * A)).

Lemma dict_lookup_set d (k' k : string) (v : A) :
  dict_lookup (dict_set d k' v) k
  = if String.eqb k' k then Some v else dict_lookup d k.
Proof.
  induction d as [|[k0 v0] d IH]; [reflexivity|]. cbn [dict_set].
  destruct (String.eqb_spec k0 k') as [->|Hne]; cbn [dict_lookup].
  - destruct (String.eqb_spec k' k); reflexivity.
  - rewrite IH. destruct (String.eqb_spec k0 k) as [->|]; [|reflexivity].
    destruct (String.eqb_spec k' k); [congruence|reflexivity].
Qed.

Lemma dict_lookup_app l1 l2 (k : string) :
  dict_lookup (l1 ++ l2) k
  = match dict_lookup l1 k with
    | Some v => Some v
    | None => dict_lookup l2 k
    end.
Proof.
  induction l1 as [|[k0 v0] l1 IH]; [reflexivity|]. cbn [app dict_lookup].
  destruct (String.eqb k0 k); [reflexivity|exact IH].
Qed.

Lemma dict_lookup_fold l d (k : string) :
  dict_lookup (fold_left (fun d kv => dict_set d (fst kv) (snd kv)) l d) k
  = match dict_lookup (rev l) k with
    | Some v => Some v
    | None => dict_lookup d k
    end.
Proof.
  revert d. induction l as [|[k0 v0] l IH]; intros d; [reflexivity|].
  cbn [fold_left rev fst snd]. rewrite IH, dict_lookup_app, dict_lookup_set.
  cbn [dict_lookup]. destruct (dict_lookup (rev l) k); [reflexivity|].
  destruct (String.eqb k0 k); reflexivity.
Qed.

Lemma dict_lookup_items l (k : string) :
  dict_lookup (dict_of_items l) k = Types.last_value l k.
Proof.
  unfold dict_of_items, Types.last_value. rewrite dict_lookup_fold.
  destruct (dict_lookup (rev l) k); reflexivity.
Qed.

End LookupFacts.

(** X12. When several keys of an object are rewritten to the same name, the
    normalized object holds that name once, with the normalized value of the
    last of these keys: looking a name up in the result gives the value of
    the last entry of the payload whose rewritten key is that name, or
    nothing when there is none.  So a payload with both [sourceId] and
    [source_id] is read with the later of the two. *)
Theorem colliding_keys_last_wins (items : list (string * json)) (name : string) :
  exists t,
    KeyCasing._transform_keys (JDict items) = JDict t /\
    List.NoDup (map fst t) /\
    dict_lookup t name
    = Types.last_value
        (map (fun kv => (KeyCasing._camel_to_snake (fst kv),
                         KeyCasing._transform_keys (snd kv))) items)
        name /\
    (dict_lookup t name = None <->
     forall kv, In kv items -> KeyCasing._camel_to_snake (fst kv) <> name).
Proof.
  eexists. split; [apply transform_keys_dict|].
  split; [apply dict_of_items_nodup|]. split; [apply dict_lookup_items|].
  rewrite dict_lookup_items. unfold Types.last_value.
  rewrite <- map_rev.
  assert (Hin : forall kv, In kv items <-> In kv (rev items))
    by (intros kv; apply in_rev).
  setoid_rewrite Hin. clear Hin.
  induction (rev items) as [|[k v] l IH]; cbn [map dict_lookup fst snd].
  - split; [intros _ kv []|reflexivity].
  - destruct (String.eqb_spec (KeyCasing._camel_to_snake k) name) as [He|Hne].
    + split; [discriminate|]. intros H. exfalso. apply (H (k, v)); [left; reflexivity|exact He].
    + rewrite IH. split.
      * intros H kv [<-|Hkv]; [exact Hne|apply H, Hkv].
      * intros H kv Hkv. apply H. right. exact Hkv.
Qed.

(** X13. Reading a payload that has already been normalized gives the same
    market, and the same outcome, as reading the payload itself, when its
    keys are texts of ASCII characters and none of them has an upper-case
    letter immediately followed by a digit.  The
    outcomes of a market are normalized twice, once with the market and
    once on their own: the key [VOLUME24h] is not read as [volume_24h] in
    an outcome alone, and is in an outcome inside a market. *)
Theorem from_dict_reads_normalised :
  (forall data,
     KeyCasing.all_keys is_ascii data = true ->
     KeyCasing.all_keys (fun k => negb (KeyCasing.upper_then_digit k)) data = true ->
     Types.Market_from_dict (KeyCasing._transform_keys data) = Types.Market_from_dict data /\
     Types.Outcome_from_dict (KeyCasing._transform_keys data) = Types.Outcome_from_dict data) /\
  Types.Outcome_from_dict (JDict [("VOLUME24h"%string, JInt 5)])
  = Return (Types.mk_outcome (JStr "") (JFloat 0) JNull) /\
  option_map Types.outcomes
    (match Types.Market_from_dict
             (JDict [("outcomes"%string, JList [JDict [("VOLUME24h"%string, JInt 5)]])])
     with Return m => Some m | Raise _ => None end)
  = Some [Types.mk_outcome (JStr "") (JFloat 0) (JInt 5)].
Proof.
  split; [|split; reflexivity].
  intros data _ Hok. unfold Types.Market_from_dict, Types.Outcome_from_dict.
  rewrite (transform_keys_idempotent data Hok). split; reflexivity.
Qed.

Section FromDictFacts.
Import KeyCasing Types.

Lemma transform_keys_object (v : json) :
  is_object (_transform_keys v) = is_object v.
Proof.
  destruct v; reflexivity.
Qed.

Lemma outcome_from_object (v : json) :
  is_object v = true -> exists o, Outcome_from_dict v = Return o.
Proof.
  intros H. unfold Outcome_from_dict.
  rewrite <- transform_keys_object in H.
  destruct (_transform_keys v); try discriminate. eexists. reflexivity.
Qed.

Lemma from_dict_not_object (v : json) :
  is_object v = false ->
  Market_from_dict v = Raise (Builtin AttributeError) /\
  Outcome_from_dict v = Raise (Builtin AttributeError).
Proof.
  intros H. unfold Market_from_dict, Outcome_from_dict.
  rewrite <- transform_keys_object in H.
  destruct (_transform_keys v); try discriminate; split; reflexivity.
Qed.

Lemma outcomes_all_objects (l : list json) :
  forallb is_object l = true ->
  exists outs, map_result Outcome_from_dict l = Return outs /\ length outs = length l.
Proof.
  induction l as [|v l IH]; [exists []; split; reflexivity|].
  cbn [forallb]. intros H. apply andb_true_iff in H as [Hv Hl].
  destruct (outcome_from_object v Hv) as [o Ho].
  destruct (IH Hl) as (outs & Houts & Hlen).
  exists (o :: outs). cbn [map_result]. rewrite Ho, Houts.
  split; [reflexivity|]. simpl. rewrite Hlen. reflexivity.
Qed.

Lemma outcomes_some_not_object (l : list json) :
  forallb is_object l = false ->
  map_result Outcome_from_dict l = Raise (Builtin AttributeError).
Proof.
  induction l as [|v l IH]; [discriminate|].
  cbn [forallb map_result]. intros H.
  destruct (is_object v) eqn:Hv.
  - destruct (outcome_from_object v Hv) as [o ->]. rewrite (IH H). reflexivity.
  - destruct (from_dict_not_object v Hv) as [_ ->]. reflexivity.
Qed.

End FromDictFacts.

(** X14. How the readers of the market types fail.  A payload that is not
    an object raises [AttributeError] in both.  On an object the outcome
    reader always returns; the market reader returns when the normalized
    payload has no [outcomes], with no outcome, and when [outcomes] is a list
    of objects, with one outcome for each; it raises [AttributeError] when
    that list holds a value that is not an object, and [TypeError] when
    [outcomes] is null, a boolean or a number. *)
Theorem market_reader_failures (items : list (string * json)) :
  (forall data, Types.is_object data = false ->
     Types.Market_from_dict data = Raise (Builtin AttributeError) /\
     Types.Outcome_from_dict data = Raise (Builtin AttributeError)) /\
  exists t,
    KeyCasing._transform_keys (JDict items) = JDict t /\
    Types.Outcome_from_dict (JDict items) = Return (Types.Outcome_of t) /\
    (dict_lookup t "outcomes" = None ->
     Types.Market_from_dict (JDict items) = Return (Types.Market_of t [])) /\
    (forall l, dict_lookup t "outcomes" = Some (JList l) ->
       forallb Types.is_object l = true ->
       exists outs,
         Types.Market_from_dict (JDict items) = Return (Types.Market_of t outs) /\
         length outs = length l) /\
    (forall l, dict_lookup t "outcomes" = Some (JList l) ->
       forallb Types.is_object l = false ->
       Types.Market_from_dict (JDict items) = Raise (Builtin AttributeError)) /\
    (forall v, dict_lookup t "outcomes" = Some v ->
       match v with
       | JNull | JBool _ | JInt _ | JFloat _ =>
           Types.Market_from_dict (JDict items) = Raise (Builtin TypeError)
       | _ => True
       end).
Proof.
  split; [exact from_dict_not_object|].
  eexists. split; [apply transform_keys_dict|].
  unfold Types.Outcome_from_dict, Types.Market_from_dict.
  rewrite transform_keys_dict.
  set (t := dict_of_items _).
  split; [reflexivity|]. unfold Types.get_or.
  split; [|split; [|split]].
  - intros ->. reflexivity.
  - intros l -> Hl. cbn [Types.iterate].
    destruct (outcomes_all_objects l Hl) as (outs & -> & Hlen).
    exists outs. split; [reflexivity|exact Hlen].
  - intros l -> Hl. cbn [Types.iterate].
    rewrite (outcomes_some_not_object l Hl). reflexivity.
  - intros v ->. destruct v; try exact I; reflexivity.
Qed.

Lemma request_calls (float_of_str : string -> option Q)
    (net : nat -> Transport.net_result) (rand : Z -> Q) (c : Transport.Client)
    (method path : string) (query : option (list (string * json)))
    (body : option json) (auth : bool) (w : Transport.World) :
  exists k : nat,
    (k <= Z.to_nat (Transport.max_retries c + 1))%nat /\
    Transport.calls
      (snd (Transport._request float_of_str net rand c method path query body auth w))
    = Transport.calls w
      ++ replicate k (Transport.mk_call method path query
                        (Transport.request_headers c auth) body).
Proof.
  unfold Transport._request.
  destruct (auth && negb (Transport.str_truthy (Transport.api_key c))).
  - exists 0%nat. simpl. rewrite app_nil_r. split; [lia|reflexivity].
  - destruct (attempts_budget float_of_str net rand c
                (Transport.mk_call method path query
                   (Transport.request_headers c auth) body)
                (Z.to_nat (Transport.max_retries c + 1)) 0 None w)
      as (k & ds & Hk & Hc & _); [lia|].
    exists k. split; assumption.
Qed.

(** X15. [get] adds nothing to the effects of its one request and raises
    what the request raises; every call it makes is a [GET] of
    [/v1/markets/] followed by the encoded id, with no query and no body,
    and there are at most [max_retries + 1] of them.  When the request returns an object without
    [data], [get] returns the market of the empty payload, every attribute
    at its default, with the snapshot and the response; when [data] is
    null, or when the body is not an object, it raises [AttributeError]. *)
Theorem get_decodes_data (float_of_str : string -> option Q)
    (net : nat -> Transport.net_result) (rand : Z -> Q) (c : Transport.Client)
    (market_id : string) (w : Transport.World) :
  let req := Transport._request float_of_str net rand c "GET"
               (Markets.market_path market_id) None None true w in
  let out := Markets.get float_of_str net rand c market_id w in
  snd out = snd req /\
  (exists k : nat,
     (k <= Z.to_nat (Transport.max_retries c + 1))%nat /\
     Transport.calls (snd out)
     = Transport.calls w
       ++ replicate k (Transport.mk_call "GET" ("/v1/markets/" ++ Url.quote market_id)
                         None (Transport.request_headers c true) None)) /\
  (forall e, fst req = Raise e -> fst out = Raise e) /\
  (forall d info r,
     fst req = Return (JDict d, info, r) ->
     dict_lookup d "data" = None ->
     fst out
     = Return (Types.mk_market (JStr "") (JStr "") (JStr "") (JStr "") JNull
                 (JStr "other") (JStr "open") [] JNull (JStr "") (JStr "")
                 (JStr "") JNull (JList []),
               info, r)) /\
  (forall d info r,
     fst req = Return (JDict d, info, r) ->
     dict_lookup d "data" = Some JNull ->
     fst out = Raise (Builtin AttributeError)) /\
  (forall raw info r,
     fst req = Return (raw, info, r) ->
     Types.is_object raw = false ->
     fst out = Raise (Builtin AttributeError)).
Proof.
  intros req out.
  assert (Hsnd : snd out = snd req).
  { subst out. unfold Markets.get. fold req.
    destruct req as [[[[raw info] r]|e] w']; [|reflexivity].
    destruct raw; try reflexivity.
    destruct (Types.Market_from_dict _); reflexivity. }
  split; [exact Hsnd|]. split.
  { rewrite Hsnd. subst req.
    apply (request_calls float_of_str net rand c "GET"
             (Markets.market_path market_id) None None true w). }
  clear Hsnd. subst out. unfold Markets.get. fold req.
  destruct req as [[[[raw info] r]|e] w']; cbn [fst snd].
  - split; [discriminate|]. split; [|split].
    + intros d info' r' [= -> -> ->] Hd. unfold Types.get_or. rewrite Hd. reflexivity.
    + intros d info' r' [= -> -> ->] Hd. unfold Types.get_or. rewrite Hd. reflexivity.
    + intros raw' info' r' [= -> -> ->] Hraw. destruct raw'; try reflexivity. discriminate.
  - split; [intros e' [= ->]; reflexivity|].
    split; [|split]; discriminate.
Qed.

(** ** Realtime client: listeners, subscriptions and the end of the thread *)

Section ListenerFacts.
Import WebSocket.

Variable App : Type.
Implicit Types (st : state App).

Lemma on_listeners (event other : string) (cb : listener App) st :
  _listeners (on event cb st) !! other
  = if decide (event = other)
    then Some (default [] (_listeners st !! event) ++ [cb])
    else _listeners st !! other.
Proof.
  unfold on. cbn [_listeners]. destruct (decide (event = other)) as [->|Hne].
  - apply lookup_insert_eq.
  - apply lookup_insert_ne. exact Hne.
Qed.

Lemma raising_app (args : list arg) (cbs1 cbs2 : list (listener App)) (a : App) :
  raising args (cbs1 ++ cbs2) a
  = (raising args cbs1 a + raising args cbs2 (run_all args cbs1 a))%nat.
Proof.
  revert a. induction cbs1 as [|cb cbs1 IH]; intros a; [reflexivity|].
  change ((cb :: cbs1) ++ cbs2) with (cb :: (cbs1 ++ cbs2)).
  cbn [raising]. rewrite IH. unfold run_all. cbn [fold_left]. lia.
Qed.

End ListenerFacts.

(** X16. [on] adds the listener after the ones already registered for the
    event and changes nothing else: nothing is emitted or written.  An
    emission of that event then calls the earlier listeners as before and
    the new one last, on the state they left; a raise of the new one adds
    one line to the log.  Emissions of other events are what they were.  A
    listener registered twice is called twice. *)
Theorem on_appends_listener (App : Type) (st : WebSocket.state App)
    (event : string) (cb : WebSocket.listener App) :
  let st' := WebSocket.on event cb st in
  WebSocket._listeners st' !! event
  = Some (default [] (WebSocket._listeners st !! event) ++ [cb]) /\
  (WebSocket.emitted st' = WebSocket.emitted st /\
   WebSocket.sent st' = WebSocket.sent st /\
   WebSocket.app st' = WebSocket.app st /\
   WebSocket.logged st' = WebSocket.logged st /\
   WebSocket._ws st' = WebSocket._ws st /\
   WebSocket._subscribed_markets st' = WebSocket._subscribed_markets st) /\
  (forall args,
     let before := WebSocket._emit event args st in
     WebSocket.app (WebSocket._emit event args st')
     = fst (cb args (WebSocket.app before)) /\
     WebSocket.logged (WebSocket._emit event args st')
     = WebSocket.logged before
       ++ match snd (cb args (WebSocket.app before)) with
          | WebSocket.Raises _ => [event]
          | WebSocket.Returns => []
          end) /\
  (forall other args,
     other <> event ->
     WebSocket.app (WebSocket._emit other args st')
     = WebSocket.app (WebSocket._emit other args st) /\
     WebSocket.logged (WebSocket._emit other args st')
     = WebSocket.logged (WebSocket._emit other args st)) /\
  (forall args,
     WebSocket.app (WebSocket._emit event args (WebSocket.on event cb st'))
     = fst (cb args (fst (cb args (WebSocket.app (WebSocket._emit event args st)))))).
Proof.
  intros st'.
  assert (Hl : WebSocket._listeners st' !! event
               = Some (default [] (WebSocket._listeners st !! event) ++ [cb])).
  { subst st'. rewrite on_listeners. destruct (decide (event = event)); congruence. }
  assert (Hemit : forall s args,
            WebSocket.app (WebSocket._emit event args (WebSocket.on event cb s))
            = fst (cb args (WebSocket.app (WebSocket._emit event args s))) /\
            WebSocket.logged (WebSocket._emit event args (WebSocket.on event cb s))
            = WebSocket.logged (WebSocket._emit event args s)
              ++ match snd (cb args (WebSocket.app (WebSocket._emit event args s))) with
                 | WebSocket.Raises _ => [event]
                 | WebSocket.Returns => []
                 end).
  { intros s args. rewrite !emit_spec. cbn [WebSocket.app WebSocket.logged].
    assert (Hdef : default [] (WebSocket._listeners (WebSocket.on event cb s) !! event)
                   = default [] (WebSocket._listeners s !! event) ++ [cb]).
    { rewrite on_listeners. destruct (decide (event = event)); [reflexivity|congruence]. }
    rewrite Hdef.
    change (WebSocket.app (WebSocket.on event cb s)) with (WebSocket.app s).
    change (WebSocket.logged (WebSocket.on event cb s)) with (WebSocket.logged s).
    rewrite run_all_app, raising_app. split.
    - reflexivity.
    - rewrite replicate_add, <- app_assoc. f_equal.
      cbn [WebSocket.raising].
      destruct (snd (cb args _)); reflexivity. }
  split; [exact Hl|]. split; [repeat split|]. split; [|split].
  - intros args before. apply Hemit.
  - intros other args Hne. subst st'. rewrite !emit_spec.
    cbn [WebSocket.app WebSocket.logged]. rewrite on_listeners.
    destruct (decide (event = other)); [congruence|]. split; reflexivity.
  - intros args. rewrite (proj1 (Hemit st' args)). subst st'.
    rewrite (proj1 (Hemit st args)). reflexivity.
Qed.

(** X17. [subscribe] adds the ids to the subscription set and [unsubscribe]
    takes them out, whether or not the client is connected; the frame is
    written, with the ids as they were given, only when there is an open
    connection, and dropped otherwise.  Subscribing again to the same ids
    leaves the set as it is; unsubscribing from ids just subscribed leaves
    the set without them. *)
Theorem subscriptions_follow_calls (App : Type) (st : WebSocket.state App)
    (ids : list string) :
  (forall x, x ∈ WebSocket._subscribed_markets (WebSocket.subscribe ids st) <->
             x ∈ WebSocket._subscribed_markets st \/ x ∈ ids) /\
  (forall x, x ∈ WebSocket._subscribed_markets (WebSocket.unsubscribe ids st) <->
             x ∈ WebSocket._subscribed_markets st /\ x ∉ ids) /\
  (WebSocket._ws st = WebSocket.Socket true ->
   WebSocket.sent (WebSocket.subscribe ids st)
   = WebSocket.sent st ++ [WebSocket.Subscribe ids] /\
   WebSocket.sent (WebSocket.unsubscribe ids st)
   = WebSocket.sent st ++ [WebSocket.Unsubscribe ids]) /\
  (WebSocket._ws st <> WebSocket.Socket true ->
   WebSocket.sent (WebSocket.subscribe ids st) = WebSocket.sent st /\
   WebSocket.sent (WebSocket.unsubscribe ids st) = WebSocket.sent st) /\
  WebSocket._subscribed_markets (WebSocket.subscribe ids (WebSocket.subscribe ids st))
  = WebSocket._subscribed_markets (WebSocket.subscribe ids st) /\
  WebSocket._subscribed_markets (WebSocket.unsubscribe ids (WebSocket.subscribe ids st))
  = WebSocket._subscribed_markets st ∖ list_to_set ids.
Proof.
  assert (Hs : forall s : WebSocket.state App,
            WebSocket._subscribed_markets (WebSocket.subscribe ids s)
            = WebSocket._subscribed_markets s ∪ list_to_set ids).
  { intros s. unfold WebSocket.subscribe, WebSocket._send. cbn.
    destruct (WebSocket._ws s) as [|[]]; reflexivity. }
  assert (Hu : forall s : WebSocket.state App,
            WebSocket._subscribed_markets (WebSocket.unsubscribe ids s)
            = WebSocket._subscribed_markets s ∖ list_to_set ids).
  { intros s. unfold WebSocket.unsubscribe, WebSocket._send. cbn.
    destruct (WebSocket._ws s) as [|[]]; reflexivity. }
  split; [|split; [|split; [|split; [|split]]]].
  - intros x. rewrite Hs, elem_of_union, elem_of_list_to_set. reflexivity.
  - intros x. rewrite Hu, elem_of_difference, elem_of_list_to_set. reflexivity.
  - intros Hw. unfold WebSocket.subscribe, WebSocket.unsubscribe, WebSocket._send.
    cbn. rewrite Hw. split; reflexivity.
  - intros Hw. unfold WebSocket.subscribe, WebSocket.unsubscribe, WebSocket._send.
    cbn. destruct (WebSocket._ws st) as [|[]]; try congruence; split; reflexivity.
  - rewrite !Hs. apply set_eq. intros x.
    rewrite !elem_of_union. tauto.
  - rewrite Hu, Hs. apply set_eq. intros x.
    rewrite !elem_of_difference, elem_of_union. tauto.
Qed.

Section ThreadFacts.
Import WebSocket WebSocketThread.

Variable App : Type.
Implicit Types (st : state App).

Lemma same_connection_refl st : same_connection st st.
Proof. repeat split. Qed.

Lemma same_connection_trans st1 st2 st3 :
  same_connection st1 st2 -> same_connection st2 st3 -> same_connection st1 st3.
Proof.
  unfold same_connection. intros H1 H2.
  destruct H1 as (? & ? & ? & ? & ? & ? & ? & ? & ?).
  destruct H2 as (? & ? & ? & ? & ? & ? & ? & ? & ?).
  repeat split; congruence.
Qed.

Lemma emit_same_connection (event : string) (args : list arg) st :
  same_connection (_emit event args st) st.
Proof. rewrite emit_spec. repeat split. Qed.

Lemma handle_same_connection (message : json) st :
  same_connection (fst (_handle_message message st)) st.
Proof.
  unfold _handle_message. destruct message; try apply same_connection_refl.
  destruct (known_type _); cbn [fst].
  - apply emit_same_connection.
  - apply same_connection_refl.
Qed.

Lemma receive_loop_harmless (good more : list inbound) st :
  _closed st = false ->
  forallb harmless good = true ->
  receive_loop (good ++ more) st = receive_loop more (fst (receive_loop good st)) /\
  same_connection (fst (receive_loop good st)) st.
Proof.
  revert st. induction good as [|x good IH]; intros st Hc Hg.
  - cbn [app receive_loop]. rewrite Hc. cbn [fst].
    split; [reflexivity|apply same_connection_refl].
  - cbn [forallb] in Hg. apply andb_true_iff in Hg as [Hx Hg].
    change ((x :: good) ++ more) with (x :: (good ++ more)).
    destruct x as [|[]|]; try discriminate Hx.
    + cbn [receive_loop]. rewrite Hc. apply IH; assumption.
    + rewrite !receive_loop_object by exact Hc.
      pose proof (handle_same_connection (JDict items) st) as Hs.
      destruct (IH (fst (_handle_message (JDict items) st))) as [H1 H2].
      * rewrite (proj2 (handle_object_returns App items st)). exact Hc.
      * exact Hg.
      * split; [exact H1|]. eapply same_connection_trans; eassumption.
Qed.

Lemma harmful_frame_exits (bad : inbound) (rest : list inbound) st :
  _closed st = false ->
  harmless bad = false ->
  receive_loop (bad :: rest) st
  = (_emit "error"
       [Failure (match bad with Broken text => text | _ => "AttributeError"%string end)]
       st, Exited).
Proof.
  intros Hc Hb. cbn [receive_loop]. rewrite Hc.
  destruct bad as [|message|text]; [discriminate| |reflexivity].
  destruct message; try discriminate Hb; cbn [_handle_message]; rewrite Hc; reflexivity.
Qed.

End ThreadFacts.



Section DelayFacts.
Import WebSocket.

Lemma reconnect_delay_bounds (n : Z) :
  (0 < reconnect_delay n)%Q /\ (reconnect_delay n <= 30)%Q.
Proof.
  unfold reconnect_delay. split.
  - apply Q.min_glb_lt_iff. split; [|reflexivity].
    assert (H : (0 < Qpower 2 (n - 1))%Q) by (apply Qpower_0_lt; reflexivity).
    lra.
  - apply Q.le_min_r.
Qed.

Lemma reconnect_delay_mono (a b : Z) :
  a <= b -> (reconnect_delay a <= reconnect_delay b)%Q.
Proof.
  intros H. unfold reconnect_delay.
  apply Q.min_le_compat_r.
  assert (Hp : (Qpower 2 (a - 1) <= Qpower 2 (b - 1))%Q).
  { apply Qpower_le_compat_l; [lia|]. unfold Qle. simpl. lia. }
  lra.
Qed.

Lemma attempt_numbers_length (n : Z) (j : nat) : length (attempt_numbers n j) = j.
Proof. revert n. induction j as [|j IH]; intros n; [reflexivity|]. simpl. rewrite IH. reflexivity. Qed.

End DelayFacts.

(** X19. When every connection attempt is refused and the application does
    not close the client, the reconnect procedure stops by itself: from a
    counter at [a >= 0] and a maximum [m] with [a <= m <= 1024] it makes
    [m - a] attempts, numbered [a + 1] to [m], waits [min(2^(n-1), 30)]
    seconds before attempt [n], writes nothing, and ends with the [error]
    event ["Failed to reconnect after m attempts"], the counter at [m].  For
    the attempts 1 to 1024 the wait is computed, is positive and at most 30
    seconds, and a later attempt never waits less than an earlier one.  More
    fuel than the attempts left changes nothing. *)
Theorem reconnect_stops_at_the_limit (App : Type)
    (during_wait : Z -> list WebSocket.user_call)
    (connection : Z -> WebSocket.connect_result) (st : WebSocket.state App) :
  WebSocket._ws st <> WebSocket.Socket true ->
  WebSocket._closed st = false ->
  WebSocket._reconnect_enabled st = true ->
  0 <= WebSocket._reconnect_attempts st ->
  WebSocket._reconnect_attempts st <= WebSocket._max_reconnect_attempts st ->
  WebSocket._max_reconnect_attempts st <= 1024 ->
  (forall n, exists text, connection n = WebSocket.Refused text) ->
  (forall n, existsb WebSocket.is_close (during_wait n) = false) ->
  let j := Z.to_nat (WebSocket._max_reconnect_attempts st
                     - WebSocket._reconnect_attempts st) in
  let n := WebSocket._reconnect_attempts st + 1 in
  let st' := WebSocket._attempt_reconnect during_wait connection
               (WebSocket.attempts_left st) st in
  WebSocket.slept st'
  = WebSocket.slept st ++ map WebSocket.reconnect_delay (WebSocket.attempt_numbers n j) /\
  WebSocket.reconnect_numbers st'
  = WebSocket.reconnect_numbers st ++ WebSocket.attempt_numbers n j /\
  length (WebSocket.attempt_numbers n j) = j /\
  WebSocket.sent st' = WebSocket.sent st /\
  WebSocket._reconnect_attempts st' = WebSocket._max_reconnect_attempts st /\
  (exists before,
     WebSocket.emitted st'
     = before
       ++ [("error"%string,
            [WebSocket.Failure
               ("Failed to reconnect after "
                ++ Errors.str_of_int (WebSocket._max_reconnect_attempts st)
                ++ " attempts")])]) /\
  (forall k, 1 <= k <= 1024 ->
     WebSocket.delay_overflows k = false /\
     (0 < WebSocket.reconnect_delay k)%Q /\ (WebSocket.reconnect_delay k <= 30)%Q) /\
  (forall a b, 1 <= a -> a <= b -> b <= 1024 ->
     (WebSocket.reconnect_delay a <= WebSocket.reconnect_delay b)%Q) /\
  (forall fuel, (WebSocket.attempts_left st <= fuel)%nat ->
     WebSocket._attempt_reconnect during_wait connection fuel st = st').
Proof.
  intros Hw Hc He Hlo Hle Hhi Hconn Hwait j n st'.
  destruct (reconnect_gives_up App during_wait connection j
              (WebSocket.attempts_left st) st) as (H1 & H2 & H3 & H4 & before & text & H5 & H6);
    try assumption.
  - unfold WebSocket.attempts_left. subst j. lia.
  - subst j. lia.
  - intros i _. apply Hconn.
  - intros i _. apply Hwait.
  - fold n in H1, H2. fold st' in H1, H2, H3, H4, H5.
    split; [exact H1|]. split; [exact H2|].
    split; [apply attempt_numbers_length|].
    split; [exact H3|]. split; [exact H4|].
    split; [exists before; rewrite H5, H6; reflexivity|].
    split.
    { intros k Hk. split; [apply delay_computed; exact Hk|apply reconnect_delay_bounds]. }
    split; [intros a b _ Hab _; apply reconnect_delay_mono; exact Hab|].
    intros fuel Hf. subst st'.
    apply attempt_reconnect_fuel; [exact Hf|lia].
Qed.

Lemma reconnect_stops_at_the_limit_witness :
  let dw := fun _ : Z => @nil WebSocket.user_call in
  let conn := fun _ : Z => WebSocket.Refused "connection refused" in
  let st := WebSocket.lost_client 2 {["pm_1"%string]} in
  let st' := WebSocket._attempt_reconnect dw conn (WebSocket.attempts_left st) st in
  WebSocket.slept st'
  = WebSocket.slept st
    ++ map WebSocket.reconnect_delay (WebSocket.attempt_numbers (0 + 1) (Z.to_nat (2 - 0))) /\
  WebSocket.reconnect_numbers st'
  = WebSocket.reconnect_numbers st
    ++ WebSocket.attempt_numbers (0 + 1) (Z.to_nat (2 - 0)) /\
  length (WebSocket.attempt_numbers (0 + 1) (Z.to_nat (2 - 0))) = Z.to_nat (2 - 0) /\
  WebSocket.sent st' = WebSocket.sent st /\
  WebSocket._reconnect_attempts st' = 2 /\
  (exists before,
     WebSocket.emitted st'
     = before
       ++ [("error"%string,
            [WebSocket.Failure
               ("Failed to reconnect after " ++ Errors.str_of_int 2 ++ " attempts")])]) /\
  (forall k, 1 <= k <= 1024 ->
     WebSocket.delay_overflows k = false /\
     (0 < WebSocket.reconnect_delay k)%Q /\ (WebSocket.reconnect_delay k <= 30)%Q) /\
  (forall a b, 1 <= a -> a <= b -> b <= 1024 ->
     (WebSocket.reconnect_delay a <= WebSocket.reconnect_delay b)%Q) /\
  (forall fuel, (WebSocket.attempts_left st <= fuel)%nat ->
     WebSocket._attempt_reconnect dw conn fuel st = st').
Proof.
  intros dw conn st.
  apply (reconnect_stops_at_the_limit Z dw conn st).
  - discriminate.
  - reflexivity.
  - reflexivity.
  - simpl. lia.
  - simpl. lia.
  - simpl. lia.
  - intros n. eexists. reflexivity.
  - intros n. reflexivity.
Defined.

(** X20. The realtime client cannot be made without a key: with no key
    given, or the empty text, and none in the environment, [__init__] raises
    [ValueError].  A key that is given and not empty is the one kept,
    whatever the environment holds; otherwise the key of the environment is
    kept.  The client starts without a connection, with no listener and an
    empty subscription set: a [subscribe] before [connect] records the ids
    and writes nothing. *)
Theorem realtime_client_needs_a_key (App : Type) (a : App)
    (api_key env_key base_url : option string) (reconnect : bool)
    (max_reconnect_attempts : Z) :
  let made := WebSocketThread.PropheseerWebSocket a api_key env_key base_url
                reconnect max_reconnect_attempts in
  (Transport.str_truthy api_key = false -> Transport.str_truthy env_key = false ->
   made = Raise (Builtin ValueError)) /\
  (forall key, api_key = Some key -> key <> ""%string ->
     exists st,
       made = Return (WebSocketThread.mk_endpoint key (Url.ws_base_url base_url), st)) /\
  (forall key, Transport.str_truthy api_key = false ->
     env_key = Some key -> key <> ""%string ->
     exists st,
       made = Return (WebSocketThread.mk_endpoint key (Url.ws_base_url base_url), st)) /\
  (forall e st, made = Return (e, st) ->
     WebSocket._ws st = WebSocket.NoSocket /\
     WebSocket._closed st = false /\
     WebSocket._reconnect_attempts st = 0 /\
     WebSocket._reconnect_enabled st = reconnect /\
     WebSocket._max_reconnect_attempts st = max_reconnect_attempts /\
     WebSocket._listeners st = ∅ /\
     WebSocket._subscribed_markets st = ∅ /\
     forall ids,
       WebSocket.sent (WebSocket.subscribe ids st) = [] /\
       WebSocket._subscribed_markets (WebSocket.subscribe ids st) = list_to_set ids).
Proof.
  intros made. subst made. unfold WebSocketThread.PropheseerWebSocket.
  split; [|split; [|split]].
  - unfold Transport.str_truthy, Transport.str_or.
    destruct api_key as [k|]; destruct env_key as [k'|]; simpl;
      try destruct (String.eqb k ""); try destruct (String.eqb k' "");
      simpl; intros; try discriminate; reflexivity.
  - intros key -> Hkey. unfold Transport.str_or.
    destruct (String.eqb_spec key ""); [contradiction|].
    destruct (String.eqb_spec key ""); [contradiction|].
    eexists. reflexivity.
  - intros key Hno -> Hkey.
    assert (Hor : Transport.str_or api_key (Some key) = Some key).
    { unfold Transport.str_truthy in Hno. unfold Transport.str_or.
      destruct api_key as [k|]; [|reflexivity].
      destruct (String.eqb k ""); [reflexivity|discriminate]. }
    rewrite Hor. destruct (String.eqb_spec key ""); [contradiction|].
    eexists. reflexivity.
  - intros e st H.
    destruct (Transport.str_or api_key env_key) as [key|]; [|discriminate].
    destruct (String.eqb key ""); [discriminate|].
    injection H as <- <-. repeat split.
    unfold WebSocket.subscribe, WebSocket._send. cbn.
    apply set_eq. intros x. rewrite elem_of_union, elem_of_empty. tauto.
Qed.

(** ** Rate-limit headers: numbers and billing modes *)

Section IntFacts.
Import Errors RateLimitHeaders.

Lemma digits_acc (d : Decimal.uint) :
  forall (p : positive) (b : bool),
    digits (Z.pos p) true (list_ascii_of_string (NilEmpty.string_of_uint d))
    = Some (Z.pos (Pos.of_uint_acc d p)).
Proof.
  induction d as [|d IH|d IH|d IH|d IH|d IH|d IH|d IH|d IH|d IH|d IH];
    intros p b; [reflexivity|..];
    cbn [NilEmpty.string_of_uint list_ascii_of_string digits Pos.of_uint_acc];
    match goal with
    | |- context [KeyCasing.is_digit ?c] =>
        change (KeyCasing.is_digit c) with true; cbv iota
    end;
    match goal with
    | |- digits ?acc true _ = Some (Z.pos (Pos.of_uint_acc d ?q)) =>
        replace acc with (Z.pos q) by (unfold digit_value; simpl; lia)
    end;
    apply (IH _ true).
Qed.

Lemma digits_zero (d : Decimal.uint) :
  forall b : bool,
    d <> Decimal.Nil \/ b = true ->
    digits 0 b (list_ascii_of_string (NilEmpty.string_of_uint d))
    = Some (Z.of_N (Pos.of_uint d)).
Proof.
  induction d as [|d IH|d IH|d IH|d IH|d IH|d IH|d IH|d IH|d IH|d IH];
    intros b Hb.
  - destruct Hb as [Hb| ->]; [congruence|reflexivity].
  - cbn [NilEmpty.string_of_uint list_ascii_of_string digits Pos.of_uint].
    change (KeyCasing.is_digit "0") with true. cbv iota.
    change (10 * 0 + digit_value "0") with 0.
    apply IH. right. reflexivity.
  - apply (digits_acc d 1 true).
  - apply (digits_acc d 2 true).
  - apply (digits_acc d 3 true).
  - apply (digits_acc d 4 true).
  - apply (digits_acc d 5 true).
  - apply (digits_acc d 6 true).
  - apply (digits_acc d 7 true).
  - apply (digits_acc d 8 true).
  - apply (digits_acc d 9 true).
Qed.

Lemma digit_char (c : ascii) :
  KeyCasing.is_digit c = true ->
  is_space c = false /\ Ascii.eqb c "-" = false /\ Ascii.eqb c "+" = false.
Proof.
  destruct c as [[] [] [] [] [] [] [] []]; intros H; try discriminate H;
    repeat split.
Qed.

Lemma uint_chars_digits (d : Decimal.uint) :
  forallb KeyCasing.is_digit (list_ascii_of_string (NilEmpty.string_of_uint d)) = true.
Proof.
  induction d; [reflexivity|..];
    cbn [NilEmpty.string_of_uint list_ascii_of_string forallb];
    rewrite IHd; reflexivity.
Qed.

Lemma digits_no_space (l : list ascii) :
  forallb KeyCasing.is_digit l = true ->
  forallb (fun c => negb (is_space c)) l = true.
Proof.
  intros H. apply forallb_forall. intros c Hin.
  rewrite forallb_forall in H. destruct (digit_char c (H c Hin)) as [-> _].
  reflexivity.
Qed.

Lemma lstrip_id (l : list ascii) :
  forallb (fun c => negb (is_space c)) l = true -> lstrip l = l.
Proof.
  destruct l as [|c l]; [reflexivity|]. cbn [forallb lstrip].
  intros H. apply andb_true_iff in H as [Hc _]. apply negb_true_iff in Hc.
  rewrite Hc. reflexivity.
Qed.

Lemma strip_id (l : list ascii) :
  forallb (fun c => negb (is_space c)) l = true -> strip l = l.
Proof.
  intros H. unfold strip. rewrite (lstrip_id l H).
  rewrite lstrip_id; [apply rev_involutive|].
  apply forallb_forall. intros c Hin. apply in_rev in Hin.
  rewrite forallb_forall in H. apply H, Hin.
Qed.

Lemma length_list_ascii (s : string) :
  length (list_ascii_of_string s) = String.length s.
Proof. induction s as [|c s IH]; [reflexivity|]. cbn. rewrite IH. reflexivity. Qed.

Lemma digit_count_digits (l : list ascii) :
  forallb KeyCasing.is_digit l = true -> digit_count l = length l.
Proof.
  unfold digit_count. induction l as [|c l IH]; [reflexivity|].
  cbn [forallb List.filter]. intros H. apply andb_true_iff in H as [-> Hl].
  cbn [length]. rewrite IH by exact Hl. reflexivity.
Qed.

(** A text of digits within the limit is not refused for its length. *)
Lemma digits_within_limit (s : string) :
  forallb KeyCasing.is_digit (list_ascii_of_string s) = true ->
  (String.length s <= int_max_str_digits)%nat ->
  (int_max_str_digits <? digit_count (list_ascii_of_string s))%nat = false.
Proof.
  intros Hd Hlen. rewrite (digit_count_digits _ Hd), length_list_ascii.
  apply Nat.ltb_ge. exact Hlen.
Qed.

Lemma py_int_digits (s : string) :
  forallb KeyCasing.is_digit (list_ascii_of_string s) = true ->
  s <> ""%string ->
  (String.length s <= int_max_str_digits)%nat ->
  py_int s = digits 0 false (list_ascii_of_string s).
Proof.
  intros Hd Hne Hlen. unfold py_int. cbv zeta.
  rewrite (strip_id _ (digits_no_space _ Hd)), (digits_within_limit s Hd Hlen).
  destruct s as [|c s]; [congruence|]. cbn [list_ascii_of_string] in *.
  cbn [forallb] in Hd. apply andb_true_iff in Hd as [Hc _].
  destruct (digit_char c Hc) as (_ & -> & ->). reflexivity.
Qed.

Lemma py_int_minus (s : string) :
  forallb KeyCasing.is_digit (list_ascii_of_string s) = true ->
  (String.length s <= int_max_str_digits)%nat ->
  py_int (String "-" s) = option_map Z.opp (digits 0 false (list_ascii_of_string s)).
Proof.
  intros Hd Hlen. unfold py_int. cbv zeta. cbn [list_ascii_of_string].
  rewrite strip_id by (cbn [forallb]; rewrite (digits_no_space _ Hd); reflexivity).
  change (digit_count ("-"%char :: list_ascii_of_string s))
    with (digit_count (list_ascii_of_string s)).
  rewrite (digits_within_limit s Hd Hlen). reflexivity.
Qed.

Lemma nilzero_uint (d : Decimal.uint) :
  NilZero.string_of_uint d <> ""%string /\
  forallb KeyCasing.is_digit (list_ascii_of_string (NilZero.string_of_uint d)) = true /\
  digits 0 false (list_ascii_of_string (NilZero.string_of_uint d))
  = Some (Z.of_N (Pos.of_uint d)).
Proof.
  destruct d eqn:E; [repeat split; discriminate|..];
    rewrite <- E;
    (assert (Hz : NilZero.string_of_uint d = NilEmpty.string_of_uint d)
       by (subst d; reflexivity));
    rewrite Hz;
    (split; [subst d; discriminate|]);
    (split; [apply uint_chars_digits|]);
    apply digits_zero; left; subst d; discriminate.
Qed.

Lemma py_int_signed (d : Decimal.signed_int) :
  (String.length
     (NilZero.string_of_uint match d with Decimal.Pos u | Decimal.Neg u => u end)
   <= int_max_str_digits)%nat ->
  py_int (NilZero.string_of_int d) = Some (Z.of_int d).
Proof.
  destruct d as [d|d]; cbn [NilZero.string_of_int Z.of_int]; intros Hlen;
    destruct (nilzero_uint d) as (Hne & Hd & Hv).
  - rewrite (py_int_digits _ Hd Hne Hlen). exact Hv.
  - rewrite (py_int_minus _ Hd Hlen), Hv. reflexivity.
Qed.

(** [int(str(n))] is [n], for an [n] whose text can be written. *)
Lemma py_int_str_of_int (n : Z) :
  str_refused n = false -> py_int (str_of_int n) = Some n.
Proof.
  intros H. unfold str_of_int. rewrite py_int_signed.
  - f_equal. apply DecimalZ.of_to.
  - apply Nat.ltb_ge in H. destruct n; exact H.
Qed.

End IntFacts.

Section StripFacts.
Import RateLimitHeaders.

Lemma lstrip_spaces (pre l : list ascii) :
  forallb is_space pre = true -> lstrip (pre ++ l) = lstrip l.
Proof.
  induction pre as [|c pre IH]; [reflexivity|]. cbn [forallb]. intros H.
  apply andb_true_iff in H as [Hc Hp].
  change ((c :: pre) ++ l) with (c :: (pre ++ l)). cbn [lstrip]. rewrite Hc.
  apply IH, Hp.
Qed.

Lemma lstrip_all_spaces (l : list ascii) :
  forallb is_space l = true -> lstrip l = [].
Proof.
  intros H. rewrite <- (app_nil_r l), (lstrip_spaces l [] H). reflexivity.
Qed.

Lemma lstrip_app (l post : list ascii) :
  forallb is_space post = true ->
  lstrip (l ++ post) = match lstrip l with [] => [] | x => x ++ post end.
Proof.
  intros Hp. induction l as [|c l IH].
  - cbn [app lstrip]. apply lstrip_all_spaces, Hp.
  - change ((c :: l) ++ post) with (c :: (l ++ post)). cbn [lstrip].
    destruct (is_space c); [exact IH|reflexivity].
Qed.

Lemma strip_spaces (pre l post : list ascii) :
  forallb is_space pre = true -> forallb is_space post = true ->
  strip (pre ++ l ++ post) = strip l.
Proof.
  intros Hpre Hpost. unfold strip.
  rewrite (lstrip_spaces pre (l ++ post) Hpre), (lstrip_app l post Hpost).
  destruct (lstrip l) as [|x tl]; [reflexivity|].
  rewrite rev_app_distr, lstrip_spaces; [reflexivity|].
  apply forallb_forall. intros c Hin. apply in_rev in Hin.
  rewrite forallb_forall in Hpost. apply Hpost, Hin.
Qed.

End StripFacts.

(** X21. The number parser of the rate-limit headers reads back every
    integer of at most 4300 digits that is written in decimal: the text
    [str(n)] gives [n], for negative numbers too, so a numeric header the
    server writes this way is never refused.  White space (space, tab, line
    feed, vertical tab, form feed, carriage return) before and after an
    ASCII text is ignored; a text of 4301 digits is refused. *)
Theorem decimal_header_is_read_back (n : Z) :
  Errors.str_refused n = false ->
  RateLimitHeaders.py_int (Errors.str_of_int n) = Some n /\
  RateLimitHeaders.int_field (Some (Errors.str_of_int n)) = Return (Some n) /\
  (forall pre post text : string,
     is_ascii text = true ->
     forallb RateLimitHeaders.is_space (list_ascii_of_string pre) = true ->
     forallb RateLimitHeaders.is_space (list_ascii_of_string post) = true ->
     RateLimitHeaders.py_int (pre ++ text ++ post) = RateLimitHeaders.py_int text) /\
  RateLimitHeaders.int_field (Some (" " ++ Errors.str_of_int n ++ " ")%string)
  = Return (Some n) /\
  RateLimitHeaders.py_int (string_of_list_ascii (repeat "1"%char 4301)) = None /\
  RateLimitHeaders.py_int (string_of_list_ascii (repeat "0"%char 4300)) = Some 0.
Proof.
  intros Hn.
  assert (Hsp : forall pre post text : string,
            forallb RateLimitHeaders.is_space (list_ascii_of_string pre) = true ->
            forallb RateLimitHeaders.is_space (list_ascii_of_string post) = true ->
            RateLimitHeaders.py_int (pre ++ text ++ post) = RateLimitHeaders.py_int text).
  { intros pre post text Hpre Hpost. unfold RateLimitHeaders.py_int.
    rewrite !list_ascii_of_string_app, (strip_spaces _ _ _ Hpre Hpost). reflexivity. }
  split; [apply py_int_str_of_int, Hn|].
  split; [unfold RateLimitHeaders.int_field; rewrite (py_int_str_of_int n Hn); reflexivity|].
  split; [intros pre post text _; apply Hsp|].
  split; [|split; vm_compute; reflexivity].
  unfold RateLimitHeaders.int_field.
  rewrite (Hsp " " " " (Errors.str_of_int n) eq_refl eq_refl)%string.
  rewrite (py_int_str_of_int n Hn). reflexivity.
Qed.

Lemma decimal_header_is_read_back_witness :
  RateLimitHeaders.py_int (Errors.str_of_int (-1250)) = Some (-1250) /\
  RateLimitHeaders.int_field (Some (" " ++ Errors.str_of_int (-1250) ++ " ")%string)
  = Return (Some (-1250)).
Proof.
  destruct (decimal_header_is_read_back (-1250) eq_refl) as (H1 & _ & _ & H4 & _).
  split; [exact H1|exact H4].
Defined.

(** X22. What a snapshot holds, by billing mode.  The plan and the billing
    mode are those of the headers, the mode being ["subscription"] when its
    header is missing.  In mode ["credits"] the four limits are absent, the
    two amounts in cents are the numbers of their headers and the two
    amounts in text are the headers as they are.  In any other mode the four
    limits are the numbers of their headers and the four credit attributes
    are absent.  An attribute whose header is missing is absent. *)
Theorem snapshot_fields_by_billing_mode (h : Errors.Headers)
    (info : RateLimitHeaders.RateLimitInfo) :
  RateLimitHeaders.parse_rate_limit_headers h = Return (Some info) ->
  let number := fun name =>
                  match Errors.Headers_get h name with
                  | Some text => RateLimitHeaders.py_int text
                  | None => None
                  end in
  Errors.Headers_get h "x-ratelimit-plan" = Some (RateLimitHeaders.plan info) /\
  RateLimitHeaders.billing_type info
  = match Errors.Headers_get h "x-billing-type" with
    | Some b => b
    | None => "subscription"%string
    end /\
  (RateLimitHeaders.billing_type info = "credits"%string ->
   RateLimitHeaders.limit_day info = None /\
   RateLimitHeaders.remaining_day info = None /\
   RateLimitHeaders.limit_minute info = None /\
   RateLimitHeaders.remaining_minute info = None /\
   RateLimitHeaders.credit_balance_cents info = number "x-credit-balance-cents"%string /\
   RateLimitHeaders.credit_balance info = Errors.Headers_get h "x-credit-balance" /\
   RateLimitHeaders.request_cost_cents info = number "x-request-cost-cents"%string /\
   RateLimitHeaders.request_cost info = Errors.Headers_get h "x-request-cost") /\
  (RateLimitHeaders.billing_type info <> "credits"%string ->
   RateLimitHeaders.limit_day info = number "x-ratelimit-limit-day"%string /\
   RateLimitHeaders.remaining_day info = number "x-ratelimit-remaining-day"%string /\
   RateLimitHeaders.limit_minute info = number "x-ratelimit-limit-minute"%string /\
   RateLimitHeaders.remaining_minute info = number "x-ratelimit-remaining-minute"%string /\
   RateLimitHeaders.credit_balance_cents info = None /\
   RateLimitHeaders.credit_balance info = None /\
   RateLimitHeaders.request_cost_cents info = None /\
   RateLimitHeaders.request_cost info = None).
Proof.
  intros H number.
  assert (Hf : forall (v : option string) (r : option Z),
            RateLimitHeaders.int_field v = Return r ->
            r = match v with
                | Some text => RateLimitHeaders.py_int text
                | None => None
                end).
  { intros v r. unfold RateLimitHeaders.int_field.
    destruct v as [text|]; [|intros [= <-]; reflexivity].
    destruct (RateLimitHeaders.py_int text); [intros [= <-]; reflexivity|discriminate]. }
  unfold RateLimitHeaders.parse_rate_limit_headers in H.
  destruct (Errors.Headers_get h "x-ratelimit-plan") as [plan|]; [|discriminate].
  destruct (String.eqb plan ""); [discriminate|].
  set (billing := match Errors.Headers_get h "x-billing-type" with
                  | Some b => b
                  | None => "subscription"%string
                  end) in *.
  destruct (String.eqb_spec billing "credits") as [Hb|Hb].
  - destruct (RateLimitHeaders.int_field (Errors.Headers_get h "x-credit-balance-cents"))
      as [bal|] eqn:E1; [|discriminate].
    destruct (RateLimitHeaders.int_field (Errors.Headers_get h "x-request-cost-cents"))
      as [cost|] eqn:E2; [|discriminate].
    injection H as <-. cbn.
    apply Hf in E1, E2. subst number. cbn beta.
    split; [reflexivity|]. split; [reflexivity|].
    split; [intros _; repeat split; assumption|].
    intros Hne. contradiction.
  - destruct (RateLimitHeaders.int_field (Errors.Headers_get h "x-ratelimit-limit-day"))
      as [ld|] eqn:E1; [|discriminate].
    destruct (RateLimitHeaders.int_field (Errors.Headers_get h "x-ratelimit-remaining-day"))
      as [rd|] eqn:E2; [|discriminate].
    destruct (RateLimitHeaders.int_field (Errors.Headers_get h "x-ratelimit-limit-minute"))
      as [lm|] eqn:E3; [|discriminate].
    destruct (RateLimitHeaders.int_field (Errors.Headers_get h "x-ratelimit-remaining-minute"))
      as [rm|] eqn:E4; [|discriminate].
    injection H as <-. cbn.
    apply Hf in E1, E2, E3, E4. subst number. cbn beta.
    split; [reflexivity|]. split; [reflexivity|].
    split; [intros He; contradiction|].
    intros _. repeat split; assumption.
Qed.

Lemma snapshot_fields_by_billing_mode_witness :
  let h := [("x-ratelimit-plan", "payg"); ("x-billing-type", "credits");
            ("x-credit-balance-cents", "1250"); ("x-credit-balance", "$12.50");
            ("x-ratelimit-limit-day", "abc")]%string in
  let info := RateLimitHeaders.mk_info "payg" "credits" None None None None
                (Some 1250) (Some "$12.50"%string) None None in
  RateLimitHeaders.parse_rate_limit_headers h = Return (Some info) /\
  (
  let number := fun name =>
                  match Errors.Headers_get h name with
                  | Some text => RateLimitHeaders.py_int text
                  | None => None
                  end in
  Errors.Headers_get h "x-ratelimit-plan" = Some (RateLimitHeaders.plan info) /\
  RateLimitHeaders.billing_type info
  = match Errors.Headers_get h "x-billing-type" with
    | Some b => b
    | None => "subscription"%string
    end /\
  (RateLimitHeaders.billing_type info = "credits"%string ->
   RateLimitHeaders.limit_day info = None /\
   RateLimitHeaders.remaining_day info = None /\
   RateLimitHeaders.limit_minute info = None /\
   RateLimitHeaders.remaining_minute info = None /\
   RateLimitHeaders.credit_balance_cents info = number "x-credit-balance-cents"%string /\
   RateLimitHeaders.credit_balance info = Errors.Headers_get h "x-credit-balance" /\
   RateLimitHeaders.request_cost_cents info = number "x-request-cost-cents"%string /\
   RateLimitHeaders.request_cost info = Errors.Headers_get h "x-request-cost") /\
  (RateLimitHeaders.billing_type info <> "credits"%string ->
   RateLimitHeaders.limit_day info = number "x-ratelimit-limit-day"%string /\
   RateLimitHeaders.remaining_day info = number "x-ratelimit-remaining-day"%string /\
   RateLimitHeaders.limit_minute info = number "x-ratelimit-limit-minute"%string /\
   RateLimitHeaders.remaining_minute info = number "x-ratelimit-remaining-minute"%string /\
   RateLimitHeaders.credit_balance_cents info = None /\
   RateLimitHeaders.credit_balance info = None /\
   RateLimitHeaders.request_cost_cents info = None /\
   RateLimitHeaders.request_cost info = None)).
Proof.
  intros h info. split; [reflexivity|].
  exact (snapshot_fields_by_billing_mode h info eq_refl).
Defined.

(** ** Auto-pagination: when the driver stops *)

Section DriverStops.
Import Pagination.

Variable T : Type.
Variable list_op : Z -> Z -> SyncPage T.

Lemma requests_yields (items : list T) : requests (map Yield items) = [].
Proof. induction items as [|x items IH]; [reflexivity|]. exact IH. Qed.

Lemma yielded_items_yields (items : list T) : yielded_items (map Yield items) = items.
Proof.
  induction items as [|x items IH]; [reflexivity|].
  cbn [map]. rewrite yielded_items_yield, IH. reflexivity.
Qed.

Lemma visited_shift (n : nat) (pl off : Z) :
  visited list_op (S (S n)) pl off !! S n
  = visited list_op (S n) pl
      (offset (meta (list_op pl off)) + limit (meta (list_op pl off))) !! n.
Proof. reflexivity. Qed.

Lemma paginate_runs (fuel : nat) (pl : Z) (max_items : option Z) :
  forall (off y : Z),
    (forall y', cap_reached max_items y' = false) ->
    (forall n page, (n < fuel)%nat ->
       visited list_op (S n) pl off !! n = Some page -> last_page page = false) ->
    snd (paginate list_op fuel pl max_items off y) = Running /\
    requests (fst (paginate list_op fuel pl max_items off y))
    = visited_offsets list_op fuel pl off /\
    yielded_items (fst (paginate list_op fuel pl max_items off y))
    = concat (map data (visited list_op fuel pl off)).
Proof.
  induction fuel as [|fuel IH]; intros off y Hcap Hpages.
  - repeat split.
  - rewrite paginate_step. cbv zeta.
    rewrite (yield_items_no_cap T max_items _ y Hcap).
    assert (Hlast : last_page (list_op pl off) = false).
    { apply (Hpages 0%nat); [lia|reflexivity]. }
    rewrite Hlast. cbn [orb].
    set (off' := offset (meta (list_op pl off)) + limit (meta (list_op pl off))).
    destruct (IH off' (y + Z.of_nat (length (data (list_op pl off)))) Hcap)
      as (Hout & Hreq & Hitems).
    { intros n page Hn Hv. apply (Hpages (S n) page); [lia|].
      rewrite visited_shift. exact Hv. }
    destruct (paginate list_op fuel pl max_items off' _) as [more out].
    cbn [fst snd] in *. split; [exact Hout|]. split.
    + rewrite requests_request, requests_app, requests_yields, Hreq. reflexivity.
    + rewrite yielded_items_request, yielded_items_app, yielded_items_yields, Hitems.
      reflexivity.
Qed.

Lemma last_page_search (fuel : nat) (pl : Z) :
  forall off : Z,
    (exists n page, (n < fuel)%nat /\
       visited list_op (S n) pl off !! n = Some page /\ last_page page = true) \/
    (forall n page, (n < fuel)%nat ->
       visited list_op (S n) pl off !! n = Some page -> last_page page = false).
Proof.
  induction fuel as [|fuel IH]; intros off.
  - right. intros n page Hn. lia.
  - destruct (last_page (list_op pl off)) eqn:Hl.
    + left. exists 0%nat, (list_op pl off). split; [lia|]. split; [reflexivity|exact Hl].
    + destruct (IH (offset (meta (list_op pl off)) + limit (meta (list_op pl off))))
        as [(n & page & Hn & Hv & Hp)|Hno].
      * left. exists (S n), page. split; [lia|]. split; [|exact Hp].
        rewrite visited_shift. exact Hv.
      * right. intros [|n] page Hn Hv.
        -- injection Hv as <-. exact Hl.
        -- rewrite visited_shift in Hv. apply (Hno n page); [lia|exact Hv].
Qed.

(** With a positive cap, a run that has returned has met the cap exactly or
    has yielded every item of the pages it visited, the last of them being a
    page that ends the run. *)
Lemma paginate_cap_met (fuel : nat) (pl m : Z) :
  forall (off y : Z),
    0 < m -> y < m ->
    snd (paginate list_op fuel pl (Some m) off y) = Finished ->
    y + Z.of_nat (length (yielded_items (fst (paginate list_op fuel pl (Some m) off y))))
    = m \/
    exists k,
      yielded_items (fst (paginate list_op fuel pl (Some m) off y))
      = concat (map data (visited list_op k pl off)) /\
      exists page, last (visited list_op k pl off) = Some page /\
                   last_page page = true.
Proof.
  induction fuel as [|fuel IH]; intros off y Hm Hy Hfin; [discriminate|].
  rewrite paginate_step in Hfin |- *. cbv zeta in Hfin |- *.
  pose proof (yield_items_spec T (Some m) (data (list_op pl off)) y) as Hspec.
  pose proof (yield_items_cap T m (data (list_op pl off)) y Hm Hy) as Hcap.
  destruct (yield_items (Some m) (data (list_op pl off)) y) as [[evs y'] stop].
  destruct Hspec as (Hreq & Hy' & Hstop). destruct Hcap as [Hle Hcap].
  destruct stop.
  - left. cbn [orb fst]. rewrite yielded_items_request. lia.
  - cbn [orb] in Hfin |- *.
    destruct (last_page (list_op pl off)) eqn:Hl.
    + right. exists 1%nat. cbn [fst]. rewrite yielded_items_request, Hstop.
      cbn. rewrite app_nil_r. split; [reflexivity|].
      exists (list_op pl off). split; [reflexivity|exact Hl].
    + set (off' := offset (meta (list_op pl off)) + limit (meta (list_op pl off))) in *.
      specialize (IH off' y' Hm Hcap).
      destruct (paginate list_op fuel pl (Some m) off' y') as [more out].
      cbn [fst snd] in *. specialize (IH Hfin).
      rewrite yielded_items_request, yielded_items_app, Hstop.
      destruct IH as [IH|(k & Hk & page & Hp & Hlp)].
      * left. rewrite length_app. rewrite Hstop in Hy'. lia.
      * right. exists (S k). cbn [visited map concat]. fold off'.
        rewrite Hk. split; [reflexivity|].
        exists page. split; [|exact Hlp].
        rewrite last_cons. fold off'. rewrite Hp. reflexivity.
Qed.

End DriverStops.

(** X23. Without a cap the driver has no bound of its own: it returns
    exactly when one of the pages it visits reports no more pages or has no
    items.  While every page reports more pages and has items it goes on,
    one request for each page, yielding every item of every page; a server
    that answers every request with the same page of two items out of ten
    keeps it running for ever. *)
Theorem driver_stops_only_on_a_last_page (T : Type)
    (list_op : Z -> Z -> Pagination.SyncPage T) (fuel : nat) (limit : option Z) :
  let size := Pagination.page_size limit in
  let run := Pagination.list_auto_paginate list_op fuel limit None in
  (snd run = Pagination.Finished <->
   exists n page,
     (n < fuel)%nat /\
     Pagination.visited list_op (S n) size 0 !! n = Some page /\
     Pagination.last_page page = true) /\
  (snd run = Pagination.Running ->
   Pagination.requests (fst run) = Pagination.visited_offsets list_op fuel size 0 /\
   length (Pagination.requests (fst run)) = fuel /\
   Pagination.yielded_items (fst run)
   = concat (map Pagination.data (Pagination.visited list_op fuel size 0))) /\
  (forall fuel',
     snd (Pagination.list_auto_paginate Pagination.one_page_of_two fuel' (Some 2) None)
     = Pagination.Running).
Proof.
  intros size run. subst run. unfold Pagination.list_auto_paginate. fold size.
  assert (Hcap : forall y', Pagination.cap_reached None y' = false) by reflexivity.
  split; [|split].
  - split.
    + intros Hfin.
      destruct (last_page_search T list_op fuel size 0) as [H|H]; [exact H|].
      destruct (paginate_runs T list_op fuel size None 0 0 Hcap H) as [Hrun _].
      rewrite Hrun in Hfin. discriminate.
    + intros (n & page & Hn & Hv & Hp).
      apply (paginate_terminates T list_op n fuel size None 0 0 page Hn Hv Hp).
  - intros Hrun.
    destruct (last_page_search T list_op fuel size 0) as [(n & page & Hn & Hv & Hp)|H].
    + destruct (paginate_terminates T list_op n fuel size None 0 0 page Hn Hv Hp)
        as [Hfin _].
      rewrite Hfin in Hrun. discriminate.
    + destruct (paginate_runs T list_op fuel size None 0 0 Hcap H) as (_ & Hreq & Hit).
      split; [exact Hreq|]. split; [|exact Hit].
      rewrite Hreq. apply visited_offsets_length.
  - intros fuel'.
    apply (paginate_runs string Pagination.one_page_of_two fuel' 2 None 0 0 Hcap).
    intros n page Hn Hv.
    assert (Hall : forall k i off p,
              Pagination.visited Pagination.one_page_of_two k 2 off !! i = Some p ->
              Pagination.last_page p = false).
    { clear. induction k as [|k IH]; intros i off p Hv; [discriminate|].
      destruct i as [|i]; [injection Hv as <-; reflexivity|].
      eapply IH. exact Hv. }
    apply (Hall (S n) n 0 page Hv).
Qed.

(** X24. With a positive cap [m], a run that has returned has either
    yielded exactly [m] items, or has yielded every item of the pages it
    visited, the last of which reports no more pages or has no items: the
    cap never makes the driver stop short of [m] items that the pages
    hold. *)
Theorem cap_is_met_or_pages_are_exhausted (T : Type)
    (list_op : Z -> Z -> Pagination.SyncPage T) (fuel : nat)
    (limit : option Z) (m : Z) :
  0 < m ->
  let size := Pagination.page_size limit in
  let run := Pagination.list_auto_paginate list_op fuel limit (Some m) in
  snd run = Pagination.Finished ->
  Z.of_nat (length (Pagination.yielded_items (fst run))) = m \/
  exists k,
    Pagination.yielded_items (fst run)
    = concat (map Pagination.data (Pagination.visited list_op k size 0)) /\
    Z.of_nat (length (Pagination.yielded_items (fst run))) < m /\
    exists page, last (Pagination.visited list_op k size 0) = Some page /\
                 Pagination.last_page page = true.
Proof.
  intros Hm size run Hfin. subst run. unfold Pagination.list_auto_paginate in *.
  fold size in Hfin |- *.
  destruct (paginate_cap_met T list_op fuel size m 0 0 Hm Hm Hfin)
    as [H|(k & Hk & page & Hp & Hl)].
  - left. lia.
  - destruct (paginate_below_cap T list_op fuel size m 0 0 Hm Hm) as [_ Hle].
    destruct (Z.eq_dec
                (Z.of_nat (length (Pagination.yielded_items
                                     (fst (Pagination.paginate list_op fuel size (Some m) 0 0)))))
                m) as [He|Hne]; [left; exact He|].
    right. exists k. split; [exact Hk|]. split; [lia|].
    exists page. split; assumption.
Qed.

Lemma cap_is_met_or_pages_are_exhausted_witness :
  let run := Pagination.list_auto_paginate Pagination.two_pages 3 (Some 1) (Some 5) in
  Z.of_nat (length (Pagination.yielded_items (fst run))) = 5 \/
  exists k,
    Pagination.yielded_items (fst run)
    = concat (map Pagination.data (Pagination.visited Pagination.two_pages k
                                     (Pagination.page_size (Some 1)) 0)) /\
    Z.of_nat (length (Pagination.yielded_items (fst run))) < 5 /\
    exists page, last (Pagination.visited Pagination.two_pages k
                         (Pagination.page_size (Some 1)) 0) = Some page /\
                 Pagination.last_page page = true.
Proof.
  apply (cap_is_met_or_pages_are_exhausted string Pagination.two_pages 3 (Some 1) 5).
  - lia.
  - reflexivity.
Defined.

(** ** Key-casing normalizer: the keys of the result *)

Section NormalizedKeys.
Import KeyCasing.

Lemma camel_to_snake_no_upper (key : string) : has_upper (_camel_to_snake key) = false.
Proof.
  unfold has_upper, _camel_to_snake. rewrite list_ascii_of_string_of_list_ascii.
  unfold camel_to_snake_chars. apply lower_no_upper.
Qed.

Lemma dict_set_length {A : Type} (d : list (string * A)) (k : string) (v : A) :
  (length (dict_set d k v) <= S (length d))%nat.
Proof.
  induction d as [|[k0 v0] d IH]; [simpl; lia|]. cbn [dict_set].
  destruct (String.eqb k0 k); simpl; lia.
Qed.

Lemma dict_fold_length {A : Type} (l d : list (string * A)) :
  (length (fold_left (fun d kv => dict_set d (fst kv) (snd kv)) l d)
   <= length d + length l)%nat.
Proof.
  revert d. induction l as [|[k v] l IH]; intros d; [simpl; lia|].
  cbn [fold_left fst snd length]. specialize (IH (dict_set d k v)).
  pose proof (dict_set_length d k v). lia.
Qed.

Lemma transform_keys_lower (obj : json) :
  all_keys (fun k => negb (has_upper k)) (_transform_keys obj) = true.
Proof.
  induction obj as [| | | | |items IH|items IH] using json_induction;
    try reflexivity.
  - rewrite transform_keys_list. apply all_keys_list.
    apply List.Forall_forall. intros v Hv. apply in_map_iff in Hv as (v0 & <- & Hv0).
    rewrite List.Forall_forall in IH. apply IH, Hv0.
  - rewrite transform_keys_dict. apply all_keys_dict.
    apply List.Forall_forall. intros kv Hkv. apply dict_of_items_in in Hkv.
    apply in_map_iff in Hkv as ([k v] & <- & Hin). cbn [fst snd]. split.
    + rewrite camel_to_snake_no_upper. reflexivity.
    + rewrite List.Forall_forall in IH. apply (IH (k, v) Hin).
Qed.

End NormalizedKeys.

(** X25. No key of a normalized document has an upper-case letter, at any
    depth.  An object never gains entries; when no two of its keys are
    rewritten to the same name it keeps all of them, in their order, each
    under its rewritten key with its normalized value. *)
Theorem normalized_keys_are_lower_case :
  (forall obj,
     KeyCasing.all_keys (fun k => negb (KeyCasing.has_upper k))
       (KeyCasing._transform_keys obj) = true) /\
  (forall items, exists t,
     KeyCasing._transform_keys (JDict items) = JDict t /\
     (length t <= length items)%nat) /\
  (forall items,
     List.NoDup (map (fun kv => KeyCasing._camel_to_snake (fst kv)) items) ->
     KeyCasing._transform_keys (JDict items)
     = JDict (map (fun kv => (KeyCasing._camel_to_snake (fst kv),
                              KeyCasing._transform_keys (snd kv))) items)).
Proof.
  split; [exact transform_keys_lower|]. split.
  - intros items. eexists. split; [apply transform_keys_dict|].
    unfold dict_of_items.
    etransitivity; [apply dict_fold_length|]. rewrite length_map. simpl. lia.
  - intros items Hnd. rewrite transform_keys_dict. f_equal.
    apply dict_of_items_id. rewrite map_map. exact Hnd.
Qed.

(** ** The time a request waits, and what it sends *)

Section BackoffTotal.
Import Transport Retrying.

Variable rand : Z -> Q.
Hypothesis rand_range : forall a, (0 <= rand a)%Q /\ (rand a < 1)%Q.

Lemma total_app (l1 l2 : list Q) : (total (l1 ++ l2) == total l1 + total l2)%Q.
Proof.
  induction l1 as [|d l1 IH]; [simpl; ring|].
  change (total ((d :: l1) ++ l2)) with (d + total (l1 ++ l2))%Q.
  change (total (d :: l1)) with (d + total l1)%Q. rewrite IH. ring.
Qed.

Lemma backoffs_snoc (k : nat) :
  backoffs rand (S k) = backoffs rand k ++ [backoff rand (Z.of_nat (S k))].
Proof. unfold backoffs. rewrite seq_S, map_app. reflexivity. Qed.

Lemma base_delay_succ (k : nat) :
  (base_delay (Z.of_nat (S k)) == (1 # 2) * Qpower 2 (Z.of_nat k))%Q.
Proof.
  unfold base_delay. replace (Z.of_nat (S k) - 1) with (Z.of_nat k) by lia.
  reflexivity.
Qed.

Lemma pow2_succ (k : nat) :
  (Qpower 2 (Z.of_nat (S k)) == 2 * Qpower 2 (Z.of_nat k))%Q.
Proof.
  replace (Z.of_nat (S k)) with (Z.of_nat k + 1) by lia.
  rewrite Qpower_plus by discriminate. change (Qpower 2 1) with 2%Q. ring.
Qed.

Lemma total_backoffs (k : nat) :
  ((1 # 2) * (Qpower 2 (Z.of_nat k) - 1) <= total (backoffs rand k))%Q /\
  (total (backoffs rand k) <= (3 # 4) * (Qpower 2 (Z.of_nat k) - 1))%Q.
Proof.
  induction k as [|k [IHl IHu]].
  - split; vm_compute; discriminate.
  - rewrite backoffs_snoc, total_app.
    change (total [backoff rand (Z.of_nat (S k))])
      with (backoff rand (Z.of_nat (S k)) + 0)%Q.
    unfold backoff. rewrite base_delay_succ, pow2_succ.
    destruct (rand_range (Z.of_nat (S k))) as [H0 H1].
    assert (Hp : (0 < Qpower 2 (Z.of_nat k))%Q) by (apply Qpower_0_lt; reflexivity).
    set (p := Qpower 2 (Z.of_nat k)) in *.
    set (r := rand (Z.of_nat (S k))) in *.
    set (t := total (backoffs rand k)) in *.
    split; nra.
Qed.

End BackoffTotal.

(** X26. The time a request can spend waiting between retries is bounded:
    when every call fails in a way the loop retries with the backoff, a
    request with [max_retries = m >= 0] sleeps at least [(2^m - 1) / 2]
    seconds and at most [3 (2^m - 1) / 4] seconds in all, the random numbers
    being in [[0, 1)]: at most 2.25 seconds with the default of two
    retries. *)
Theorem exhausted_retries_wait_bound (float_of_str : string -> option Q)
    (net : nat -> Transport.net_result) (rand : Z -> Q) (c : Transport.Client)
    (method path : string) (query : option (list (string * json)))
    (body : option json) (auth : bool) (w : Transport.World) :
  0 <= Transport.max_retries c ->
  (forall a, (0 <= rand a)%Q /\ (rand a < 1)%Q) ->
  auth && negb (Transport.str_truthy (Transport.api_key c)) = false ->
  (forall j, (j <= Z.to_nat (Transport.max_retries c))%nat ->
     Retrying.transient (net (length (Transport.calls w) + j)%nat) = true) ->
  let out := Transport._request float_of_str net rand c method path query body auth w in
  exists delays : list Q,
    Transport.sleeps (snd out) = Transport.sleeps w ++ delays /\
    length delays = Z.to_nat (Transport.max_retries c) /\
    ((1 # 2) * (Qpower 2 (Transport.max_retries c) - 1) <= Retrying.total delays)%Q /\
    (Retrying.total delays <= (3 # 4) * (Qpower 2 (Transport.max_retries c) - 1))%Q /\
    (Transport.max_retries c = 2 -> (Retrying.total delays <= 9 # 4)%Q).
Proof.
  intros Hm Hr Ha Ht out. subst out.
  rewrite (request_retries_exhausted float_of_str net rand c method path query body
             auth w Hm (fun a => proj1 (Hr a)) Ha Ht).
  cbn [snd Transport.sleeps].
  exists (Retrying.backoffs rand (Z.to_nat (Transport.max_retries c))).
  split; [reflexivity|].
  split; [unfold Retrying.backoffs; rewrite length_map, length_seq; reflexivity|].
  destruct (total_backoffs rand Hr (Z.to_nat (Transport.max_retries c))) as [Hl Hu].
  rewrite Z2Nat.id in Hl, Hu by exact Hm.
  split; [exact Hl|]. split; [exact Hu|].
  intros H2. rewrite H2 in Hu |- *.
  eapply Qle_trans; [exact Hu|]. vm_compute. discriminate.
Qed.

Lemma exhausted_retries_wait_bound_witness :
  let c := Transport.BaseSyncClient (Some "pk_test_123"%string) None
             "https://api.propheseer.com" "30.0" None in
  let net := fun _ : nat => Transport.Failed Errors.TimeoutException in
  let rand := fun _ : Z => (1 # 2)%Q in
  let out := Transport._request (fun _ => None) net rand c "GET" "/v1/markets" None None
               true (Transport.mk_world [] []) in
  exists delays : list Q,
    Transport.sleeps (snd out) = [] ++ delays /\
    length delays = Z.to_nat 2 /\
    ((1 # 2) * (Qpower 2 2 - 1) <= Retrying.total delays)%Q /\
    (Retrying.total delays <= (3 # 4) * (Qpower 2 2 - 1))%Q /\
    (2 = 2 -> (Retrying.total delays <= 9 # 4)%Q).
Proof.
  intros c net rand.
  apply (exhausted_retries_wait_bound (fun _ => None) net rand c "GET" "/v1/markets"
           None None true (Transport.mk_world [] [])).
  - simpl. lia.
  - intros a. subst rand. simpl. split; [discriminate|reflexivity].
  - reflexivity.
  - intros j Hj. reflexivity.
Defined.

(** X27. A request made with [auth=False] never sends the key: none of its
    calls has an [Authorization] header, whatever key the client holds.  A
    request made with [auth=True] that reaches the network sends
    [Authorization: Bearer] followed by the key on every call.  Every call
    has the [Content-Type] and [User-Agent] headers. *)
Theorem public_requests_carry_no_key (float_of_str : string -> option Q)
    (net : nat -> Transport.net_result) (rand : Z -> Q) (c : Transport.Client)
    (method path : string) (query : option (list (string * json)))
    (body : option json) (auth : bool) (w : Transport.World) :
  let out := Transport._request float_of_str net rand c method path query body auth w in
  exists made : list Transport.Call,
    Transport.calls (snd out) = Transport.calls w ++ made /\
    forall call, In call made ->
      Transport.call_method call = method /\
      Transport.call_path call = path /\
      Transport.call_query call = query /\
      Transport.call_json call = body /\
      dict_lookup (Transport.call_headers call) "Content-Type"
      = Some "application/json"%string /\
      dict_lookup (Transport.call_headers call) "User-Agent"
      = Some "propheseer-python/1.0.0"%string /\
      (auth = false ->
       dict_lookup (Transport.call_headers call) "Authorization" = None) /\
      (auth = true ->
       exists key, Transport.api_key c = Some key /\ key <> ""%string /\
         dict_lookup (Transport.call_headers call) "Authorization"
         = Some ("Bearer " ++ key)%string).
Proof.
  intros out. subst out. unfold Transport._request.
  destruct (auth && negb (Transport.str_truthy (Transport.api_key c))) eqn:Hauth.
  - exists []. cbn [snd]. rewrite app_nil_r. split; [reflexivity|intros call []].
  - destruct (attempts_budget float_of_str net rand c
                (Transport.mk_call method path query
                   (Transport.request_headers c auth) body)
                (Z.to_nat (Transport.max_retries c + 1)) 0 None w)
      as (k & ds & _ & Hc & _); [lia|].
    eexists. split; [exact Hc|].
    intros call Hin.
    assert (Hcall : call = Transport.mk_call method path query
                             (Transport.request_headers c auth) body).
    { clear Hc. induction k as [|k IH]; [destruct Hin|].
      destruct Hin as [<-|Hin]; [reflexivity|exact (IH Hin)]. }
    subst call.
    cbn [Transport.call_method Transport.call_path Transport.call_query
         Transport.call_json Transport.call_headers].
    repeat (split; [reflexivity|]).
    unfold Transport.request_headers. split.
    + intros ->. reflexivity.
    + intros ->. cbn [andb] in Hauth |- *.
      apply negb_false_iff in Hauth. rewrite Hauth.
      unfold Transport.str_truthy in Hauth.
      destruct (Transport.api_key c) as [key|]; [|discriminate].
      exists key. split; [reflexivity|]. split; [|reflexivity].
      intros ->. discriminate.
Qed.

(** X28. After [close] the client is silent.  The receive loop leaves at
    its next test without handling a frame or emitting [error]; the thread
    ends with the one [disconnect] event and does not start the reconnect
    procedure, even when reconnection is on.  Calls of [subscribe] and
    [unsubscribe] made afterwards still change the subscription set and
    write nothing.  Closing again changes nothing. *)
Theorem closed_client_stays_silent (App : Type)
    (during_wait : Z -> list WebSocket.user_call)
    (connection : Z -> WebSocket.connect_result)
    (st : WebSocket.state App) (input : list WebSocket.inbound)
    (calls : list WebSocket.user_call) (fuel : nat) :
  let c := WebSocket.close st in
  WebSocket._closed c = true /\
  WebSocket._ws c = WebSocket.NoSocket /\
  WebSocket.close c = c /\
  WebSocket.receive_loop input c = (c, WebSocket.Exited) /\
  WebSocketThread.thread_end during_wait connection fuel c
  = WebSocket._emit "disconnect" [WebSocket.Number 1000; WebSocket.Text ""] c /\
  (let after := fold_left (fun s u => WebSocket.user u s) calls c in
   WebSocket.sent after = WebSocket.sent st /\
   WebSocket.emitted after = WebSocket.emitted st /\
   WebSocket._closed after = true /\
   WebSocket._ws after = WebSocket.NoSocket /\
   WebSocket._subscribed_markets after
   = WebSocket.apply_calls calls (WebSocket._subscribed_markets st)).
Proof.
  intros c. subst c.
  split; [reflexivity|]. split; [reflexivity|]. split; [reflexivity|].
  split; [destruct input; reflexivity|]. split.
  - unfold WebSocketThread.thread_end. rewrite !emit_spec. reflexivity.
  - cbv zeta. rewrite user_calls_disconnected by discriminate.
    cbn. destruct (existsb WebSocket.is_close calls); repeat split.
Qed.
